(** * Link cost subsystem of the NLSR fork: a shallow embedding

    The development follows the C++ sources of the link cost manager
    ([LinkCostManager], link-cost-manager.cpp) and of the online-learning
    route-cost calculator ([MLAdaptiveCalculator], ml-adaptive-calculator.cpp).

    Conventions of the embedding.
    - A C++ [double] is a real number of [R]: arithmetic is exact, there is
      no rounding error, no infinity and no NaN.  The two places where the
      manager divides by a cost that may be zero are written out with the
      outcome the IEEE comparison has there ([ratio_lt], [ratio_ge]).
    - [ndn::time::steady_clock] time points and durations are integer
      nanosecond counts ([Z]); [duration_cast<milliseconds>] truncates
      towards zero ([Z.quot]).
    - [std::unordered_map]/[std::map] members are finite maps ([gmap]).
    - Collaborators that the manager only calls into (scheduler, LSDB,
      routing table, face, feedback subscriber) are recorded as lists of
      the requests they received. *)

From Stdlib Require Import Reals Lra Lia ZArith.
From stdpp Require Import gmap strings list fin_maps.

#[local] Open Scope Z_scope.

(** ** Numbers *)

#[global] Instance Rlt_decision (x y : R) : Decision (x < y)%R := Rlt_dec x y.
#[global] Instance Rle_decision (x y : R) : Decision (x <= y)%R := Rle_dec x y.
#[global] Instance Rge_decision (x y : R) : Decision (x >= y)%R := Rge_dec x y.
#[global] Instance Req_decision : EqDecision R := Req_dec_T.

(** [std::round]: nearest integer, halfway cases away from zero. *)
Definition round (x : R) : R :=
  if decide (0 <= x)%R then IZR (Zfloor (x + / 2))
  else (- IZR (Zfloor (- x + / 2)))%R.

(** The IEEE outcome of [a / b < c] for a non-negative [a] and a positive
    [c]: with [b = 0] the quotient is infinite or NaN and the comparison is
    false. *)
Definition ratio_lt (a b c : R) : bool :=
  if decide (b = 0%R) then false else bool_decide (a / b < c)%R.

(** The IEEE outcome of [a / b >= c] for a non-negative [a]: with [b = 0]
    the quotient is [+inf] when [a > 0] (true) and NaN when [a = 0]
    (false). *)
Definition ratio_ge (a b c : R) : bool :=
  if decide (b = 0%R) then bool_decide (0 < a)%R
  else bool_decide (a / b >= c)%R.

(** Durations and time points, in nanoseconds. *)
Definition milliseconds (n : Z) : Z := n * 1000000.
Definition seconds (n : Z) : Z := n * 1000000000.
Definition minutes (n : Z) : Z := seconds (60 * n).

(** [duration_cast<milliseconds>(d).count()] *)
Definition toMilliseconds (d : Z) : Z := Z.quot d 1000000.

Definition wrap32 (x : Z) : Z := x mod 2 ^ 32.
Definition wrap64 (x : Z) : Z := x mod 2 ^ 64.

(** ** Data model *)

(** An [ndn::Name]: a sequence of components. *)
Abbreviation Name := (list string).

(** Modelled from the spec: [Adjacent::Status] (adjacent.hpp is not among
    the sources).  The manager only ever compares a status against ACTIVE
    and INACTIVE; the third value stands for whatever else the hello
    protocol may report, so that nothing below relies on there being only
    two. *)
Inductive Status := STATUS_UNKNOWN | STATUS_INACTIVE | STATUS_ACTIVE.

#[global] Instance Status_eq_dec : EqDecision Status.
Proof. solve_decision. Defined.

Record RttMeasurement := mkRttMeasurement {
  rtt : Z;
  timestamp : Z
}.

(** Modelled from the spec: [OutgoingLinkState] is declared in
    link-cost-manager.hpp, which is not among the sources; the fields are
    the ones link-cost-manager.cpp reads and writes. *)
Record OutgoingLinkState := mkLinkState {
  neighbor : Name;
  status : Status;
  originalCost : R;
  currentCost : R;
  rttHistory : list RttMeasurement;
  timeoutCount : Z;
  lastSuccess : Z;
  lastLsaTriggerTime : Z
}.

Definition set_status (s : Status) (l : OutgoingLinkState) :=
  mkLinkState (neighbor l) s (originalCost l) (currentCost l) (rttHistory l)
              (timeoutCount l) (lastSuccess l) (lastLsaTriggerTime l).
Definition set_currentCost (c : R) (l : OutgoingLinkState) :=
  mkLinkState (neighbor l) (status l) (originalCost l) c (rttHistory l)
              (timeoutCount l) (lastSuccess l) (lastLsaTriggerTime l).
Definition set_rttHistory (h : list RttMeasurement) (l : OutgoingLinkState) :=
  mkLinkState (neighbor l) (status l) (originalCost l) (currentCost l) h
              (timeoutCount l) (lastSuccess l) (lastLsaTriggerTime l).
Definition set_timeoutCount (n : Z) (l : OutgoingLinkState) :=
  mkLinkState (neighbor l) (status l) (originalCost l) (currentCost l)
              (rttHistory l) n (lastSuccess l) (lastLsaTriggerTime l).
Definition set_lastSuccess (t : Z) (l : OutgoingLinkState) :=
  mkLinkState (neighbor l) (status l) (originalCost l) (currentCost l)
              (rttHistory l) (timeoutCount l) t (lastLsaTriggerTime l).
Definition set_lastLsaTriggerTime (t : Z) (l : OutgoingLinkState) :=
  mkLinkState (neighbor l) (status l) (originalCost l) (currentCost l)
              (rttHistory l) (timeoutCount l) (lastSuccess l) t.

(** Modelled from the spec: the stability predicate
    [status == ACTIVE && timeout_count == 0] of [OutgoingLinkState::isStable]. *)
Definition isStable (l : OutgoingLinkState) : bool :=
  bool_decide (status l = STATUS_ACTIVE) && bool_decide (timeoutCount l = 0).

(** Modelled from the spec: [OutgoingLinkState::addRttMeasurement], a
    bounded deque with FIFO eviction; [cap] is its capacity. *)
Definition addRttMeasurement (cap : nat) (d t : Z) (l : OutgoingLinkState) :=
  let h := rttHistory l ++ [mkRttMeasurement d t] in
  set_rttHistory (if decide (cap < length h)%nat then drop 1 h else h) l.

Definition sumRtt (h : list RttMeasurement) : Z :=
  foldr (fun m acc => rtt m + acc) 0 h.

(** Modelled from the spec: [OutgoingLinkState::getAverageRtt], the mean of
    the stored durations (integer division of the tick counts), zero for an
    empty history. *)
Definition getAverageRtt (l : OutgoingLinkState) : Z :=
  match rttHistory l with
  | [] => 0
  | _ => Z.quot (sumRtt (rttHistory l)) (Z.of_nat (length (rttHistory l)))
  end.

(** Modelled from the spec: an entry of the adjacency list of the host
    daemon (adjacent.hpp is not among the sources); [linkCost] is the
    mutable link-cost slot.  The list is a finite map from the neighbor's
    name, which is what [findAdjacent] looks up. *)
Record Adjacent := mkAdjacent {
  adjStatus : Status;
  linkCost : R;
  originalLinkCost : R;
  interestTimedOutNo : Z
}.

Definition setLinkCost (c : R) (a : Adjacent) :=
  mkAdjacent (adjStatus a) c (originalLinkCost a) (interestTimedOutNo a).

(** [LinkCostManager::LinkMetrics], the snapshot handed to a calculator. *)
Record LinkMetrics := mkLinkMetrics {
  lm_neighbor : Name;
  lm_originalCost : R;
  lm_currentCost : R;
  lm_timeoutCount : Z;
  lm_lastSuccessTime : Z;
  lm_status : Status;
  lm_rttHistory : list Z;
  lm_currentRtt : option Z
}.

(** ** The manager's state *)

(** Outcome of a call of the registered cost calculator: a cost, a
    [std::exception] thrown inside it, or a thrown object of any other
    type. *)
Inductive CalcResult := Returned (c : R) | Threw | ThrewOther.

(** [LinkCostManager::LoadAwareCostCalculator]:
    [(neighbor, rttBasedCost, metrics) -> cost]. *)
Definition Calculator := Name -> R -> LinkMetrics -> CalcResult.

(** The closures the manager hands to its scheduler. *)
Inductive Task :=
| TaskStartup                       (* the 30 s warm-up lambda of [start] *)
| TaskStatusReport                  (* [generateStatusReport] *)
| TaskRttMeasurement (n : Name).    (* the lambda of [scheduleRttMeasurement] *)

#[global] Instance Task_eq_dec : EqDecision Task.
Proof. solve_decision. Defined.

(** Who asked the LSDB for an adjacency-LSA build. *)
Inductive RebuildCause := CostUpdate (n : Name) | Shutdown.

#[global] Instance RebuildCause_eq_dec : EqDecision RebuildCause.
Proof. solve_decision. Defined.

Record LinkCostManager := mkLCM {
  m_adjacencyList : gmap Name Adjacent;
  m_outgoingLinks : gmap Name OutgoingLinkState;
  m_pendingMeasurements : gmap Z (Name * Z);
  m_scheduler : list (Z * Task);              (* due time, task *)
  m_isActive : bool;
  m_nextSequenceNumber : Z;
  m_loadAwareCostCalculator : option Calculator;
  m_mlFeedbackCallback : bool;                (* a subscriber is registered *)
  m_totalMeasurements : Z;
  m_successfulMeasurements : Z;
  m_costUpdates : Z;
  (* requests received by the collaborators, newest first *)
  adjLsaBuilds : list (Z * RebuildCause);     (* [m_lsdb.scheduleAdjLsaBuild] *)
  routingTableCalculations : list Z;          (* [scheduleRoutingTableCalculation] *)
  probesSent : list (Z * Name);               (* [m_face.expressInterest] *)
  feedbackSent : list (Name * Z)              (* [m_mlFeedbackCallback] *)
}.

Definition with_adjacencyList v (s : LinkCostManager) :=
  mkLCM v (m_outgoingLinks s) (m_pendingMeasurements s) (m_scheduler s) (m_isActive s)
    (m_nextSequenceNumber s) (m_loadAwareCostCalculator s) (m_mlFeedbackCallback s)
    (m_totalMeasurements s) (m_successfulMeasurements s) (m_costUpdates s)
    (adjLsaBuilds s) (routingTableCalculations s) (probesSent s) (feedbackSent s).
Definition with_outgoingLinks v (s : LinkCostManager) :=
  mkLCM (m_adjacencyList s) v (m_pendingMeasurements s) (m_scheduler s) (m_isActive s)
    (m_nextSequenceNumber s) (m_loadAwareCostCalculator s) (m_mlFeedbackCallback s)
    (m_totalMeasurements s) (m_successfulMeasurements s) (m_costUpdates s)
    (adjLsaBuilds s) (routingTableCalculations s) (probesSent s) (feedbackSent s).
Definition with_pendingMeasurements v (s : LinkCostManager) :=
  mkLCM (m_adjacencyList s) (m_outgoingLinks s) v (m_scheduler s) (m_isActive s)
    (m_nextSequenceNumber s) (m_loadAwareCostCalculator s) (m_mlFeedbackCallback s)
    (m_totalMeasurements s) (m_successfulMeasurements s) (m_costUpdates s)
    (adjLsaBuilds s) (routingTableCalculations s) (probesSent s) (feedbackSent s).
Definition with_scheduler v (s : LinkCostManager) :=
  mkLCM (m_adjacencyList s) (m_outgoingLinks s) (m_pendingMeasurements s) v (m_isActive s)
    (m_nextSequenceNumber s) (m_loadAwareCostCalculator s) (m_mlFeedbackCallback s)
    (m_totalMeasurements s) (m_successfulMeasurements s) (m_costUpdates s)
    (adjLsaBuilds s) (routingTableCalculations s) (probesSent s) (feedbackSent s).
Definition with_isActive v (s : LinkCostManager) :=
  mkLCM (m_adjacencyList s) (m_outgoingLinks s) (m_pendingMeasurements s) (m_scheduler s) v
    (m_nextSequenceNumber s) (m_loadAwareCostCalculator s) (m_mlFeedbackCallback s)
    (m_totalMeasurements s) (m_successfulMeasurements s) (m_costUpdates s)
    (adjLsaBuilds s) (routingTableCalculations s) (probesSent s) (feedbackSent s).
Definition with_nextSequenceNumber v (s : LinkCostManager) :=
  mkLCM (m_adjacencyList s) (m_outgoingLinks s) (m_pendingMeasurements s) (m_scheduler s)
    (m_isActive s) v (m_loadAwareCostCalculator s) (m_mlFeedbackCallback s)
    (m_totalMeasurements s) (m_successfulMeasurements s) (m_costUpdates s)
    (adjLsaBuilds s) (routingTableCalculations s) (probesSent s) (feedbackSent s).
Definition with_loadAwareCostCalculator v (s : LinkCostManager) :=
  mkLCM (m_adjacencyList s) (m_outgoingLinks s) (m_pendingMeasurements s) (m_scheduler s)
    (m_isActive s) (m_nextSequenceNumber s) v (m_mlFeedbackCallback s)
    (m_totalMeasurements s) (m_successfulMeasurements s) (m_costUpdates s)
    (adjLsaBuilds s) (routingTableCalculations s) (probesSent s) (feedbackSent s).
Definition with_mlFeedbackCallback v (s : LinkCostManager) :=
  mkLCM (m_adjacencyList s) (m_outgoingLinks s) (m_pendingMeasurements s) (m_scheduler s)
    (m_isActive s) (m_nextSequenceNumber s) (m_loadAwareCostCalculator s) v
    (m_totalMeasurements s) (m_successfulMeasurements s) (m_costUpdates s)
    (adjLsaBuilds s) (routingTableCalculations s) (probesSent s) (feedbackSent s).
Definition with_totalMeasurements v (s : LinkCostManager) :=
  mkLCM (m_adjacencyList s) (m_outgoingLinks s) (m_pendingMeasurements s) (m_scheduler s)
    (m_isActive s) (m_nextSequenceNumber s) (m_loadAwareCostCalculator s)
    (m_mlFeedbackCallback s) v (m_successfulMeasurements s) (m_costUpdates s)
    (adjLsaBuilds s) (routingTableCalculations s) (probesSent s) (feedbackSent s).
Definition with_successfulMeasurements v (s : LinkCostManager) :=
  mkLCM (m_adjacencyList s) (m_outgoingLinks s) (m_pendingMeasurements s) (m_scheduler s)
    (m_isActive s) (m_nextSequenceNumber s) (m_loadAwareCostCalculator s)
    (m_mlFeedbackCallback s) (m_totalMeasurements s) v (m_costUpdates s)
    (adjLsaBuilds s) (routingTableCalculations s) (probesSent s) (feedbackSent s).
Definition with_costUpdates v (s : LinkCostManager) :=
  mkLCM (m_adjacencyList s) (m_outgoingLinks s) (m_pendingMeasurements s) (m_scheduler s)
    (m_isActive s) (m_nextSequenceNumber s) (m_loadAwareCostCalculator s)
    (m_mlFeedbackCallback s) (m_totalMeasurements s) (m_successfulMeasurements s) v
    (adjLsaBuilds s) (routingTableCalculations s) (probesSent s) (feedbackSent s).
Definition with_adjLsaBuilds v (s : LinkCostManager) :=
  mkLCM (m_adjacencyList s) (m_outgoingLinks s) (m_pendingMeasurements s) (m_scheduler s)
    (m_isActive s) (m_nextSequenceNumber s) (m_loadAwareCostCalculator s)
    (m_mlFeedbackCallback s) (m_totalMeasurements s) (m_successfulMeasurements s)
    (m_costUpdates s) v (routingTableCalculations s) (probesSent s) (feedbackSent s).
Definition with_routingTableCalculations v (s : LinkCostManager) :=
  mkLCM (m_adjacencyList s) (m_outgoingLinks s) (m_pendingMeasurements s) (m_scheduler s)
    (m_isActive s) (m_nextSequenceNumber s) (m_loadAwareCostCalculator s)
    (m_mlFeedbackCallback s) (m_totalMeasurements s) (m_successfulMeasurements s)
    (m_costUpdates s) (adjLsaBuilds s) v (probesSent s) (feedbackSent s).
Definition with_probesSent v (s : LinkCostManager) :=
  mkLCM (m_adjacencyList s) (m_outgoingLinks s) (m_pendingMeasurements s) (m_scheduler s)
    (m_isActive s) (m_nextSequenceNumber s) (m_loadAwareCostCalculator s)
    (m_mlFeedbackCallback s) (m_totalMeasurements s) (m_successfulMeasurements s)
    (m_costUpdates s) (adjLsaBuilds s) (routingTableCalculations s) v (feedbackSent s).
Definition with_feedbackSent v (s : LinkCostManager) :=
  mkLCM (m_adjacencyList s) (m_outgoingLinks s) (m_pendingMeasurements s) (m_scheduler s)
    (m_isActive s) (m_nextSequenceNumber s) (m_loadAwareCostCalculator s)
    (m_mlFeedbackCallback s) (m_totalMeasurements s) (m_successfulMeasurements s)
    (m_costUpdates s) (adjLsaBuilds s) (routingTableCalculations s) (probesSent s) v.

(** Boot-time configuration: [ConfParameter] and the manager's constant
    members.  Their declarations are in headers that are not among the
    sources, so they are parameters of the model. *)
Record ConfParameter := mkConf {
  interestRetryNumber : Z;      (* [m_confParam.getInterestRetryNumber()] *)
  maxCostMultiplier : R;        (* [m_maxCostMultiplier] *)
  costChangeThreshold : R;      (* [m_costChangeThreshold] *)
  measurementInterval : Z;      (* [m_measurementInterval] *)
  measurementTimeout : Z;       (* [m_measurementTimeout] *)
  maxRttHistory : nat;          (* capacity of [rttHistory] *)
  minSamplesForMlFeedback : nat (* [MIN_SAMPLES_FOR_ML_FEEDBACK] *)
}.

(** What a handler reads from its environment: the steady clock and, per
    neighbor, the word [ndn::random::generateWord32] returns. *)
Record Env := mkEnv {
  now : Z;
  random : Name -> Z
}.

(** ** The manager's operations (link-cost-manager.cpp) *)

Section Manager.

Context (cfg : ConfParameter).

(** The constructor's member initialisers. *)
Definition newManager (adj : gmap Name Adjacent) : LinkCostManager :=
  mkLCM adj ∅ ∅ [] false 1 None false 0 0 0 [] [] [] [].

(** [LinkCostManager::initialize]: one fresh link state per adjacency, with
    an empty history and a default-constructed [lastLsaTriggerTime]. *)
Definition initialize (st : LinkCostManager) (env : Env) : LinkCostManager :=
  let fresh := map_imap (fun n a =>
      Some (mkLinkState n (adjStatus a) (originalLinkCost a) (linkCost a) []
                        (interestTimedOutNo a) (now env) 0))
      (m_adjacencyList st) in
  with_outgoingLinks (fresh ∪ m_outgoingLinks st) st.

(** [m_scheduler.schedule(delay, task)] *)
Definition schedule (delay : Z) (t : Task) (st : LinkCostManager) (env : Env) :=
  with_scheduler ((now env + delay, t) :: m_scheduler st) st.

(** [LinkCostManager::calculateSafeMeasurementTime] *)
Definition calculateSafeMeasurementTime (n : Name) (env : Env) : Z :=
  let randomOffset := milliseconds (wrap32 (random env n) mod 5000) in
  now env + measurementInterval cfg + randomOffset.

(** [LinkCostManager::scheduleRttMeasurement] *)
Definition scheduleRttMeasurement (st : LinkCostManager) (n : Name) (env : Env) :=
  if negb (m_isActive st) then st
  else
    let delay := calculateSafeMeasurementTime n env - now env in
    let delay := if decide (delay <= 0) then seconds 1 else delay in
    schedule delay (TaskRttMeasurement n) st env.

(** [LinkCostManager::start] *)
Definition start (st : LinkCostManager) (env : Env) : LinkCostManager :=
  if m_isActive st then st
  else schedule (seconds 30) TaskStartup (with_isActive true st) env.

(** The loop of [stop]: every neighbor of the store whose adjacency is found
    with a link cost different from the stored original cost gets that
    original cost written into the adjacency.  The iterations touch
    distinct adjacencies, so the loop is a map over the adjacency list. *)
Definition restoreOriginalCosts (links : gmap Name OutgoingLinkState)
    (adj : gmap Name Adjacent) : gmap Name Adjacent :=
  map_imap (fun n a =>
      Some (match links !! n with
            | Some l => if decide (linkCost a = originalCost l) then a
                        else setLinkCost (originalCost l) a
            | None => a
            end)) adj.

(** [LinkCostManager::stop] *)
Definition stop (st : LinkCostManager) (env : Env) : LinkCostManager :=
  if negb (m_isActive st) then st
  else
    let st := with_isActive false st in
    let st := with_scheduler [] st in                       (* cancelAllEvents *)
    let st := with_pendingMeasurements ∅ st in
    let st := with_adjacencyList
                (restoreOriginalCosts (m_outgoingLinks st) (m_adjacencyList st)) st in
    with_adjLsaBuilds ((now env, Shutdown) :: adjLsaBuilds st) st.

(** [LinkCostManager::onHelloInterestSent]: a trace line only. *)
Definition onHelloInterestSent (st : LinkCostManager) (n : Name) := st.

(** [LinkCostManager::onHelloDataReceived] *)
Definition onHelloDataReceived (st : LinkCostManager) (n : Name) (env : Env) :=
  match m_outgoingLinks st !! n with
  | None => st
  | Some l =>
    let l := set_lastSuccess (now env) (set_timeoutCount 0 (set_status STATUS_ACTIVE l)) in
    let st := with_outgoingLinks (<[n := l]> (m_outgoingLinks st)) st in
    if m_isActive st && isStable l && bool_decide (rttHistory l = [])
    then scheduleRttMeasurement st n env
    else st
  end.

(** [LinkCostManager::onHelloTimeout] *)
Definition onHelloTimeout (st : LinkCostManager) (n : Name) (timeouts : Z) :=
  match m_outgoingLinks st !! n with
  | None => st
  | Some l =>
    let l := set_timeoutCount timeouts l in
    let l := if decide (interestRetryNumber cfg <= timeouts)
             then set_rttHistory [] (set_status STATUS_INACTIVE l)
             else l in
    with_outgoingLinks (<[n := l]> (m_outgoingLinks st)) st
  end.

(** The erase loop of [onNeighborStatusChanged] over the pending map. *)
Definition cancelPending (n : Name) (p : gmap Z (Name * Z)) : gmap Z (Name * Z) :=
  filter (fun kv => fst (snd kv) <> n) p.

(** [LinkCostManager::onNeighborStatusChanged] *)
Definition onNeighborStatusChanged (st : LinkCostManager) (n : Name)
    (newStatus : Status) (env : Env) : LinkCostManager :=
  match m_outgoingLinks st !! n with
  | None => st
  | Some l =>
    let oldStatus := status l in
    let l := set_status newStatus l in
    if decide (newStatus = STATUS_INACTIVE) then
      let l := set_timeoutCount (interestRetryNumber cfg) (set_rttHistory [] l) in
      with_pendingMeasurements (cancelPending n (m_pendingMeasurements st))
        (with_outgoingLinks (<[n := l]> (m_outgoingLinks st)) st)
    else if decide (newStatus = STATUS_ACTIVE /\ oldStatus <> STATUS_ACTIVE) then
      let '(adj, l) :=
        match m_adjacencyList st !! n with
        | Some a => (<[n := setLinkCost (originalLinkCost a) a]> (m_adjacencyList st),
                     set_currentCost (originalLinkCost a) l)
        | None => (m_adjacencyList st, l)
        end in
      let l := set_lastSuccess (now env) (set_timeoutCount 0 l) in
      let st := with_adjacencyList adj
                  (with_outgoingLinks (<[n := l]> (m_outgoingLinks st)) st) in
      if m_isActive st then scheduleRttMeasurement st n env else st
    else with_outgoingLinks (<[n := l]> (m_outgoingLinks st)) st
  end.

(** [LinkCostManager::canMeasureNow] *)
Definition canMeasureNow (st : LinkCostManager) (n : Name) : bool :=
  match m_outgoingLinks st !! n with
  | None => false
  | Some l => m_isActive st && isStable l
  end.

(** [LinkCostManager::performRttMeasurement]: the probe carries the next
    32-bit sequence number and is remembered under it. *)
Definition performRttMeasurement (st : LinkCostManager) (n : Name) (env : Env) :=
  let seq := m_nextSequenceNumber st in
  let st := with_nextSequenceNumber (wrap32 (seq + 1)) st in
  let st := with_pendingMeasurements (<[seq := (n, now env)]> (m_pendingMeasurements st)) st in
  let st := with_probesSent ((seq, n) :: probesSent st) st in
  with_totalMeasurements (wrap64 (m_totalMeasurements st + 1)) st.

(** [LinkCostManager::getLinkMetrics] *)
Definition getLinkMetrics (st : LinkCostManager) (n : Name) : option LinkMetrics :=
  match m_outgoingLinks st !! n with
  | None => None
  | Some l =>
    Some (mkLinkMetrics n (originalCost l) (currentCost l) (timeoutCount l)
            (lastSuccess l) (status l) (rtt <$> rttHistory l)
            (match rttHistory l with [] => None | _ => Some (getAverageRtt l) end))
  end.

(** The value [calculateNewCost] returns for a neighbor that does not take
    part in the cost calculation. *)
Definition NOT_PARTICIPATING : R := (-1)%R.

(** [LinkCostManager::calculateNewCost] *)
Definition calculateNewCost (st : LinkCostManager) (n : Name) : R :=
  match m_outgoingLinks st !! n with
  | None => NOT_PARTICIPATING
  | Some l =>
    if decide (status l = STATUS_INACTIVE) then NOT_PARTICIPATING
    else match rttHistory l with
    | [] => originalCost l
    | _ =>
      let avgRttMs := toMilliseconds (getAverageRtt l) in
      let rttFactor := ln (1 + IZR avgRttMs / 100) in
      let newCost := (originalCost l * (1 + rttFactor))%R in
      round (Rmin newCost (originalCost l * maxCostMultiplier cfg))
    end
  end.

(** [LinkCostManager::shouldUpdateCost] *)
Definition shouldUpdateCost (st : LinkCostManager) (n : Name) (newCost : R) : bool :=
  match m_outgoingLinks st !! n with
  | None => false
  | Some l =>
    ratio_ge (Rabs (newCost - currentCost l)) (currentCost l) (costChangeThreshold cfg)
  end.

(** [MIN_LSA_INTERVAL] of [updateNeighborCost] *)
Definition MIN_LSA_INTERVAL : Z := seconds 10.

(** The first part of [updateNeighborCost]: the cost after the optional
    delegation to the registered calculator.  The [catch] branch handles a
    [std::exception] only; anything else the calculator throws is not
    caught, and there is no final cost ([None]). *)
Definition delegatedCost (st : LinkCostManager) (n : Name) (rttBasedCost : R)
    : option R :=
  match m_loadAwareCostCalculator st with
  | None => Some rttBasedCost
  | Some calculator =>
    match getLinkMetrics st n with
    | None => Some rttBasedCost
    | Some metrics =>
      match calculator n rttBasedCost metrics with
      | Returned c => Some c
      | Threw => Some rttBasedCost
      | ThrewOther => None
      end
    end
  end.

(** [LinkCostManager::updateNeighborCost]: the manager as the call leaves
    it, whether it returns or is left by an exception the calculator threw
    past the [catch]; nothing has been written when that happens. *)
Definition updateNeighborCost (st : LinkCostManager) (n : Name) (rttBasedCost : R)
    (env : Env) : LinkCostManager :=
  match m_adjacencyList st !! n with
  | None => st
  | Some adjacent =>
  match m_outgoingLinks st !! n with
  | None => st
  | Some l =>
    if decide (status l = STATUS_INACTIVE) then st
    else
      match delegatedCost st n rttBasedCost with
      | None => st
      | Some finalCost =>
      let oldCost := linkCost adjacent in
      if ratio_lt (Rabs (finalCost - oldCost)) oldCost (5 / 100) then st
      else
        let adj' := <[n := setLinkCost finalCost adjacent]> (m_adjacencyList st) in
        if decide (now env - lastLsaTriggerTime l < MIN_LSA_INTERVAL) then
          with_adjacencyList adj'
            (with_outgoingLinks (<[n := set_currentCost finalCost l]> (m_outgoingLinks st)) st)
        else
          let l' := set_lastLsaTriggerTime (now env) (set_currentCost finalCost l) in
          let st := with_adjacencyList adj'
                      (with_outgoingLinks (<[n := l']> (m_outgoingLinks st)) st) in
          let st :=
            if decide (timeoutCount l' = 0) then
              with_routingTableCalculations (now env :: routingTableCalculations st)
                (with_adjLsaBuilds ((now env, CostUpdate n) :: adjLsaBuilds st) st)
            else st in
          with_costUpdates (wrap64 (m_costUpdates st + 1)) st
      end
  end
  end.

(** Whether a call of [updateNeighborCost] is left by an exception instead
    of returning: the calculator is reached (the neighbor is known to the
    adjacency list and the store and is not INACTIVE) and throws something
    the [catch] does not handle.  What the caller of the handler does with
    the exception is outside the sources; a run goes on from the manager
    as the call left it. *)
Definition updateNeighborCostThrows (st : LinkCostManager) (n : Name)
    (rttBasedCost : R) : bool :=
  match m_adjacencyList st !! n, m_outgoingLinks st !! n with
  | Some _, Some l =>
    if decide (status l = STATUS_INACTIVE) then false
    else match delegatedCost st n rttBasedCost with
         | None => true
         | Some _ => false
         end
  | _, _ => false
  end.

(** [LinkCostManager::handleRttResponse].  [n], [seq] and [sendTime] are the
    values captured by the closure [performRttMeasurement] registered. *)
Definition handleRttResponse (st : LinkCostManager) (n : Name) (seq sendTime : Z)
    (env : Env) : LinkCostManager :=
  match m_pendingMeasurements st !! seq with
  | None => st
  | Some _ =>
    let rtt := now env - sendTime in
    let st := with_pendingMeasurements (delete seq (m_pendingMeasurements st)) st in
    let st := with_successfulMeasurements (wrap64 (m_successfulMeasurements st + 1)) st in
    let rttMs := toMilliseconds rtt in
    (* [rttMs < 1]: the local [rttMs] becomes 1; it is only logged below *)
    if negb (bool_decide (rttMs < 1)) && bool_decide (5000 < rttMs) then st
    else
      match m_outgoingLinks st !! n with
      | None => st
      | Some l =>
        if isStable l then
          let l := addRttMeasurement (maxRttHistory cfg) rtt (now env) l in
          let st := with_outgoingLinks (<[n := l]> (m_outgoingLinks st)) st in
          let st :=
            if m_mlFeedbackCallback st
               && bool_decide (minSamplesForMlFeedback cfg <= length (rttHistory l))%nat
            then with_feedbackSent ((n, rtt) :: feedbackSent st) st
            else st in
          if bool_decide (3 <= length (rttHistory l))%nat then
            let newCost := calculateNewCost st n in
            if shouldUpdateCost st n newCost then updateNeighborCost st n newCost env
            else st
          else st
        else st
      end
  end.

(** [LinkCostManager::handleRttTimeout] *)
Definition handleRttTimeout (st : LinkCostManager) (n : Name) (seq : Z) :=
  match m_pendingMeasurements st !! seq with
  | None => st
  | Some _ => with_pendingMeasurements (delete seq (m_pendingMeasurements st)) st
  end.

(** [LinkCostManager::generateStatusReport] *)
Definition generateStatusReport (st : LinkCostManager) (env : Env) :=
  if negb (m_isActive st) then st
  else schedule (minutes 10) TaskStatusReport st env.

(** The body of the warm-up lambda of [start]. *)
Definition startupSweep (st : LinkCostManager) (env : Env) : LinkCostManager :=
  let st := foldr (fun '(n, l) s => if isStable l then scheduleRttMeasurement s n env else s)
                  st (map_to_list (m_outgoingLinks st)) in
  schedule (minutes 10) TaskStatusReport st env.

(** What the scheduler runs when [t] fires. *)
Definition runTask (st : LinkCostManager) (t : Task) (env : Env) : LinkCostManager :=
  match t with
  | TaskStartup => startupSweep st env
  | TaskStatusReport => generateStatusReport st env
  | TaskRttMeasurement n =>
    let st := if canMeasureNow st n then performRttMeasurement st n env else st in
    scheduleRttMeasurement st n env
  end.

Fixpoint removeFirst (e : Z * Task) (l : list (Z * Task)) : list (Z * Task) :=
  match l with
  | [] => []
  | x :: l' => if decide (x = e) then l' else x :: removeFirst e l'
  end.

(** A scheduled event that is due fires once and leaves the scheduler. *)
Definition fireTimer (st : LinkCostManager) (due : Z) (t : Task) (env : Env) :=
  if bool_decide ((due, t) ∈ m_scheduler st) && bool_decide (due <= now env)
  then runTask (with_scheduler (removeFirst (due, t) (m_scheduler st)) st) t env
  else st.

(** [setLoadAwareCostCalculator], [clearLoadAwareCostCalculator],
    [setMLFeedbackCallback], [clearMLFeedbackCallback] *)
Definition setLoadAwareCostCalculator (st : LinkCostManager) (c : Calculator) :=
  with_loadAwareCostCalculator (Some c) st.
Definition clearLoadAwareCostCalculator (st : LinkCostManager) :=
  with_loadAwareCostCalculator None st.
Definition setMLFeedbackCallback (st : LinkCostManager) :=
  with_mlFeedbackCallback true st.
Definition clearMLFeedbackCallback (st : LinkCostManager) :=
  with_mlFeedbackCallback false st.

(** *** Runs of the manager

    The events of the host event loop that reach the manager.  Every event
    carries the environment its handler observes. *)
Inductive Event :=
| EvStart
| EvStop
| EvHelloInterestSent (n : Name)
| EvHelloDataReceived (n : Name)
| EvHelloTimeout (n : Name) (timeouts : Z)
| EvNeighborStatusChanged (n : Name) (s : Status)
| EvTimer (due : Z) (t : Task)
| EvRttResponse (n : Name) (seq sendTime : Z)
| EvRttTimeout (n : Name) (seq : Z)
| EvSetLoadAwareCostCalculator (c : Calculator)
| EvClearLoadAwareCostCalculator
| EvSetMLFeedbackCallback
| EvClearMLFeedbackCallback.

Definition step (st : LinkCostManager) (ev : Event * Env) : LinkCostManager :=
  let env := snd ev in
  match fst ev with
  | EvStart => start st env
  | EvStop => stop st env
  | EvHelloInterestSent n => onHelloInterestSent st n
  | EvHelloDataReceived n => onHelloDataReceived st n env
  | EvHelloTimeout n k => onHelloTimeout st n k
  | EvNeighborStatusChanged n s => onNeighborStatusChanged st n s env
  | EvTimer due t => fireTimer st due t env
  | EvRttResponse n seq sendTime => handleRttResponse st n seq sendTime env
  | EvRttTimeout n seq => handleRttTimeout st n seq
  | EvSetLoadAwareCostCalculator c => setLoadAwareCostCalculator st c
  | EvClearLoadAwareCostCalculator => clearLoadAwareCostCalculator st
  | EvSetMLFeedbackCallback => setMLFeedbackCallback st
  | EvClearMLFeedbackCallback => clearMLFeedbackCallback st
  end.

(** The state after the events of [evs], oldest first. *)
Definition run (st : LinkCostManager) (evs : list (Event * Env)) : LinkCostManager :=
  fold_left step evs st.

(** The manager after construction and the one-shot [initialize]. *)
Definition initialManager (adj : gmap Name Adjacent) (env : Env) : LinkCostManager :=
  initialize (newManager adj) env.

End Manager.

(** ** The online-learning calculator (ml-adaptive-calculator.cpp) *)

#[local] Open Scope R_scope.

Definition sumR (l : list R) : R := fold_left Rplus l 0.

(** [MLAdaptiveCalculator::LinearRegressionModel] *)
Module LinearRegressionModel.

Record t := mk {
  m_weights : list R;
  m_bias : R;
  m_updateCount : Z
}.

(** The constructor: every weight 0.2, then the hand-chosen prior. *)
Definition new (featureCount : nat) : t :=
  let w := replicate featureCount (2 / 10) in
  let w := if decide (4 <= featureCount)%nat
           then <[3%nat := 1 / 10]> (<[2%nat := 2 / 10]> (<[1%nat := 3 / 10]> (<[0%nat := 4 / 10]> w)))
           else w in
  let w := if decide (5 <= featureCount)%nat then <[4%nat := 15 / 100]> w else w in
  mk w 0 0.

(** The accumulation loop of [predict] before the activation. *)
Definition linear (m : t) (features : list R) : R :=
  fold_left (fun acc wx => acc + fst wx * snd wx) (zip (m_weights m) features) (m_bias m).

Definition predict (m : t) (features : list R) : R :=
  1 / (1 + exp (- linear m features)).

Definition updateOnline (m : t) (features : list R) (target learningRate : R) : t :=
  if decide (length features = length (m_weights m)) then
    let prediction := predict m features in
    let error := target - prediction in
    mk (zip_with (fun w x => w + learningRate * error * x) (m_weights m) features)
       (m_bias m + learningRate * error)
       (wrap64 (m_updateCount m + 1))
  else m.

End LinearRegressionModel.

(** [MLAdaptiveCalculator::TemporalPatternLearner] *)
Module TemporalPatternLearner.

Record TimeSlot := mkTimeSlot {
  hour : Z;
  minute : Z;
  averagePerformance : R;
  sampleCount : Z;
  lastUpdate : Z
}.

(** The local wall-clock time and the steady clock a call observes. *)
Record Clock := mkClock {
  tm_hour : Z;
  tm_min : Z;
  steady_now : Z
}.

Definition getTimeSlotKey (hour minute : Z) : Z := (hour * 60 + minute)%Z.

Definition currentSlot (c : Clock) : Z :=
  getTimeSlotKey (tm_hour c) (Z.quot (tm_min c) 10 * 10).

Definition updatePattern (p : gmap Name (gmap Z TimeSlot)) (n : Name)
    (performance : R) (c : Clock) : gmap Name (gmap Z TimeSlot) :=
  let slots := default ∅ (p !! n) in
  (* [operator[]] value-initialises a missing slot *)
  let slot := default (mkTimeSlot 0 0 0 0 0) (slots !! currentSlot c) in
  let slot :=
    if decide (sampleCount slot = 0%Z) then
      mkTimeSlot (tm_hour c) (Z.quot (tm_min c) 10 * 10) performance 1 (steady_now c)
    else
      let alpha := 1 / 10 in
      mkTimeSlot (hour slot) (minute slot)
        (alpha * performance + (1 - alpha) * averagePerformance slot)
        (sampleCount slot + 1) (steady_now c) in
  <[n := <[currentSlot c := slot]> slots]> p.

Definition getTimeFeature (p : gmap Name (gmap Z TimeSlot)) (n : Name) (c : Clock) : R :=
  match p !! n with
  | Some slots =>
    match slots !! currentSlot c with
    | Some slot => averagePerformance slot
    | None => 5 / 10
    end
  | None => 5 / 10
  end.

End TemporalPatternLearner.

Import TemporalPatternLearner.

(** [MLAdaptiveCalculator::Statistics] *)
Record Statistics := mkStatistics {
  predictionCount : Z;
  modelUpdateCount : Z;
  patternDetectionCount : Z;
  averagePredictionError : R
}.

Record PerformanceRecord := mkPerformanceRecord {
  predictedScore : R;
  actualPerformance : R;
  recordTimestamp : Z
}.

Record MLAdaptiveCalculator := mkML {
  m_model : LinearRegressionModel.t;
  m_patternLearner : gmap Name (gmap Z TimeSlot);
  m_learningRate : R;
  m_adaptationThreshold : R;
  m_performanceHistory : gmap Name (list PerformanceRecord);
  m_rttHistory : gmap Name (list R);
  m_statistics : Statistics;
  m_isModelReady : bool;
  m_lastModelUpdate : Z
}.

Definition FEATURE_COUNT : nat := 5.
Definition FIXED_WEIGHTS : list R := [4 / 10; 3 / 10; 2 / 10; 1 / 10].
Definition MAX_PERFORMANCE_HISTORY : nat := 100.
Definition MAX_RTT_HISTORY : nat := 20.
Definition MIN_UPDATE_INTERVAL : Z := seconds 30.

(** The constructor of [MLAdaptiveCalculator]. *)
Definition newCalculator (c : Clock) : MLAdaptiveCalculator :=
  mkML (LinearRegressionModel.new FEATURE_COUNT) ∅ (1 / 100) (2 / 10) ∅ ∅
       (mkStatistics 0 0 0 0) false (steady_now c).

Definition with_model v (ml : MLAdaptiveCalculator) :=
  mkML v (m_patternLearner ml) (m_learningRate ml) (m_adaptationThreshold ml)
       (m_performanceHistory ml) (m_rttHistory ml) (m_statistics ml)
       (m_isModelReady ml) (m_lastModelUpdate ml).
Definition with_patternLearner v (ml : MLAdaptiveCalculator) :=
  mkML (m_model ml) v (m_learningRate ml) (m_adaptationThreshold ml)
       (m_performanceHistory ml) (m_rttHistory ml) (m_statistics ml)
       (m_isModelReady ml) (m_lastModelUpdate ml).
Definition with_learningRate v (ml : MLAdaptiveCalculator) :=
  mkML (m_model ml) (m_patternLearner ml) v (m_adaptationThreshold ml)
       (m_performanceHistory ml) (m_rttHistory ml) (m_statistics ml)
       (m_isModelReady ml) (m_lastModelUpdate ml).
Definition with_performanceHistory v (ml : MLAdaptiveCalculator) :=
  mkML (m_model ml) (m_patternLearner ml) (m_learningRate ml) (m_adaptationThreshold ml)
       v (m_rttHistory ml) (m_statistics ml) (m_isModelReady ml) (m_lastModelUpdate ml).
Definition with_rttHistory v (ml : MLAdaptiveCalculator) :=
  mkML (m_model ml) (m_patternLearner ml) (m_learningRate ml) (m_adaptationThreshold ml)
       (m_performanceHistory ml) v (m_statistics ml) (m_isModelReady ml)
       (m_lastModelUpdate ml).
Definition with_statistics v (ml : MLAdaptiveCalculator) :=
  mkML (m_model ml) (m_patternLearner ml) (m_learningRate ml) (m_adaptationThreshold ml)
       (m_performanceHistory ml) (m_rttHistory ml) v (m_isModelReady ml)
       (m_lastModelUpdate ml).
Definition with_isModelReady v (ml : MLAdaptiveCalculator) :=
  mkML (m_model ml) (m_patternLearner ml) (m_learningRate ml) (m_adaptationThreshold ml)
       (m_performanceHistory ml) (m_rttHistory ml) (m_statistics ml) v
       (m_lastModelUpdate ml).
Definition with_lastModelUpdate v (ml : MLAdaptiveCalculator) :=
  mkML (m_model ml) (m_patternLearner ml) (m_learningRate ml) (m_adaptationThreshold ml)
       (m_performanceHistory ml) (m_rttHistory ml) (m_statistics ml)
       (m_isModelReady ml) v.

Definition with_predictionCount v (s : Statistics) :=
  mkStatistics v (modelUpdateCount s) (patternDetectionCount s) (averagePredictionError s).
Definition with_modelUpdateCount v (s : Statistics) :=
  mkStatistics (predictionCount s) v (patternDetectionCount s) (averagePredictionError s).
Definition with_averagePredictionError v (s : Statistics) :=
  mkStatistics (predictionCount s) (modelUpdateCount s) (patternDetectionCount s) v.

(** [MLAdaptiveCalculator::calculatePath]: counts the call, then runs the
    link-state path calculation of the host. *)
Definition calculatePath (ml : MLAdaptiveCalculator) : MLAdaptiveCalculator :=
  let s := m_statistics ml in
  with_statistics (with_predictionCount (wrap64 (predictionCount s + 1)) s) ml.

(** *** Features *)

Definition calculateRttTrend (ml : MLAdaptiveCalculator) (n : Name) : R :=
  match m_rttHistory ml !! n with
  | None => 0
  | Some h =>
    if decide (length h < 10)%nat then 0
    else
      let size := length h in
      let recentAvg := sumR (drop (size - 5) h) / 5 in
      let oldAvg := sumR (take 5 (drop (size - 10) h)) / 5 in
      if decide (0 < oldAvg) then Rmax (-1) (Rmin (recentAvg / oldAvg - 1) 1)
      else 0
  end.

Definition calculateRttVariationCoefficient (ml : MLAdaptiveCalculator) (n : Name) : R :=
  match m_rttHistory ml !! n with
  | None => 0
  | Some h =>
    if decide (length h < 3)%nat then 0
    else
      let mean := sumR h / INR (length h) in
      if decide (mean <= 0) then 1
      else
        let variance := fold_left (fun acc x => acc + (x - mean) * (x - mean)) h 0 in
        let stddev := sqrt (variance / INR (length h)) in
        Rmin (stddev / mean) 1
  end.

Definition calculateSuccessRate (ml : MLAdaptiveCalculator) (n : Name) : R :=
  match m_rttHistory ml !! n with
  | None => 5 / 10
  | Some [] => 5 / 10
  | Some h =>
    let successCount := length (filter (fun x => x < 500) h) in
    INR successCount / INR (length h)
  end.

Definition calculateLoadIndicator (ml : MLAdaptiveCalculator) (n : Name) : R :=
  match m_rttHistory ml !! n with
  | None => 0
  | Some h =>
    if decide (length h < 5)%nat then 0
    else
      let size := length h in
      let recent := nth (size - 1) h 0 in
      let middle := nth (size - 2) h 0 in
      let old := nth (size - 3) h 0 in
      let acceleration := (recent - middle) - (middle - old) in
      Rmax (-1) (Rmin (acceleration / 100) 1)
  end.

Definition extractCoreFeatures (ml : MLAdaptiveCalculator) (n : Name) (c : Clock) : list R :=
  [ calculateRttTrend ml n;
    calculateRttVariationCoefficient ml n;
    calculateSuccessRate ml n;
    calculateLoadIndicator ml n;
    getTimeFeature (m_patternLearner ml) n c ].

(** *** Prediction *)

Definition predictWithFixedWeights (features : list R) : R :=
  let score := fold_left (fun acc wx => acc + fst wx * snd wx) (zip FIXED_WEIGHTS features) 0 in
  Rmax 0 (Rmin score 1).

(** The prediction [predictLinkQuality] multiplies into the cost. *)
Definition mlPrediction (ml : MLAdaptiveCalculator) (features : list R) : R :=
  if m_isModelReady ml then LinearRegressionModel.predict (m_model ml) features
  else predictWithFixedWeights features.

(** [push_back], then [pop_front] once the deque is over its bound. *)
Definition pushBounded {A} (cap : nat) (x : A) (h : list A) : list A :=
  let h := h ++ [x] in
  if decide (cap < length h)%nat then drop 1 h else h.

(** [MLAdaptiveCalculator::predictLinkQuality]: the cost, and the calculator
    with the snapshot's average RTT appended to its own history. *)
Definition predictLinkQuality (ml : MLAdaptiveCalculator) (n : Name)
    (metrics : LinkMetrics) (c : Clock) : R * MLAdaptiveCalculator :=
  let features := extractCoreFeatures ml n c in
  let finalCost := lm_originalCost metrics * (1 + mlPrediction ml features) in
  let ml :=
    match lm_currentRtt metrics with
    | Some d =>
      let rttMs := IZR (toMilliseconds d) in
      let history := default [] (m_rttHistory ml !! n) in
      with_rttHistory (<[n := pushBounded MAX_RTT_HISTORY rttMs history]> (m_rttHistory ml)) ml
    | None => ml
    end in
  (finalCost, ml).

(** The lambda the constructor registers with the manager: the RTT-based
    cost it is handed is not passed on.  [predictLinkQuality] and the
    functions it calls contain no [throw], so the call returns. *)
Definition registeredCalculator (ml : MLAdaptiveCalculator) (c : Clock) : Calculator :=
  fun n rttBasedCost metrics => Returned (fst (predictLinkQuality ml n metrics c)).

(** *** Online learning *)

Definition shouldTriggerModelUpdate (ml : MLAdaptiveCalculator) (predictionError : R)
    (c : Clock) : bool :=
  if decide (m_adaptationThreshold ml < predictionError) then true
  else bool_decide (MIN_UPDATE_INTERVAL < steady_now c - m_lastModelUpdate ml)%Z.

Definition adaptLearningRate (ml : MLAdaptiveCalculator) : MLAdaptiveCalculator :=
  let avgError := averagePredictionError (m_statistics ml) in
  if decide (3 / 10 < avgError)
  then with_learningRate (Rmin (5 / 100) (m_learningRate ml * (11 / 10))) ml
  else if decide (avgError < 1 / 10)
  then with_learningRate (Rmax (1 / 1000) (m_learningRate ml * (9 / 10))) ml
  else ml.

(** The running average [updateModelWithFeedback] keeps of the absolute
    prediction error. *)
Definition trackError (s : Statistics) (error : R) : R :=
  if decide (0 < predictionCount s)%Z
  then (averagePredictionError s * IZR (predictionCount s - 1) + error)
       / IZR (predictionCount s)
  else error.

Definition updateModelWithFeedback (ml : MLAdaptiveCalculator) (n : Name)
    (features : list R) (actual : R) (c : Clock) : MLAdaptiveCalculator :=
  if decide (length features = FEATURE_COUNT) then
    let prediction := LinearRegressionModel.predict (m_model ml) features in
    let error := Rabs (actual - prediction) in
    let ml := with_statistics
                (with_averagePredictionError (trackError (m_statistics ml) error)
                                             (m_statistics ml)) ml in
    if shouldTriggerModelUpdate ml error c then
      let ml := adaptLearningRate ml in
      let ml := with_model (LinearRegressionModel.updateOnline (m_model ml) features actual
                                                               (m_learningRate ml)) ml in
      let s := m_statistics ml in
      let ml := with_statistics (with_modelUpdateCount (wrap64 (modelUpdateCount s + 1)) s) ml in
      let ml := with_lastModelUpdate (steady_now c) ml in
      with_isModelReady true ml
    else ml
  else ml.

(** [MLAdaptiveCalculator::reportPathPerformance] *)
Definition reportPathPerformance (ml : MLAdaptiveCalculator) (n : Name) (actual : R)
    (c : Clock) : MLAdaptiveCalculator :=
  let features := extractCoreFeatures ml n c in
  let ml := with_patternLearner (updatePattern (m_patternLearner ml) n actual c) ml in
  let ml := updateModelWithFeedback ml n features actual c in
  let record := mkPerformanceRecord (LinearRegressionModel.predict (m_model ml) features)
                                    actual (steady_now c) in
  let history := default [] (m_performanceHistory ml !! n) in
  with_performanceHistory
    (<[n := pushBounded MAX_PERFORMANCE_HISTORY record history]> (m_performanceHistory ml)) ml.

(** ** The multi-dimensional cost preview *)

(** Modelled from the spec: the externally configured metrics of a link
    ([ExternalMetrics] of link-cost-manager.hpp, which is not among the
    sources); every metric may be absent. *)
Record ExternalMetrics := mkExternalMetrics {
  bandwidthMbps : option R;
  bandwidthUtilization : option R;
  packetLoss : option R;
  spectrumStrength : option R
}.

(** Modelled from the spec: the weights [MultiDimensionalCostConfig] of
    link-cost-manager.hpp, with their defaults. *)
Record MultiDimensionalCostConfig := mkCostConfig {
  rttWeight : R;
  bandwidthWeight : R;
  reliabilityWeight : R;
  spectrumWeight : R
}.

Definition defaultCostConfig : MultiDimensionalCostConfig :=
  mkCostConfig (4 / 10) (3 / 10) (2 / 10) (1 / 10).

(** Modelled from the spec: the four factors of
    [LinkCostManager::calculateMultiDimensionalCostPreview], whose body is
    not among the sources; the argument is the measured or configured
    value, [None] when there is none. *)
Definition rttFactor (avgRttMs : option R) : R :=
  match avgRttMs with
  | None => 1 + 20 / 200
  | Some a => if decide (a <= 0) then 1 else if decide (200 <= a) then 2 else 1 + a / 200
  end.

Definition bwFactor (util : option R) : R :=
  match util with
  | None => 1 + 3 / 10
  | Some u => if decide (u <= 0) then 1 else if decide (1 <= u) then 2 else 1 + u
  end.

Definition reliabilityFactor (loss : option R) : R :=
  match loss with
  | None => 1 + 1 / 100 * 2
  | Some p => if decide (p <= 0) then 1 else if decide (5 / 10 <= p) then 2 else 1 + p * 2
  end.

Definition spectrumFactor (strength : option R) : R :=
  match strength with
  | None => 1 + (-30 - -50) / 50
  | Some s => if decide (-30 <= s) then 1 else if decide (s <= -80) then 2
              else 1 + (-30 - s) / 50
  end.

Definition compositeFactor (w : MultiDimensionalCostConfig) (l : OutgoingLinkState)
    (ext : option ExternalMetrics) : R :=
  let avgRttMs := match rttHistory l with
                  | [] => None
                  | _ => Some (IZR (toMilliseconds (getAverageRtt l)))
                  end in
  rttWeight w * rttFactor avgRttMs
  + bandwidthWeight w * bwFactor (ext ≫= bandwidthUtilization)
  + reliabilityWeight w * reliabilityFactor (ext ≫= packetLoss)
  + spectrumWeight w * spectrumFactor (ext ≫= spectrumStrength).

(** Modelled from the spec: [calculateMultiDimensionalCostPreview], the
    preview cost of a neighbor of the store; [None] is the [NotFound]
    failure for an unknown neighbor. *)
Definition calculateMultiDimensionalCostPreview (w : MultiDimensionalCostConfig)
    (st : LinkCostManager) (externalMetrics : gmap Name ExternalMetrics)
    (n : Name) : option R :=
  match m_outgoingLinks st !! n with
  | None => None
  | Some l => Some (round (originalCost l * compositeFactor w l (externalMetrics !! n)))
  end.

(** ** The RTT-based cost as the specification words it *)

(** The mean of the RTT history in milliseconds, as a real number. *)
Definition meanRttMs (h : list RttMeasurement) : R :=
  IZR (sumRtt h) / 1000000 / IZR (Z.of_nat (length h)).

(** [round(min(original × (1 + ln(1 + avg_ms / 100)), original × multiplier))]
    with [avg_ms] the mean of the history. *)
Definition rttCostOfMean (cfg : ConfParameter) (l : OutgoingLinkState) : R :=
  round (Rmin (originalCost l * (1 + ln (1 + meanRttMs (rttHistory l) / 100)))
              (originalCost l * maxCostMultiplier cfg)).

(** ** Concrete configurations and states used as test inputs *)

(** Retry limit 3, multiplier 5, change threshold 0.05, probes every 5 s
    with a 2 s timeout, ten samples kept, feedback from three samples on. *)
Definition exampleConf : ConfParameter :=
  mkConf 3 5 (5 / 100) (seconds 5) (seconds 2) 10 3.

Definition neighborA : Name := ["ndn"; "A"]%string.

(** An ACTIVE, stable link to [neighborA]. *)
Definition activeLink (original current : R) (h : list RttMeasurement) : OutgoingLinkState :=
  mkLinkState neighborA STATUS_ACTIVE original current h 0 0 0.

(** A manager that knows [neighborA] only, with the adjacency carrying the
    link's current cost. *)
Definition managerWith (l : OutgoingLinkState) : LinkCostManager :=
  with_outgoingLinks {[ neighborA := l ]}
    (newManager {[ neighborA := mkAdjacent (status l) (currentCost l) (originalCost l)
                                           (timeoutCount l) ]}).

Definition sample (ms : Z) : RttMeasurement := mkRttMeasurement (milliseconds ms) 0.

(** A link of original cost 1000 whose two samples, 1 ms and 2 ms, have the
    mean 1.5 ms. *)
Definition linkMean15 : OutgoingLinkState := activeLink 1000 1000 [sample 1; sample 2].

(** A link of original cost 10 with three samples of 400 ms. *)
Definition link400 : OutgoingLinkState :=
  activeLink 10 10 [sample 400; sample 400; sample 400].

(** The metrics of scenario S4: utilization 0.65, packet loss 0.02,
    spectrum -45 dBm on a 100 Mbps link. *)
Definition metricsS4 : ExternalMetrics :=
  mkExternalMetrics (Some 100) (Some (65 / 100)) (Some (2 / 100)) (Some (-45)).

(** A link of original cost 12 without RTT samples. *)
Definition link12 : OutgoingLinkState := activeLink 12 12 [].

(** ** Calls into the calculator *)

Inductive MLCall :=
| CallCalculatePath
| CallPredictLinkQuality (n : Name) (metrics : LinkMetrics) (c : Clock)
| CallReportPathPerformance (n : Name) (actual : R) (c : Clock).

Definition mlStep (ml : MLAdaptiveCalculator) (call : MLCall) : MLAdaptiveCalculator :=
  match call with
  | CallCalculatePath => calculatePath ml
  | CallPredictLinkQuality n metrics c => snd (predictLinkQuality ml n metrics c)
  | CallReportPathPerformance n actual c => reportPathPerformance ml n actual c
  end.

Definition mlRun (ml : MLAdaptiveCalculator) (calls : list MLCall) : MLAdaptiveCalculator :=
  fold_left mlStep calls ml.

Definition isFeedback (call : MLCall) : bool :=
  match call with CallReportPathPerformance _ _ _ => true | _ => false end.

(** A snapshot of a link of original cost 10 whose samples are all below
    one millisecond. *)
Definition metrics10 : LinkMetrics :=
  mkLinkMetrics neighborA 10 10 0 0 STATUS_ACTIVE [0; 0; 0]%Z (Some 0%Z).

Definition midnight : Clock := mkClock 0 0 0.

(** A calculator that has seen three sub-millisecond averages for
    [neighborA]: the mean of its history is zero, the case the variation
    coefficient treats as anomalous. *)
Definition calculatorZeroMean : MLAdaptiveCalculator :=
  with_rttHistory {[ neighborA := [0; 0; 0] ]} (newCalculator midnight).

(** A calculator that throws a [std::exception] on every call. *)
Definition throwingCalculator : Calculator := fun _ _ _ => Threw.

(** A calculator that throws an object that is not a [std::exception]. *)
Definition foreignThrowingCalculator : Calculator := fun _ _ _ => ThrewOther.

Definition quietEnv (t : Z) : Env := mkEnv t (fun _ => 0%Z).

(** A running manager whose link to [neighborA] (original cost 10) has been
    inflated to 26 in the store and in the adjacency list, with one probe
    outstanding and one measurement timer armed. *)
Definition inflatedManager : LinkCostManager :=
  with_isActive true
    (with_scheduler [(seconds 40, TaskRttMeasurement neighborA)]
       (with_pendingMeasurements {[ 1%Z := (neighborA, seconds 35) ]}
          (managerWith (activeLink 10 26 [sample 400; sample 400; sample 400])))).

(** The adjacency list of a router whose only neighbor is [neighborA],
    ACTIVE, with configured cost 10. *)
Definition adjacencyA : gmap Name Adjacent :=
  {[ neighborA := mkAdjacent STATUS_ACTIVE 10 10 0 ]}.

(** Start-up, the warm-up timer, the first measurement timer of
    [neighborA] (which sends probe 1), then the third hello timeout. *)
Definition declineEvents : list (Event * Env) :=
  [ (EvStart, quietEnv 0);
    (EvTimer (seconds 30) TaskStartup, quietEnv (seconds 30));
    (EvTimer (seconds 35) (TaskRttMeasurement neighborA), quietEnv (seconds 35));
    (EvHelloTimeout neighborA 3, quietEnv (seconds 36)) ].

(** A running manager with a fresh stable link to [neighborA] and probe 1
    outstanding since time 0. *)
Definition probingManager : LinkCostManager :=
  with_isActive true
    (with_pendingMeasurements {[ 1%Z := (neighborA, 0%Z) ]}
       (managerWith (activeLink 10 10 []))).

(** ** The rebuild-rate limit, as a property of the request log *)

(** Every cost-update request for a neighbor comes at least
    [MIN_LSA_INTERVAL] after each earlier one for the same neighbor (the
    log is newest first). *)
Fixpoint rebuildsSpaced (log : list (Z * RebuildCause)) : Prop :=
  match log with
  | [] => True
  | (t, CostUpdate n) :: rest =>
    (forall t', (t', CostUpdate n) ∈ rest -> (MIN_LSA_INTERVAL <= t - t')%Z)
    /\ rebuildsSpaced rest
  | (_, Shutdown) :: rest => rebuildsSpaced rest
  end.

(** No logged cost-update request for a neighbor is later than the
    [lastLsaTriggerTime] the store holds for it. *)
Definition triggersCoverLog (st : LinkCostManager) : Prop :=
  forall t n, (t, CostUpdate n) ∈ adjLsaBuilds st ->
    exists l, m_outgoingLinks st !! n = Some l /\ (t <= lastLsaTriggerTime l)%Z.

Definition rateLimited (st : LinkCostManager) : Prop :=
  rebuildsSpaced (adjLsaBuilds st) /\ triggersCoverLog st.

(** [st'] keeps every link of [st], with the same [lastLsaTriggerTime]. *)
Definition triggersKept (st st' : LinkCostManager) : Prop :=
  forall n l, m_outgoingLinks st !! n = Some l ->
    exists l', m_outgoingLinks st' !! n = Some l'
               /\ lastLsaTriggerTime l' = lastLsaTriggerTime l.

(** A transition that neither asks for a rebuild nor moves a
    [lastLsaTriggerTime]. *)
Definition quiet (st st' : LinkCostManager) : Prop :=
  adjLsaBuilds st' = adjLsaBuilds st /\ triggersKept st st'.

(** ** Shapes of the manager's transitions *)

(** What every handler keeps of a link state: its name, its original cost,
    and the emptiness of the history of an INACTIVE neighbor. *)
Definition linkKept (l l' : OutgoingLinkState) : Prop :=
  neighbor l' = neighbor l
  /\ originalCost l' = originalCost l
  /\ ((status l = STATUS_INACTIVE -> rttHistory l = []) ->
      (status l' = STATUS_INACTIVE -> rttHistory l' = [])).

(** The two copies of a neighbor's cost: either neither the store's
    [currentCost] nor the adjacency moved, or they were written together. *)
Definition costsKeptOrAgree (st st' : LinkCostManager) (n : Name)
    (l l' : OutgoingLinkState) : Prop :=
  (currentCost l' = currentCost l /\ m_adjacencyList st' !! n = m_adjacencyList st !! n)
  \/ (linkCost <$> m_adjacencyList st' !! n) = Some (currentCost l').

Definition evolves (st st' : LinkCostManager) : Prop :=
  forall n,
    match m_outgoingLinks st !! n with
    | None => m_outgoingLinks st' !! n = None
              /\ m_adjacencyList st' !! n = m_adjacencyList st !! n
    | Some l => exists l', m_outgoingLinks st' !! n = Some l'
                           /\ linkKept l l' /\ costsKeptOrAgree st st' n l l'
    end.

(** No INACTIVE neighbor of the store has samples. *)
Definition inactiveHistoriesEmpty (st : LinkCostManager) : Prop :=
  forall n l, m_outgoingLinks st !! n = Some l ->
    status l = STATUS_INACTIVE -> rttHistory l = [].

(** The store and the adjacency list hold the same cost for every neighbor
    they both know. *)
Definition costsAgree (st : LinkCostManager) : Prop :=
  forall n a l, m_adjacencyList st !! n = Some a -> m_outgoingLinks st !! n = Some l ->
    linkCost a = currentCost l.

Definition isStop (ev : Event * Env) : bool :=
  match fst ev with EvStop => true | _ => false end.

Definition isStart (ev : Event * Env) : bool :=
  match fst ev with EvStart => true | _ => false end.

(** A stopped manager: inactive, nothing scheduled, nothing pending. *)
Definition dormant (st : LinkCostManager) : Prop :=
  m_isActive st = false /\ m_scheduler st = [] /\ m_pendingMeasurements st = ∅.

(** The requests the manager has sent to its collaborators. *)
Definition outputs (st : LinkCostManager) :=
  (adjLsaBuilds st, routingTableCalculations st, probesSent st, feedbackSent st).

(** Every pending probe belongs to a neighbor of the store and carries a
    32-bit sequence number, as does the next probe. *)
Definition pendingWellFormed (st : LinkCostManager) : Prop :=
  (0 <= m_nextSequenceNumber st < 2 ^ 32)%Z
  /\ forall seq n t, m_pendingMeasurements st !! seq = Some (n, t) ->
       (0 <= seq < 2 ^ 32)%Z /\ is_Some (m_outgoingLinks st !! n).

(** The neighbor an event is about, if it is about one. *)
Definition eventNeighbor (ev : Event * Env) : option Name :=
  match fst ev with
  | EvHelloInterestSent n | EvHelloDataReceived n | EvHelloTimeout n _
  | EvNeighborStatusChanged n _ | EvRttResponse n _ _ | EvRttTimeout n _ => Some n
  | _ => None
  end.

(** Neighbor [m] has the same link state and the same adjacency in [st']
    as in [st]. *)
Definition untouched (m : Name) (st st' : LinkCostManager) : Prop :=
  m_outgoingLinks st' !! m = m_outgoingLinks st !! m
  /\ m_adjacencyList st' !! m = m_adjacencyList st !! m.

(** ** The feedback publisher (link-cost-manager.cpp) *)

(** Modelled from the spec: the thresholds and weights of the performance
    score are constants of link-cost-manager.hpp, which is not among the
    sources; the spec gives 10, 50, 100 and 200 ms and the weights
    0.4, 0.2, 0.3 and 0.1. *)
Definition RTT_EXCELLENT_THRESHOLD : R := 10.
Definition RTT_GOOD_THRESHOLD : R := 50.
Definition RTT_FAIR_THRESHOLD : R := 100.
Definition RTT_POOR_THRESHOLD : R := 200.
Definition RTT_WEIGHT : R := 4 / 10.
Definition STABILITY_WEIGHT : R := 2 / 10.
Definition RELIABILITY_WEIGHT : R := 3 / 10.
Definition TREND_WEIGHT : R := 1 / 10.

(** [LinkCostManager::calculateRttPerformanceScore] *)
Definition calculateRttPerformanceScore (rttMs : R) : R :=
  if decide (rttMs <= RTT_EXCELLENT_THRESHOLD) then 0
  else if decide (rttMs <= RTT_GOOD_THRESHOLD) then
    (rttMs - RTT_EXCELLENT_THRESHOLD) / (RTT_GOOD_THRESHOLD - RTT_EXCELLENT_THRESHOLD)
    * (3 / 10)
  else if decide (rttMs <= RTT_FAIR_THRESHOLD) then
    3 / 10 + (rttMs - RTT_GOOD_THRESHOLD) / (RTT_FAIR_THRESHOLD - RTT_GOOD_THRESHOLD)
             * (3 / 10)
  else if decide (rttMs <= RTT_POOR_THRESHOLD) then
    6 / 10 + (rttMs - RTT_FAIR_THRESHOLD) / (RTT_POOR_THRESHOLD - RTT_FAIR_THRESHOLD)
             * (3 / 10)
  else 9 / 10 + Rmin (1 / 10) ((rttMs - RTT_POOR_THRESHOLD) / 800 * (1 / 10)).

(** The millisecond counts of the last [k] samples of a history. *)
Definition lastMs (k : nat) (h : list RttMeasurement) : list R :=
  (fun m => IZR (toMilliseconds (rtt m))) <$> drop (length h - k) h.

(** [LinkCostManager::calculateStabilityPerformanceScore] *)
Definition calculateStabilityPerformanceScore (st : LinkCostManager) (n : Name) : R :=
  match m_outgoingLinks st !! n with
  | None => 5 / 10
  | Some l =>
    if decide (length (rttHistory l) < 3)%nat then 5 / 10
    else
      let sampleCount := Nat.min (length (rttHistory l)) 5 in
      let xs := lastMs sampleCount (rttHistory l) in
      let sum := fold_left Rplus xs 0 in
      let sumSquares := fold_left (fun acc x => acc + x * x) xs 0 in
      let mean := sum / INR sampleCount in
      let variance := sumSquares / INR sampleCount - mean * mean in
      let stddev := sqrt variance in
      let coefficientOfVariation := if decide (0 < mean) then stddev / mean else 0 in
      if decide (coefficientOfVariation <= 1 / 10) then 0
      else if decide (coefficientOfVariation <= 3 / 10)
      then coefficientOfVariation / (3 / 10) * (4 / 10)
      else 4 / 10 + Rmin (6 / 10) ((coefficientOfVariation - 3 / 10) / (7 / 10) * (6 / 10))
  end.

(** [LinkCostManager::calculateReliabilityPerformanceScore] *)
Definition calculateReliabilityPerformanceScore (l : OutgoingLinkState) : R :=
  if decide (timeoutCount l = 0)%Z then 0
  else if decide (timeoutCount l <= 2)%Z then 2 / 10
  else if decide (timeoutCount l <= 5)%Z then 5 / 10
  else 8 / 10.

(** [LinkCostManager::calculateTrendPerformanceScore] *)
Definition calculateTrendPerformanceScore (st : LinkCostManager) (n : Name) : R :=
  match m_outgoingLinks st !! n with
  | None => 0
  | Some l =>
    if decide (length (rttHistory l) < 6)%nat then 0
    else
      let recentAvg := fold_left Rplus (lastMs 3 (rttHistory l)) 0 / 3 in
      let previousAvg := fold_left Rplus (take 3 (lastMs 6 (rttHistory l))) 0 / 3 in
      if decide (0 < previousAvg) then
        let changeRatio := (recentAvg - previousAvg) / previousAvg in
        if decide (changeRatio <= - (1 / 10)) then 0
        else if decide (changeRatio <= 1 / 10) then 2 / 10
        else if decide (changeRatio <= 3 / 10) then 5 / 10
        else 8 / 10
      else 0
  end.

(** The weighted sum [calculateRealTimePerformance] clamps. *)
Definition totalPerformance (st : LinkCostManager) (n : Name) (l : OutgoingLinkState)
    (currentRtt : Z) : R :=
  RTT_WEIGHT * calculateRttPerformanceScore (IZR (toMilliseconds currentRtt))
  + STABILITY_WEIGHT * calculateStabilityPerformanceScore st n
  + RELIABILITY_WEIGHT * calculateReliabilityPerformanceScore l
  + TREND_WEIGHT * calculateTrendPerformanceScore st n.

(** [LinkCostManager::calculateRealTimePerformance] *)
Definition calculateRealTimePerformance (st : LinkCostManager) (n : Name)
    (currentRtt : Z) : R :=
  match m_outgoingLinks st !! n with
  | None => 5 / 10
  | Some l => Rmax 0 (Rmin 1 (totalPerformance st n l currentRtt))
  end.

(** ** Invariants of the calculator's state *)

(** The weight vector has one weight per feature and the learning rate is
    within its floor and its cap. *)
Definition modelWellFormed (ml : MLAdaptiveCalculator) : Prop :=
  length (LinearRegressionModel.m_weights (m_model ml)) = FEATURE_COUNT
  /\ 1 / 1000 <= m_learningRate ml <= 5 / 100.

(** The per-neighbor histories are within their bounds. *)
Definition historiesBounded (ml : MLAdaptiveCalculator) : Prop :=
  (forall n h, m_rttHistory ml !! n = Some h -> (length h <= MAX_RTT_HISTORY)%nat)
  /\ (forall n h, m_performanceHistory ml !! n = Some h ->
        (length h <= MAX_PERFORMANCE_HISTORY)%nat).

(** The sum of the squared features. *)
Definition sumSquares (x : list R) : R := fold_left (fun acc xi => acc + xi * xi) x 0.

(** ** The routing table (routing-table.cpp) *)

(** The next-hop list of an entry belongs to the host daemon (nexthop-list.hpp
    is not among the sources): the model takes the empty list and
    [NexthopList::addNextHop] as an interface. *)
Class NexthopOps (NH NHL : Type) := {
  noNexthops : NHL;
  addToNexthops : NH -> NHL -> NHL
}.

(** A [RoutingTableEntry]: a destination router and its next hops. *)
Record RoutingTableEntry (NHL : Type) := mkRoutingTableEntry {
  getDestination : Name;
  getNexthopList : NHL
}.
Arguments mkRoutingTableEntry {NHL} _ _.
Arguments getDestination {NHL} _.
Arguments getNexthopList {NHL} _.

(** A parsed sub-block of a wire: a routing-table entry, or a block of
    another type. *)
Inductive Element (NHL : Type) :=
| EntryBlock (e : RoutingTableEntry NHL)
| UnrecognizedBlock (type : Z).
Arguments EntryBlock {NHL} _.
Arguments UnrecognizedBlock {NHL} _.

(** A wire block: of type [nlsr::tlv::RoutingTable] with its elements, or
    of another type. *)
Inductive Block (NHL : Type) :=
| RoutingTableBlock (elements : list (Element NHL))
| ForeignBlock (type : Z).
Arguments RoutingTableBlock {NHL} _.
Arguments ForeignBlock {NHL} _.

(** [RoutingTableStatus] *)
Record RoutingTableStatus (NHL : Type) := mkRoutingTableStatus {
  m_dryTable : list (RoutingTableEntry NHL);
  m_rTable : list (RoutingTableEntry NHL);
  m_wire : option (Block NHL)
}.
Arguments mkRoutingTableStatus {NHL} _ _ _.
Arguments m_dryTable {NHL} _.
Arguments m_rTable {NHL} _.
Arguments m_wire {NHL} _.

(** The loop of [wireDecode]: the first entry of a destination goes to the
    routing table, every later one to the dry-run table; an element that is
    not an entry stops the loop, and the leftover makes [wireDecode] throw. *)
Fixpoint decodeElements {NHL : Type} (destinations : gset Name)
    (rTable dryTable : list (RoutingTableEntry NHL)) (els : list (Element NHL))
    : option (list (RoutingTableEntry NHL) * list (RoutingTableEntry NHL)) :=
  match els with
  | [] => Some (rTable, dryTable)
  | EntryBlock e :: els' =>
    if decide (getDestination e ∈ destinations)
    then decodeElements destinations rTable (dryTable ++ [e]) els'
    else decodeElements ({[ getDestination e ]} ∪ destinations) (rTable ++ [e]) dryTable els'
  | UnrecognizedBlock _ :: _ => None
  end.

(** [RoutingTableStatus(block)], that is [wireDecode] on a fresh status;
    [None] stands for the [Error] it throws. *)
Definition wireDecode {NHL : Type} (wire : Block NHL) : option (RoutingTableStatus NHL) :=
  match wire with
  | ForeignBlock _ => None
  | RoutingTableBlock els =>
    match decodeElements ∅ [] [] els with
    | Some (rTable, dryTable) => Some (mkRoutingTableStatus dryTable rTable (Some wire))
    | None => None
    end
  end.

(** The block [wireEncode(block)] builds: both loops prepend, so the wire
    holds the routing table followed by the dry-run table. *)
Definition encodeTables {NHL : Type} (s : RoutingTableStatus NHL) : Block NHL :=
  RoutingTableBlock (EntryBlock <$> (m_rTable s ++ m_dryTable s)).

(** [RoutingTableStatus::wireEncode() const]: the cached wire if there is
    one, else a fresh encoding that is cached. *)
Definition wireEncode {NHL : Type} (s : RoutingTableStatus NHL)
    : Block NHL * RoutingTableStatus NHL :=
  match m_wire s with
  | Some w => (w, s)
  | None => let w := encodeTables s in
            (w, mkRoutingTableStatus (m_dryTable s) (m_rTable s) (Some w))
  end.

(** [std::find_if] with [routingTableEntryCompare]. *)
Fixpoint findEntry {NHL : Type} (dest : Name) (t : list (RoutingTableEntry NHL))
    : option (RoutingTableEntry NHL) :=
  match t with
  | [] => None
  | e :: t' => if decide (getDestination e = dest) then Some e else findEntry dest t'
  end.

(** [rte.getNexthopList().addNextHop(nh)] on the first entry for [dest]. *)
Fixpoint addToFirst `{NexthopOps NH NHL} (dest : Name) (nh : NH)
    (t : list (RoutingTableEntry NHL)) : list (RoutingTableEntry NHL) :=
  match t with
  | [] => []
  | e :: t' =>
    if decide (getDestination e = dest)
    then mkRoutingTableEntry (getDestination e) (addToNexthops nh (getNexthopList e)) :: t'
    else e :: addToFirst dest nh t'
  end.

(** The common body of [addNextHop] and [addNextHopToDryTable]. *)
Definition addHop `{NexthopOps NH NHL} (dest : Name) (nh : NH)
    (t : list (RoutingTableEntry NHL)) : list (RoutingTableEntry NHL) :=
  match findEntry dest t with
  | None => t ++ [mkRoutingTableEntry dest (addToNexthops nh noNexthops)]
  | Some _ => addToFirst dest nh t
  end.

(** [RoutingTable::findRoutingTableEntry] *)
Definition findRoutingTableEntry {NHL : Type} (s : RoutingTableStatus NHL) (dest : Name) :=
  findEntry dest (m_rTable s).

(** [RoutingTable::addNextHop] *)
Definition addNextHop `{NexthopOps NH NHL} (s : RoutingTableStatus NHL) (dest : Name)
    (nh : NH) : RoutingTableStatus NHL :=
  mkRoutingTableStatus (m_dryTable s) (addHop dest nh (m_rTable s)) None.

(** [RoutingTable::addNextHopToDryTable] *)
Definition addNextHopToDryTable `{NexthopOps NH NHL} (s : RoutingTableStatus NHL)
    (dest : Name) (nh : NH) : RoutingTableStatus NHL :=
  mkRoutingTableStatus (addHop dest nh (m_dryTable s)) (m_rTable s) None.

(** [RoutingTable::clearRoutingTable], [RoutingTable::clearDryRoutingTable] *)
Definition clearRoutingTable {NHL : Type} (s : RoutingTableStatus NHL) :=
  mkRoutingTableStatus (m_dryTable s) [] None.
Definition clearDryRoutingTable {NHL : Type} (s : RoutingTableStatus NHL) :=
  mkRoutingTableStatus [] (m_rTable s) None.

(** The destinations of a table, in order. *)
Definition destinations {NHL : Type} (t : list (RoutingTableEntry NHL)) : list Name :=
  getDestination <$> t.

(** The cached wire, if any, is the encoding of the current tables. *)
Definition wireCoherent {NHL : Type} (s : RoutingTableStatus NHL) : Prop :=
  forall w, m_wire s = Some w -> w = encodeTables s.

(** The mutators of a routing-table status. *)
Inductive TableOp (NH : Type) :=
| OpAddNextHop (dest : Name) (nh : NH)
| OpAddNextHopToDryTable (dest : Name) (nh : NH)
| OpClearRoutingTable
| OpClearDryRoutingTable
| OpWireEncode.
Arguments OpAddNextHop {NH} _ _.
Arguments OpAddNextHopToDryTable {NH} _ _.
Arguments OpClearRoutingTable {NH}.
Arguments OpClearDryRoutingTable {NH}.
Arguments OpWireEncode {NH}.

Definition applyTableOp `{NexthopOps NH NHL} (s : RoutingTableStatus NHL) (op : TableOp NH)
    : RoutingTableStatus NHL :=
  match op with
  | OpAddNextHop dest nh => addNextHop s dest nh
  | OpAddNextHopToDryTable dest nh => addNextHopToDryTable s dest nh
  | OpClearRoutingTable => clearRoutingTable s
  | OpClearDryRoutingTable => clearDryRoutingTable s
  | OpWireEncode => snd (wireEncode s)
  end.

(** Next hops as plain lists, newest first, for concrete inputs. *)
#[global] Instance listNexthops : NexthopOps string (list string) := {
  noNexthops := [];
  addToNexthops nh l := nh :: l
}.

Definition routerB : Name := ["ndn"; "B"]%string.

Definition sampleTable : list (RoutingTableEntry (list string)) :=
  [ mkRoutingTableEntry neighborA ["face1"]%string;
    mkRoutingTableEntry routerB ["face2"]%string ].

(** *** The routing table and its calculation passes *)

(** The hyperbolic-routing setting [m_hyperbolicState] takes its value from
    the configuration's three states. *)
Inductive HyperbolicState :=
| HYPERBOLIC_STATE_OFF
| HYPERBOLIC_STATE_ON
| HYPERBOLIC_STATE_DRY_RUN.

#[global] Instance HyperbolicState_eq_dec : EqDecision HyperbolicState.
Proof. solve_decision. Defined.

(** The path computations belong to the host daemon; the model takes the
    hops each of them adds to the table as an input of the pass. *)
Inductive PathAlgorithm :=
| LinkStatePaths
| LoadAwarePaths
| HyperbolicPaths (isDryRun : bool).

(** The registrations made at the link cost manager when the ML calculator
    is created; what the load-aware calculator's constructor does is
    outside the sources and is not recorded. *)
Inductive LcmRequest :=
| SetLoadAwareCostCalculator
| SetMLFeedbackCallback.

Inductive LsaType := ADJACENCY | COORDINATE | NAME.
Inductive LsdbUpdate := INSTALLED | UPDATED | REMOVED.

#[global] Instance LsaType_eq_dec : EqDecision LsaType.
Proof. solve_decision. Defined.
#[global] Instance LsdbUpdate_eq_dec : EqDecision LsdbUpdate.
Proof. solve_decision. Defined.

(** What a calculation pass reads from its collaborators: the LSDB's
    build flag, the two configuration switches, the hops the path
    computations produce and the clock. *)
Record RoutingEnv (NH : Type) := mkRoutingEnv {
  getIsBuildAdjLsaScheduled : bool;
  getMLAdaptiveRouting : bool;
  getLoadAwareRouting : bool;
  computedHops : PathAlgorithm -> list (Name * NH);
  steadyClock : Clock
}.
Arguments mkRoutingEnv {NH} _ _ _ _ _.
Arguments getIsBuildAdjLsaScheduled {NH} _.
Arguments getMLAdaptiveRouting {NH} _.
Arguments getLoadAwareRouting {NH} _.
Arguments computedHops {NH} _ _.
Arguments steadyClock {NH} _.

(** [RoutingTable]: the status it inherits, its flags, the presence of the
    link cost manager and of the two persistent calculators, and the requests
    it has made: calculations handed to the scheduler, tables emitted on
    [afterRoutingChange], the ML calculator's registrations at the link cost
    manager. *)
Record RoutingTable (NHL : Type) := mkRoutingTable {
  m_status : RoutingTableStatus NHL;
  m_hyperbolicState : HyperbolicState;
  m_isRoutingTableCalculating : bool;
  m_isRouteCalculationScheduled : bool;
  m_ownAdjLsaExist : bool;
  m_linkCostManager : bool;
  m_loadAwareCalculator : bool;
  m_mlAdaptiveCalculator : option MLAdaptiveCalculator;
  scheduledCalculations : nat;
  afterRoutingChange : list (list (RoutingTableEntry NHL));
  linkCostManagerRequests : list LcmRequest
}.
Arguments mkRoutingTable {NHL} _ _ _ _ _ _ _ _ _ _ _.
Arguments m_status {NHL} _.
Arguments m_hyperbolicState {NHL} _.
Arguments m_isRoutingTableCalculating {NHL} _.
Arguments m_isRouteCalculationScheduled {NHL} _.
Arguments m_ownAdjLsaExist {NHL} _.
Arguments m_linkCostManager {NHL} _.
Arguments m_loadAwareCalculator {NHL} _.
Arguments m_mlAdaptiveCalculator {NHL} _.
Arguments scheduledCalculations {NHL} _.
Arguments afterRoutingChange {NHL} _.
Arguments linkCostManagerRequests {NHL} _.

Definition with_status {NHL : Type} v (rt : RoutingTable NHL) :=
  mkRoutingTable v (m_hyperbolicState rt) (m_isRoutingTableCalculating rt)
    (m_isRouteCalculationScheduled rt) (m_ownAdjLsaExist rt) (m_linkCostManager rt)
    (m_loadAwareCalculator rt) (m_mlAdaptiveCalculator rt) (scheduledCalculations rt)
    (afterRoutingChange rt) (linkCostManagerRequests rt).
Definition with_isRoutingTableCalculating {NHL : Type} v (rt : RoutingTable NHL) :=
  mkRoutingTable (m_status rt) (m_hyperbolicState rt) v
    (m_isRouteCalculationScheduled rt) (m_ownAdjLsaExist rt) (m_linkCostManager rt)
    (m_loadAwareCalculator rt) (m_mlAdaptiveCalculator rt) (scheduledCalculations rt)
    (afterRoutingChange rt) (linkCostManagerRequests rt).
Definition with_isRouteCalculationScheduled {NHL : Type} v (rt : RoutingTable NHL) :=
  mkRoutingTable (m_status rt) (m_hyperbolicState rt) (m_isRoutingTableCalculating rt)
    v (m_ownAdjLsaExist rt) (m_linkCostManager rt)
    (m_loadAwareCalculator rt) (m_mlAdaptiveCalculator rt) (scheduledCalculations rt)
    (afterRoutingChange rt) (linkCostManagerRequests rt).
Definition with_ownAdjLsaExist {NHL : Type} v (rt : RoutingTable NHL) :=
  mkRoutingTable (m_status rt) (m_hyperbolicState rt) (m_isRoutingTableCalculating rt)
    (m_isRouteCalculationScheduled rt) v (m_linkCostManager rt)
    (m_loadAwareCalculator rt) (m_mlAdaptiveCalculator rt) (scheduledCalculations rt)
    (afterRoutingChange rt) (linkCostManagerRequests rt).
Definition with_linkCostManager {NHL : Type} v (rt : RoutingTable NHL) :=
  mkRoutingTable (m_status rt) (m_hyperbolicState rt) (m_isRoutingTableCalculating rt)
    (m_isRouteCalculationScheduled rt) (m_ownAdjLsaExist rt) v
    (m_loadAwareCalculator rt) (m_mlAdaptiveCalculator rt) (scheduledCalculations rt)
    (afterRoutingChange rt) (linkCostManagerRequests rt).
Definition with_loadAwareCalculator {NHL : Type} v (rt : RoutingTable NHL) :=
  mkRoutingTable (m_status rt) (m_hyperbolicState rt) (m_isRoutingTableCalculating rt)
    (m_isRouteCalculationScheduled rt) (m_ownAdjLsaExist rt) (m_linkCostManager rt)
    v (m_mlAdaptiveCalculator rt) (scheduledCalculations rt)
    (afterRoutingChange rt) (linkCostManagerRequests rt).
Definition with_mlAdaptiveCalculator {NHL : Type} v (rt : RoutingTable NHL) :=
  mkRoutingTable (m_status rt) (m_hyperbolicState rt) (m_isRoutingTableCalculating rt)
    (m_isRouteCalculationScheduled rt) (m_ownAdjLsaExist rt) (m_linkCostManager rt)
    (m_loadAwareCalculator rt) v (scheduledCalculations rt)
    (afterRoutingChange rt) (linkCostManagerRequests rt).
Definition with_scheduledCalculations {NHL : Type} v (rt : RoutingTable NHL) :=
  mkRoutingTable (m_status rt) (m_hyperbolicState rt) (m_isRoutingTableCalculating rt)
    (m_isRouteCalculationScheduled rt) (m_ownAdjLsaExist rt) (m_linkCostManager rt)
    (m_loadAwareCalculator rt) (m_mlAdaptiveCalculator rt) v
    (afterRoutingChange rt) (linkCostManagerRequests rt).
Definition with_afterRoutingChange {NHL : Type} v (rt : RoutingTable NHL) :=
  mkRoutingTable (m_status rt) (m_hyperbolicState rt) (m_isRoutingTableCalculating rt)
    (m_isRouteCalculationScheduled rt) (m_ownAdjLsaExist rt) (m_linkCostManager rt)
    (m_loadAwareCalculator rt) (m_mlAdaptiveCalculator rt) (scheduledCalculations rt)
    v (linkCostManagerRequests rt).
Definition with_linkCostManagerRequests {NHL : Type} v (rt : RoutingTable NHL) :=
  mkRoutingTable (m_status rt) (m_hyperbolicState rt) (m_isRoutingTableCalculating rt)
    (m_isRouteCalculationScheduled rt) (m_ownAdjLsaExist rt) (m_linkCostManager rt)
    (m_loadAwareCalculator rt) (m_mlAdaptiveCalculator rt) (scheduledCalculations rt)
    (afterRoutingChange rt) v.

(** The constructor of [RoutingTable]. *)
Definition newRoutingTable {NHL : Type} (hyperbolicState : HyperbolicState)
    : RoutingTable NHL :=
  mkRoutingTable (mkRoutingTableStatus [] [] None) hyperbolicState false false false
                 false false None 0 [] [].

(** [RoutingTable::scheduleRoutingTableCalculation] *)
Definition scheduleRoutingTableCalculation {NHL : Type} (rt : RoutingTable NHL) :=
  if m_isRouteCalculationScheduled rt then rt
  else with_isRouteCalculationScheduled true
         (with_scheduledCalculations (S (scheduledCalculations rt)) rt).

(** A path computation working on the table: it adds its hops through
    [addNextHop], or through [addNextHopToDryTable] in a dry run. *)
Definition runPaths `{NexthopOps NH NHL} (isDryRun : bool) (hops : list (Name * NH))
    (s : RoutingTableStatus NHL) : RoutingTableStatus NHL :=
  fold_left (fun s h => if isDryRun then addNextHopToDryTable s h.1 h.2
                        else addNextHop s h.1 h.2) hops s.

(** [afterRoutingChange(m_rTable)] *)
Definition emitRoutingChange {NHL : Type} (rt : RoutingTable NHL) :=
  with_afterRoutingChange (afterRoutingChange rt ++ [m_rTable (m_status rt)]) rt.

(** [RoutingTable::calculateLsRoutingTable] *)
Definition calculateLsRoutingTable `{NexthopOps NH NHL} (env : RoutingEnv NH)
    (rt : RoutingTable NHL) : RoutingTable NHL :=
  if getIsBuildAdjLsaScheduled env then rt
  else if negb (m_ownAdjLsaExist rt) then rt
  else
    let rt := with_status (clearRoutingTable (m_status rt)) rt in
    let rt := with_status (runPaths false (computedHops env LinkStatePaths) (m_status rt)) rt in
    emitRoutingChange rt.

(** [RoutingTable::calculateHypRoutingTable] *)
Definition calculateHypRoutingTable `{NexthopOps NH NHL} (env : RoutingEnv NH)
    (isDryRun : bool) (rt : RoutingTable NHL) : RoutingTable NHL :=
  let rt := with_status (if isDryRun then clearDryRoutingTable (m_status rt)
                         else clearRoutingTable (m_status rt)) rt in
  let rt := with_status (runPaths isDryRun (computedHops env (HyperbolicPaths isDryRun))
                                  (m_status rt)) rt in
  if isDryRun then rt else emitRoutingChange rt.

(** [RoutingTable::calculateLoadAwareRoutingTable]; the calculator's class
    is not among the sources, its creation is recorded as a flag. *)
Definition calculateLoadAwareRoutingTable `{NexthopOps NH NHL} (env : RoutingEnv NH)
    (rt : RoutingTable NHL) : RoutingTable NHL :=
  if getIsBuildAdjLsaScheduled env then rt
  else if negb (m_ownAdjLsaExist rt) then rt
  else
    let rt := with_status (clearRoutingTable (m_status rt)) rt in
    if negb (m_linkCostManager rt) then calculateLsRoutingTable env rt
    else
      let rt := if m_loadAwareCalculator rt then rt else with_loadAwareCalculator true rt in
      let rt := with_status (runPaths false (computedHops env LoadAwarePaths) (m_status rt)) rt in
      emitRoutingChange rt.

(** [RoutingTable::calculateMLAdaptiveRoutingTable]: the calculator is
    created on the first pass that reaches it, its constructor registers the
    cost calculator and the table registers the feedback callback. *)
Definition calculateMLAdaptiveRoutingTable `{NexthopOps NH NHL} (env : RoutingEnv NH)
    (rt : RoutingTable NHL) : RoutingTable NHL :=
  if getIsBuildAdjLsaScheduled env then rt
  else if negb (m_ownAdjLsaExist rt) then rt
  else
    let rt := with_status (clearRoutingTable (m_status rt)) rt in
    if negb (m_linkCostManager rt) then calculateLsRoutingTable env rt
    else
      let rt :=
        match m_mlAdaptiveCalculator rt with
        | Some _ => rt
        | None =>
          with_linkCostManagerRequests
            (linkCostManagerRequests rt ++ [SetLoadAwareCostCalculator; SetMLFeedbackCallback])
            (with_mlAdaptiveCalculator (Some (newCalculator (steadyClock env))) rt)
        end in
      let rt := with_mlAdaptiveCalculator (calculatePath <$> m_mlAdaptiveCalculator rt) rt in
      let rt := with_status (runPaths false (computedHops env LinkStatePaths) (m_status rt)) rt in
      emitRoutingChange rt.

(** [RoutingTable::calculate] *)
Definition calculate `{NexthopOps NH NHL} (env : RoutingEnv NH) (rt : RoutingTable NHL)
    : RoutingTable NHL :=
  if m_isRoutingTableCalculating rt then scheduleRoutingTableCalculation rt
  else
    let rt := with_isRoutingTableCalculating true rt in
    let rt :=
      if getMLAdaptiveRouting env then calculateMLAdaptiveRoutingTable env rt
      else if getLoadAwareRouting env then calculateLoadAwareRoutingTable env rt
      else match m_hyperbolicState rt with
           | HYPERBOLIC_STATE_OFF => calculateLsRoutingTable env rt
           | HYPERBOLIC_STATE_DRY_RUN =>
             calculateHypRoutingTable env true (calculateLsRoutingTable env rt)
           | HYPERBOLIC_STATE_ON => calculateHypRoutingTable env false rt
           end in
    with_isRoutingTableCalculating false (with_isRouteCalculationScheduled false rt).

(** The handler the constructor connects to [lsdb.onLsdbModified];
    [originIsSelf] tells whether the LSA's origin is this router. *)
Definition onLsdbModified {NHL : Type} (originIsSelf : bool) (type : LsaType)
    (updateType : LsdbUpdate) (rt : RoutingTable NHL) : RoutingTable NHL :=
  let updateForOwnAdjacencyLsa :=
    originIsSelf && bool_decide (type = ADJACENCY) in
  let rt :=
    if bool_decide (updateType = REMOVED) && updateForOwnAdjacencyLsa
    then
      let rt := with_status (clearRoutingTable (m_status rt)) rt in
      let rt := with_status (clearDryRoutingTable (m_status rt)) rt in
      with_ownAdjLsaExist false (emitRoutingChange rt)
    else rt in
  let rt :=
    if bool_decide (updateType = INSTALLED) && updateForOwnAdjacencyLsa
    then with_ownAdjLsaExist true rt else rt in
  let scheduleCalculation :=
    (bool_decide (updateType = INSTALLED) || bool_decide (updateType = UPDATED))
    && ((bool_decide (type = ADJACENCY)
         && negb (bool_decide (m_hyperbolicState rt = HYPERBOLIC_STATE_ON)))
        || (bool_decide (type = COORDINATE)
            && negb (bool_decide (m_hyperbolicState rt = HYPERBOLIC_STATE_OFF)))) in
  if scheduleCalculation then scheduleRoutingTableCalculation rt else rt.

(** The feedback callback the table registers at the link cost manager. *)
Definition onMLFeedback {NHL : Type} (neighbor : Name) (performance : R) (c : Clock)
    (rt : RoutingTable NHL) : RoutingTable NHL :=
  with_mlAdaptiveCalculator
    ((fun ml => reportPathPerformance ml neighbor performance c) <$> m_mlAdaptiveCalculator rt)
    rt.

(** What happens to a routing table: the LSDB reports a change, the
    scheduler runs a calculation, someone asks for one, the link cost
    manager is attached or detached, the link cost manager reports a
    performance. *)
Inductive RoutingEvent (NH : Type) :=
| LsdbModified (originIsSelf : bool) (type : LsaType) (updateType : LsdbUpdate)
| Calculate (env : RoutingEnv NH)
| ScheduleCalculation
| SetLinkCostManager (present : bool)
| MLFeedback (neighbor : Name) (performance : R) (c : Clock).
Arguments LsdbModified {NH} _ _ _.
Arguments Calculate {NH} _.
Arguments ScheduleCalculation {NH}.
Arguments SetLinkCostManager {NH} _.
Arguments MLFeedback {NH} _ _ _.

Definition routingStep `{NexthopOps NH NHL} (rt : RoutingTable NHL) (ev : RoutingEvent NH)
    : RoutingTable NHL :=
  match ev with
  | LsdbModified o t u => onLsdbModified o t u rt
  | Calculate env => calculate env rt
  | ScheduleCalculation => scheduleRoutingTableCalculation rt
  | SetLinkCostManager p => with_linkCostManager p rt
  | MLFeedback n p c => onMLFeedback n p c rt
  end.

Definition routingRun `{NexthopOps NH NHL} (rt : RoutingTable NHL)
    (evs : list (RoutingEvent NH)) : RoutingTable NHL :=
  fold_left routingStep evs rt.


(** Whether an event is a calculation pass. *)
Definition isCalculate {NH : Type} (ev : RoutingEvent NH) : bool :=
  match ev with Calculate _ => true | _ => false end.

(** Whether an event is a calculation pass that gets as far as the ML
    calculator: ML routing is switched on, no other pass is running, the
    two guards let it through and a link cost manager is attached. *)
Definition reachesMLCalculator {NH NHL : Type} (rt : RoutingTable NHL)
    (ev : RoutingEvent NH) : bool :=
  match ev with
  | Calculate env =>
    negb (m_isRoutingTableCalculating rt) && getMLAdaptiveRouting env
    && negb (getIsBuildAdjLsaScheduled env) && m_ownAdjLsaExist rt && m_linkCostManager rt
  | _ => false
  end.

(** The number of such passes along a sequence of events. *)
Fixpoint mlPasses `{NexthopOps NH NHL} (rt : RoutingTable NHL)
    (evs : list (RoutingEvent NH)) : Z :=
  match evs with
  | [] => 0
  | ev :: evs' =>
    ((if reachesMLCalculator rt ev then 1 else 0) + mlPasses (routingStep rt ev) evs')%Z
  end.

(** An environment whose link-state computation finds two hops to router B
    and one to neighbor A. *)
Definition sampleEnv (ml : bool) : RoutingEnv string :=
  mkRoutingEnv false ml false
    (fun a => match a with
              | LinkStatePaths =>
                [(routerB, "face1"); (neighborA, "face1"); (routerB, "face2")]%string
              | _ => []
              end)
    midnight.


(** What every calculation routine leaves alone. *)
Definition flagsKept {NHL : Type} (rt rt' : RoutingTable NHL) : Prop :=
  m_hyperbolicState rt' = m_hyperbolicState rt
  /\ m_isRoutingTableCalculating rt' = m_isRoutingTableCalculating rt
  /\ m_isRouteCalculationScheduled rt' = m_isRouteCalculationScheduled rt
  /\ m_ownAdjLsaExist rt' = m_ownAdjLsaExist rt
  /\ m_linkCostManager rt' = m_linkCostManager rt
  /\ scheduledCalculations rt' = scheduledCalculations rt.

(** * Properties *)

(** ** Rounding and logarithm bounds *)

Lemma round_nonneg_eq (x : R) (k : Z) :
  0 <= x -> IZR k - / 2 <= x < IZR k + / 2 -> round x = IZR k.
Proof.
  intros Hx Hk. unfold round. destruct (decide (0 <= x)) as [_|]; [|lra].
  f_equal. apply Zfloor_eq. lra.
Qed.

Lemma round_IZR (k : Z) : round (IZR k) = IZR k.
Proof.
  unfold round. destruct (decide (0 <= IZR k)) as [H|H].
  - f_equal. apply Zfloor_eq. lra.
  - rewrite <- opp_IZR. rewrite <- opp_IZR. f_equal.
    rewrite (Zfloor_eq (- k)%Z); [lia|]. lra.
Qed.

Lemma round_nonneg (x : R) : 0 <= x -> 0 <= round x.
Proof.
  intros Hx. unfold round. destruct (decide (0 <= x)) as [_|]; [|lra].
  apply IZR_le. apply Zfloor_lub. simpl. lra.
Qed.

Lemma round_mono (x y : R) : x <= y -> round x <= round y.
Proof.
  intros Hxy. unfold round.
  destruct (decide (0 <= x)) as [Hx|Hx], (decide (0 <= y)) as [Hy|Hy]; try lra.
  - apply IZR_le, Zfloor_le. lra.
  - assert (0 <= IZR (Zfloor (- x + / 2))) by (apply IZR_le, Zfloor_lub; simpl; lra).
    assert (0 <= IZR (Zfloor (y + / 2))) by (apply IZR_le, Zfloor_lub; simpl; lra).
    lra.
  - assert (IZR (Zfloor (- y + / 2)) <= IZR (Zfloor (- x + / 2)))
      by (apply IZR_le, Zfloor_le; lra).
    lra.
Qed.

Lemma Zfloor_div (s d : Z) : (0 < d)%Z -> Zfloor (IZR s / IZR d) = (s / d)%Z.
Proof.
  intros Hd. apply Zfloor_eq.
  pose proof (Z.div_mod s d ltac:(lia)) as Hs.
  pose proof (Z.mod_pos_bound s d Hd) as [Hr0 Hr1].
  assert (HD : 0 < IZR d) by (apply IZR_lt; lia).
  assert (Hs' : IZR s = IZR d * IZR (s / d) + IZR (s mod d))
    by (rewrite <- mult_IZR, <- plus_IZR; f_equal; exact Hs).
  apply IZR_le in Hr0. apply IZR_lt in Hr1.
  split.
  - apply (Rmult_le_reg_r (IZR d)); [exact HD|].
    unfold Rdiv. rewrite Rmult_assoc, Rinv_l by lra. lra.
  - apply (Rmult_lt_reg_r (IZR d)); [exact HD|].
    unfold Rdiv. rewrite Rmult_assoc, Rinv_l by lra. lra.
Qed.

Lemma ln_le_compat (x y : R) : 0 < x -> x <= y -> ln x <= ln y.
Proof.
  intros Hx [Hlt | ->]; [|lra]. left. now apply ln_increasing.
Qed.

(** [ln (1 + x) <= x] *)
Lemma ln_1p_upper (x : R) : -1 < x -> ln (1 + x) <= x.
Proof.
  intros Hx. rewrite <- (ln_exp x) at 2.
  apply ln_le_compat; [lra|]. apply exp_ineq1_le.
Qed.

(** [x / (1 + x) <= ln (1 + x)] *)
Lemma ln_1p_lower (x : R) : -1 < x -> x / (1 + x) <= ln (1 + x).
Proof.
  intros Hx.
  assert (H : ln (/ (1 + x)) <= - (x / (1 + x))).
  { replace (/ (1 + x)) with (1 + - (x / (1 + x))) by (field; lra).
    apply ln_1p_upper.
    assert (x / (1 + x) < 1); [|lra].
    apply (Rmult_lt_reg_r (1 + x)); [lra|].
    unfold Rdiv. rewrite Rmult_assoc, Rinv_l by lra. lra. }
  rewrite ln_Rinv in H by lra. lra.
Qed.

Lemma exp_square (x : R) : exp (2 * x) = exp x * exp x.
Proof. replace (2 * x) with (x + x) by ring. apply exp_plus. Qed.

Lemma square_lower (q a b : R) : 0 <= q -> q <= a -> b <= q * q -> b <= a * a.
Proof. intros Hq Ha Hb. assert (q * q <= a * a) by (apply Rmult_le_compat; lra). lra. Qed.

(** A lower bound of [exp x] from six squarings of [1 + x / 64]. *)
Lemma exp_lower_64 (x b0 b1 b2 b3 b4 b5 b6 : R) :
  b0 = 1 + x / 64 -> 0 <= b0 ->
  0 <= b1 <= b0 * b0 -> 0 <= b2 <= b1 * b1 -> 0 <= b3 <= b2 * b2 ->
  0 <= b4 <= b3 * b3 -> 0 <= b5 <= b4 * b4 -> b6 <= b5 * b5 ->
  b6 <= exp x.
Proof.
  intros -> H0 H1 H2 H3 H4 H5 H6.
  pose proof (exp_ineq1_le (x / 64)) as E0.
  assert (E1 : b1 <= exp (x / 32)).
  { replace (x / 32) with (2 * (x / 64)) by field. rewrite exp_square.
    apply (square_lower (1 + x / 64)); lra. }
  assert (E2 : b2 <= exp (x / 16)).
  { replace (x / 16) with (2 * (x / 32)) by field. rewrite exp_square.
    apply (square_lower b1); lra. }
  assert (E3 : b3 <= exp (x / 8)).
  { replace (x / 8) with (2 * (x / 16)) by field. rewrite exp_square.
    apply (square_lower b2); lra. }
  assert (E4 : b4 <= exp (x / 4)).
  { replace (x / 4) with (2 * (x / 8)) by field. rewrite exp_square.
    apply (square_lower b3); lra. }
  assert (E5 : b5 <= exp (x / 2)).
  { replace (x / 2) with (2 * (x / 4)) by field. rewrite exp_square.
    apply (square_lower b4); lra. }
  replace x with (2 * (x / 2)) by field. rewrite exp_square.
  apply (square_lower b5); lra.
Qed.

Lemma ln_5_bounds : 155 / 100 <= ln 5 < 165 / 100.
Proof.
  split.
  - (* exp 1.55 <= 5, from a lower bound of exp (-1.55) *)
    assert (H : 10407 / 50000 <= exp (- (155 / 100))).
    { apply (exp_lower_64 _ (1249 / 1280) (47607 / 50000) (90657 / 100000)
               (41093 / 50000) (13509 / 20000) (45623 / 100000)); lra. }
    rewrite exp_Ropp in H.
    pose proof (exp_pos (155 / 100)) as Hp.
    assert (Hle : exp (155 / 100) <= 5).
    { apply Rnot_lt_le. intros Hgt.
      assert (/ exp (155 / 100) < / 5) by (apply Rinv_lt_contravar; nra).
      lra. }
    rewrite <- (ln_exp (155 / 100)). apply ln_le_compat; lra.
  - assert (H : 254869 / 50000 <= exp (165 / 100)).
    { apply (exp_lower_64 _ (1313 / 1280) (52611 / 50000) (27679 / 25000)
               (6129 / 5000) (75129 / 50000) (112887 / 50000)); lra. }
    rewrite <- (ln_exp (165 / 100)). apply ln_increasing; lra.
Qed.

(** ** The RTT-based cost ([calculateNewCost]) *)

Lemma sumRtt_nonneg (h : list RttMeasurement) :
  Forall (fun m => (0 <= rtt m)%Z) h -> (0 <= sumRtt h)%Z.
Proof. induction 1; simpl; lia. Qed.

Lemma sumRtt_const (d : Z) (h : list RttMeasurement) :
  Forall (fun m => rtt m = d) h -> sumRtt h = (d * Z.of_nat (length h))%Z.
Proof. induction 1 as [|m h Hm _ IH]; simpl; [lia|]. rewrite IH, Hm. lia. Qed.

(** The integer the code feeds into the logarithm is the mean of the
    history, in milliseconds, rounded down. *)
Lemma avgRttMs_floor (l : OutgoingLinkState) :
  rttHistory l <> [] ->
  Forall (fun m => (0 <= rtt m)%Z) (rttHistory l) ->
  toMilliseconds (getAverageRtt l) = Zfloor (meanRttMs (rttHistory l)).
Proof.
  intros Hne Hpos. unfold getAverageRtt, toMilliseconds, meanRttMs.
  destruct (rttHistory l) as [|m h] eqn:Hh; [done|].
  set (s := sumRtt (m :: h)). set (k := Z.of_nat (length (m :: h))).
  assert (Hs : (0 <= s)%Z) by (apply sumRtt_nonneg; exact Hpos).
  assert (Hk : (0 < k)%Z) by (unfold k; simpl; lia).
  rewrite (Z.quot_div_nonneg s k) by lia.
  rewrite Z.quot_div_nonneg; [|apply Z.div_pos; lia|lia].
  rewrite Z.div_div by lia.
  replace (IZR s / 1000000 / IZR k) with (IZR s / IZR (k * 1000000)).
  - symmetry. apply Zfloor_div. lia.
  - rewrite mult_IZR. field. apply not_0_IZR. lia.
Qed.

Lemma avgRttMs_const (d : Z) (l : OutgoingLinkState) :
  rttHistory l <> [] ->
  Forall (fun m => rtt m = milliseconds d) (rttHistory l) ->
  toMilliseconds (getAverageRtt l) = d.
Proof.
  intros Hne Hall. unfold getAverageRtt, toMilliseconds.
  destruct (rttHistory l) as [|m h] eqn:Hh; [done|].
  rewrite (sumRtt_const (milliseconds d)) by exact Hall.
  rewrite Z.quot_mul by (simpl; lia).
  unfold milliseconds. apply Z.quot_mul. lia.
Qed.

Lemma round_10_ln5 : round (Rmin (10 * (1 + ln (1 + 400 / 100))) (10 * 5)) = 26.
Proof.
  replace (1 + 400 / 100) with 5 by lra.
  pose proof ln_5_bounds as [Hlo Hhi].
  rewrite Rmin_left by lra.
  apply (round_nonneg_eq _ 26); lra.
Qed.

Lemma lookup_managerWith (l : OutgoingLinkState) :
  m_outgoingLinks (managerWith l) !! neighborA = Some l.
Proof. unfold managerWith. simpl. apply lookup_singleton_eq. Qed.

(** C1, counterexample: with samples of 1 ms and 2 ms the code takes the
    logarithm at the truncated average 1 ms and returns 1010, while the
    formula over the mean 1.5 ms gives 1015. *)
Lemma calculateNewCost_not_of_mean :
  calculateNewCost exampleConf (managerWith linkMean15) neighborA = 1010
  /\ rttCostOfMean exampleConf linkMean15 = 1015
  /\ calculateNewCost exampleConf (managerWith linkMean15) neighborA
     <> rttCostOfMean exampleConf linkMean15.
Proof.
  assert (H1 : calculateNewCost exampleConf (managerWith linkMean15) neighborA = 1010).
  { unfold calculateNewCost. rewrite lookup_managerWith. simpl.
    replace (toMilliseconds (getAverageRtt linkMean15)) with 1%Z by reflexivity.
    pose proof (ln_1p_lower (1 / 100) ltac:(lra)) as Hlo.
    pose proof (ln_1p_upper (1 / 100) ltac:(lra)) as Hhi.
    replace (1 / 100 / (1 + 1 / 100)) with (1 / 101) in Hlo by lra.
    rewrite Rmin_left by lra.
    apply (round_nonneg_eq _ 1010); lra. }
  assert (H2 : rttCostOfMean exampleConf linkMean15 = 1015).
  { unfold rttCostOfMean, meanRttMs. simpl.
    change (milliseconds 1 + (milliseconds 2 + 0))%Z with 3000000%Z.
    change (Z.of_nat 2) with 2%Z.
    replace (3000000 / 1000000 / 2 / 100) with (15 / 1000) by lra.
    pose proof (ln_1p_lower (15 / 1000) ltac:(lra)) as Hlo.
    pose proof (ln_1p_upper (15 / 1000) ltac:(lra)) as Hhi.
    replace (15 / 1000 / (1 + 15 / 1000)) with (15 / 1015) in Hlo by lra.
    rewrite Rmin_left by lra.
    apply (round_nonneg_eq _ 1015); lra. }
  split; [exact H1|]. split; [exact H2|]. rewrite H1, H2. lra.
Qed.

(** C1 (amended): [calculateNewCost] returns the sentinel -1 for a neighbor
    that is absent or INACTIVE, the original cost for an ACTIVE neighbor
    without samples, and otherwise
    [round (min (original × (1 + ln (1 + avg_ms / 100))) (original × multiplier))]
    where [avg_ms] is the mean of the history in milliseconds rounded down to
    a whole number; with original cost 10, multiplier 5 and every sample at
    400 ms the result is 26. *)
Theorem calculateNewCost_spec (cfg : ConfParameter) (st : LinkCostManager) (n : Name) :
  (m_outgoingLinks st !! n = None -> calculateNewCost cfg st n = NOT_PARTICIPATING)
  /\ (forall l, m_outgoingLinks st !! n = Some l -> status l = STATUS_INACTIVE ->
        calculateNewCost cfg st n = NOT_PARTICIPATING)
  /\ (forall l, m_outgoingLinks st !! n = Some l -> status l = STATUS_ACTIVE ->
        rttHistory l = [] -> calculateNewCost cfg st n = originalCost l)
  /\ (forall l, m_outgoingLinks st !! n = Some l -> status l = STATUS_ACTIVE ->
        rttHistory l <> [] ->
        Forall (fun m => (0 <= rtt m)%Z) (rttHistory l) ->
        calculateNewCost cfg st n =
          round (Rmin (originalCost l
                       * (1 + ln (1 + IZR (Zfloor (meanRttMs (rttHistory l))) / 100)))
                      (originalCost l * maxCostMultiplier cfg)))
  /\ (forall l, m_outgoingLinks st !! n = Some l -> status l = STATUS_ACTIVE ->
        rttHistory l <> [] ->
        Forall (fun m => rtt m = milliseconds 400) (rttHistory l) ->
        originalCost l = 10 -> maxCostMultiplier cfg = 5 ->
        calculateNewCost cfg st n = 26).
Proof.
  unfold calculateNewCost. repeat split.
  - intros ->. reflexivity.
  - intros l -> Hs. rewrite decide_True by exact Hs. reflexivity.
  - intros l -> Hs Hh. rewrite decide_False by (rewrite Hs; discriminate).
    rewrite Hh. reflexivity.
  - intros l -> Hs Hne Hpos. rewrite decide_False by (rewrite Hs; discriminate).
    rewrite <- (avgRttMs_floor l Hne Hpos).
    destruct (rttHistory l); [done | reflexivity].
  - intros l -> Hs Hne Hall Ho Hm. rewrite decide_False by (rewrite Hs; discriminate).
    rewrite (avgRttMs_const 400 l Hne Hall), Ho, Hm.
    destruct (rttHistory l); [done|]. apply round_10_ln5.
Qed.

Lemma calculateNewCost_spec_witness :
  calculateNewCost exampleConf (managerWith link400) neighborA = 26.
Proof.
  apply (proj2 (proj2 (proj2 (proj2
           (calculateNewCost_spec exampleConf (managerWith link400) neighborA)))) link400).
  - apply lookup_managerWith.
  - reflexivity.
  - discriminate.
  - repeat constructor.
  - reflexivity.
  - reflexivity.
Defined.

(** ** The cost preview *)

Lemma rttFactor_range (a : option R) : 1 <= rttFactor a <= 2.
Proof. unfold rttFactor. destruct a as [a|]; repeat case_decide; lra. Qed.

Lemma bwFactor_range (u : option R) : 1 <= bwFactor u <= 2.
Proof. unfold bwFactor. destruct u as [u|]; repeat case_decide; lra. Qed.

Lemma reliabilityFactor_range (p : option R) : 1 <= reliabilityFactor p <= 2.
Proof. unfold reliabilityFactor. destruct p as [p|]; repeat case_decide; lra. Qed.

Lemma spectrumFactor_range (s : option R) : 1 <= spectrumFactor s <= 2.
Proof. unfold spectrumFactor. destruct s as [s|]; repeat case_decide; lra. Qed.

Lemma compositeFactor_range (l : OutgoingLinkState) (ext : option ExternalMetrics) :
  1 <= compositeFactor defaultCostConfig l ext <= 2.
Proof.
  unfold compositeFactor, defaultCostConfig. simpl.
  match goal with |- context [rttFactor ?a] => pose proof (rttFactor_range a) end.
  pose proof (bwFactor_range (ext ≫= bandwidthUtilization)).
  pose proof (reliabilityFactor_range (ext ≫= packetLoss)).
  pose proof (spectrumFactor_range (ext ≫= spectrumStrength)).
  lra.
Qed.

(** C9: for a neighbor of the store, whatever metrics and RTT data are
    present, each of the four preview factors lies in [1, 2]; the preview
    cost is [round (original × (0.4·f_rtt + 0.3·f_bw + 0.2·f_loss + 0.1·f_spec))];
    for a (non-negative, integral) original cost it lies between the
    original cost and twice the original cost; and with utilization 0.65,
    packet loss 0.02, spectrum -45 dBm, no RTT data and original cost 12
    the preview is 15. *)
Theorem preview_spec (st : LinkCostManager) (externalMetrics : gmap Name ExternalMetrics)
    (n : Name) (l : OutgoingLinkState) :
  m_outgoingLinks st !! n = Some l ->
  let ext := externalMetrics !! n in
  let f_rtt := rttFactor (match rttHistory l with
                          | [] => None
                          | _ => Some (IZR (toMilliseconds (getAverageRtt l)))
                          end) in
  let f_bw := bwFactor (ext ≫= bandwidthUtilization) in
  let f_loss := reliabilityFactor (ext ≫= packetLoss) in
  let f_spec := spectrumFactor (ext ≫= spectrumStrength) in
  let preview := calculateMultiDimensionalCostPreview defaultCostConfig st externalMetrics n in
  (1 <= f_rtt <= 2 /\ 1 <= f_bw <= 2 /\ 1 <= f_loss <= 2 /\ 1 <= f_spec <= 2)
  /\ preview = Some (round (originalCost l
                * (4 / 10 * f_rtt + 3 / 10 * f_bw + 2 / 10 * f_loss + 1 / 10 * f_spec)))
  /\ (forall k : Z, (0 <= k)%Z -> originalCost l = IZR k ->
        exists p, preview = Some p /\ IZR k <= p <= 2 * IZR k)
  /\ (rttHistory l = [] -> ext = Some metricsS4 -> originalCost l = 12 ->
        preview = Some 15).
Proof.
  intros Hl ext f_rtt f_bw f_loss f_spec preview.
  assert (Hp : preview = Some (round (originalCost l * compositeFactor defaultCostConfig l ext))).
  { unfold preview, calculateMultiDimensionalCostPreview. rewrite Hl. reflexivity. }
  split; [|split; [|split]].
  - repeat split; first [apply rttFactor_range | apply bwFactor_range
                        | apply reliabilityFactor_range | apply spectrumFactor_range].
  - exact Hp.
  - intros k Hk Ho. eexists. split; [exact Hp|].
    pose proof (compositeFactor_range l ext) as Hc.
    assert (H0 : 0 <= IZR k) by (apply IZR_le; lia).
    rewrite Ho. split.
    + rewrite <- (round_IZR k) at 1. apply round_mono. nra.
    + replace (2 * IZR k) with (IZR (2 * k)) by (rewrite mult_IZR; reflexivity).
      rewrite <- (round_IZR (2 * k)). apply round_mono. rewrite mult_IZR. nra.
  - intros Hh He Ho. rewrite Hp. f_equal.
    unfold compositeFactor. rewrite Hh, He, Ho. simpl.
    unfold rttFactor, bwFactor, reliabilityFactor, spectrumFactor.
    repeat (rewrite decide_False by lra).
    apply (round_nonneg_eq _ 15); lra.
Qed.

Lemma preview_spec_witness :
  calculateMultiDimensionalCostPreview defaultCostConfig (managerWith link12)
    {[ neighborA := metricsS4 ]} neighborA = Some 15.
Proof.
  apply (proj2 (proj2 (proj2
           (preview_spec (managerWith link12) {[ neighborA := metricsS4 ]} neighborA link12
                         (lookup_managerWith link12)))));
    [reflexivity | apply lookup_singleton_eq | reflexivity].
Defined.

(** ** Probe results and the pending-measurement map *)

Lemma updateNeighborCost_pending st n c env :
  m_pendingMeasurements (updateNeighborCost st n c env) = m_pendingMeasurements st.
Proof. unfold updateNeighborCost. repeat case_match; reflexivity. Qed.

(** In every branch [handleRttResponse] leaves the pending map without the
    sequence number it was called for. *)
Lemma handleRttResponse_pending cfg st n seq sendTime env :
  m_pendingMeasurements (handleRttResponse cfg st n seq sendTime env)
  = delete seq (m_pendingMeasurements st).
Proof.
  unfold handleRttResponse.
  destruct (m_pendingMeasurements st !! seq) eqn:Hseq;
    [|symmetry; apply delete_id; exact Hseq].
  repeat case_match; try reflexivity; apply updateNeighborCost_pending.
Qed.

Lemma handleRttTimeout_pending st n seq :
  m_pendingMeasurements (handleRttTimeout st n seq) = delete seq (m_pendingMeasurements st).
Proof.
  unfold handleRttTimeout.
  destruct (m_pendingMeasurements st !! seq) eqn:Hseq;
    [reflexivity | symmetry; apply delete_id; exact Hseq].
Qed.

Lemma handleRttResponse_stale cfg st n seq sendTime env :
  m_pendingMeasurements st !! seq = None ->
  handleRttResponse cfg st n seq sendTime env = st.
Proof. intros H. unfold handleRttResponse. rewrite H. reflexivity. Qed.

Lemma handleRttTimeout_stale st n seq :
  m_pendingMeasurements st !! seq = None -> handleRttTimeout st n seq = st.
Proof. intros H. unfold handleRttTimeout. rewrite H. reflexivity. Qed.

(** C10: a probe response or timeout whose sequence number is not in the
    pending-measurement map leaves the whole state of the manager (every
    link state, the pending map, the adjacency list) unchanged; and since
    handling a response or a timeout removes its sequence number, any
    further response or timeout for that number has no effect. *)
Theorem stale_probe_result_ignored (cfg : ConfParameter) (st : LinkCostManager)
    (n : Name) (seq sendTime : Z) (env : Env) :
  (m_pendingMeasurements st !! seq = None ->
     handleRttResponse cfg st n seq sendTime env = st
     /\ handleRttTimeout st n seq = st)
  /\ (forall st1 n' sendTime' env',
        st1 = handleRttResponse cfg st n seq sendTime env \/ st1 = handleRttTimeout st n seq ->
        handleRttResponse cfg st1 n' seq sendTime' env' = st1
        /\ handleRttTimeout st1 n' seq = st1).
Proof.
  split.
  - intros H. split; [apply handleRttResponse_stale | apply handleRttTimeout_stale]; exact H.
  - intros st1 n' sendTime' env' Hst1.
    assert (Hgone : m_pendingMeasurements st1 !! seq = None).
    { destruct Hst1 as [-> | ->].
      - rewrite handleRttResponse_pending. apply lookup_delete_eq.
      - rewrite handleRttTimeout_pending. apply lookup_delete_eq. }
    split; [apply handleRttResponse_stale | apply handleRttTimeout_stale]; exact Hgone.
Qed.

Lemma stale_probe_result_ignored_witness :
  handleRttResponse exampleConf (managerWith link400) neighborA 7 0 (mkEnv 5 (fun _ => 0%Z))
  = managerWith link400
  /\ handleRttTimeout (managerWith link400) neighborA 7 = managerWith link400.
Proof.
  apply (proj1 (stale_probe_result_ignored exampleConf (managerWith link400) neighborA 7 0
                  (mkEnv 5 (fun _ => 0%Z)))).
  reflexivity.
Defined.

(** ** Delegation to a calculator *)

Lemma delegatedCost_cleared st n c :
  delegatedCost (clearLoadAwareCostCalculator st) n c = Some c.
Proof. reflexivity. Qed.

Lemma delegatedCost_throwing st n c calc :
  m_loadAwareCostCalculator st = Some calc ->
  (forall metrics, getLinkMetrics st n = Some metrics -> calc n c metrics = Threw) ->
  delegatedCost st n c = Some c.
Proof.
  intros Hc Hthrow. unfold delegatedCost. rewrite Hc.
  destruct (getLinkMetrics st n) as [metrics|] eqn:Hm; [|reflexivity].
  rewrite (Hthrow metrics eq_refl). reflexivity.
Qed.

Lemma delegatedCost_throwingOther st n c calc metrics :
  m_loadAwareCostCalculator st = Some calc ->
  getLinkMetrics st n = Some metrics -> calc n c metrics = ThrewOther ->
  delegatedCost st n c = None.
Proof.
  intros Hc Hm Hthrow. unfold delegatedCost. rewrite Hc, Hm, Hthrow. reflexivity.
Qed.

(** [updateNeighborCost] depends on the registered calculator only through
    the delegated cost. *)
Lemma updateNeighborCost_calculator st n c env calc :
  m_loadAwareCostCalculator st = Some calc ->
  delegatedCost st n c = Some c ->
  updateNeighborCost st n c env
  = setLoadAwareCostCalculator
      (updateNeighborCost (clearLoadAwareCostCalculator st) n c env) calc.
Proof.
  intros Hc Hd. unfold updateNeighborCost. rewrite Hd, delegatedCost_cleared.
  destruct st; simpl in *; subst.
  repeat case_match; reflexivity.
Qed.

(** An exception that passes the [catch] leaves [updateNeighborCost] before
    anything is written. *)
Lemma updateNeighborCost_escape st n c env :
  delegatedCost st n c = None -> updateNeighborCost st n c env = st.
Proof.
  intros Hd. unfold updateNeighborCost. rewrite Hd. repeat case_match; reflexivity.
Qed.

(** A call that returns has a final cost whenever it got as far as the
    calculator. *)
Lemma updateNeighborCostThrows_iff st n c :
  updateNeighborCostThrows st n c = true
  <-> (exists a l, m_adjacencyList st !! n = Some a /\ m_outgoingLinks st !! n = Some l
                   /\ status l <> STATUS_INACTIVE)
      /\ delegatedCost st n c = None.
Proof.
  unfold updateNeighborCostThrows.
  destruct (m_adjacencyList st !! n) as [a|];
    [|split; [discriminate | intros [(? & ? & ? & _) _]; discriminate]].
  destruct (m_outgoingLinks st !! n) as [l|];
    [|split; [discriminate | intros [(? & ? & _ & ? & _) _]; discriminate]].
  destruct (decide (status l = STATUS_INACTIVE)) as [Hs|Hs].
  { split; [discriminate | intros [(? & l' & _ & [= <-] & Hn) _]; contradiction]. }
  destruct (delegatedCost st n c).
  - split; [discriminate | intros [_ ?]; discriminate].
  - split; [|reflexivity]. intros _. split; [|reflexivity]. by exists a, l.
Qed.

Lemma sigmoid_range (z : R) : 0 < 1 / (1 + exp (- z)) < 1.
Proof.
  pose proof (exp_pos (- z)) as He.
  assert (H1 : 0 < / (1 + exp (- z))) by (apply Rinv_0_lt_compat; lra).
  assert (H2 : / (1 + exp (- z)) < 1).
  { rewrite <- Rinv_1. apply Rinv_lt_contravar; lra. }
  lra.
Qed.

Lemma predict_range (m : LinearRegressionModel.t) (f : list R) :
  0 < LinearRegressionModel.predict m f < 1.
Proof. apply sigmoid_range. Qed.

Lemma predictWithFixedWeights_range (f : list R) : 0 <= predictWithFixedWeights f <= 1.
Proof.
  unfold predictWithFixedWeights. split; [apply Rmax_l|].
  apply Rmax_lub; [lra | apply Rmin_r].
Qed.

Lemma mlPrediction_range (ml : MLAdaptiveCalculator) (f : list R) :
  0 <= mlPrediction ml f <= 1.
Proof.
  unfold mlPrediction. destruct (m_isModelReady ml).
  - pose proof (predict_range (m_model ml) f). lra.
  - apply predictWithFixedWeights_range.
Qed.

Lemma predictLinkQuality_cost ml n metrics c :
  fst (predictLinkQuality ml n metrics c)
  = lm_originalCost metrics * (1 + mlPrediction ml (extractCoreFeatures ml n c)).
Proof. reflexivity. Qed.

Lemma zeroMean_prediction :
  registeredCalculator calculatorZeroMean midnight neighborA 26 metrics10 = Returned 15.
Proof.
  unfold registeredCalculator. rewrite predictLinkQuality_cost. f_equal.
  unfold mlPrediction, extractCoreFeatures, calculateRttTrend,
    calculateRttVariationCoefficient, calculateSuccessRate, calculateLoadIndicator.
  change (m_rttHistory calculatorZeroMean) with ({[ neighborA := [0; 0; 0] ]} : gmap Name (list R)).
  rewrite lookup_singleton_eq. simpl.
  unfold sumR. simpl.
  rewrite (decide_True (P := (_ <= 0))) by lra.
  rewrite !filter_cons_True by lra. rewrite filter_nil.
  unfold predictWithFixedWeights, FIXED_WEIGHTS. simpl.
  replace ((1 + 1 + 1) / (1 + 1 + 1)) with 1 by lra.
  rewrite Rmin_left by lra. rewrite Rmax_right by lra. lra.
Qed.

(** The manager of the two counterexamples to C6: the link of original cost
    10 with three samples of 400 ms, and a calculator registered that throws
    an object that is not a [std::exception]. *)
Lemma foreignThrow_no_update :
  let st := setLoadAwareCostCalculator (managerWith link400) foreignThrowingCalculator in
  let env := mkEnv (seconds 60) (fun _ => 0%Z) in
  updateNeighborCostThrows st neighborA 26 = true
  /\ updateNeighborCost st neighborA 26 env = st
  /\ (linkCost <$> m_adjacencyList (updateNeighborCost st neighborA 26 env) !! neighborA)
     = Some 10
  /\ (linkCost <$> m_adjacencyList
                     (updateNeighborCost (clearLoadAwareCostCalculator st) neighborA 26 env)
                   !! neighborA)
     = Some 26.
Proof.
  simpl.
  assert (Hd : delegatedCost
                 (setLoadAwareCostCalculator (managerWith link400) foreignThrowingCalculator)
                 neighborA 26 = None).
  { unfold delegatedCost, getLinkMetrics, setLoadAwareCostCalculator, managerWith. simpl.
    rewrite lookup_singleton_eq. reflexivity. }
  split; [|split; [|split]].
  - unfold updateNeighborCostThrows. rewrite Hd.
    unfold setLoadAwareCostCalculator, managerWith. simpl.
    rewrite !lookup_singleton_eq. reflexivity.
  - by apply updateNeighborCost_escape.
  - rewrite updateNeighborCost_escape by exact Hd.
    unfold setLoadAwareCostCalculator, managerWith. simpl.
    rewrite lookup_singleton_eq. reflexivity.
  - unfold updateNeighborCost. rewrite delegatedCost_cleared.
    unfold clearLoadAwareCostCalculator, setLoadAwareCostCalculator, managerWith. simpl.
    rewrite !lookup_singleton_eq. simpl.
    assert (Hr : ratio_lt (Rabs (26 - 10)) 10 (5 / 100) = false).
    { unfold ratio_lt. rewrite Rabs_right by lra.
      rewrite decide_False by lra. apply bool_decide_eq_false_2. lra. }
    rewrite Hr. simpl. rewrite lookup_insert_eq. reflexivity.
Qed.

(** C6, counterexample: two inputs on which the claim fails.  A calculator
    that throws an object that is not a [std::exception] is not caught:
    [updateNeighborCost] is left by the exception and the adjacency keeps
    the cost 10, while without the calculator the candidate 26 is written.
    And on a history whose mean is zero (the case the feature code handles
    as anomalous) the ML calculator, handed the RTT-based cost 26 for a link
    of original cost 10, returns 15. *)
Lemma calculator_failure_not_covered :
  (let st := setLoadAwareCostCalculator (managerWith link400) foreignThrowingCalculator in
   let env := mkEnv (seconds 60) (fun _ => 0%Z) in
   updateNeighborCostThrows st neighborA 26 = true
   /\ updateNeighborCost st neighborA 26 env = st
   /\ (linkCost <$> m_adjacencyList (updateNeighborCost st neighborA 26 env) !! neighborA)
      <> (linkCost <$> m_adjacencyList
                        (updateNeighborCost (clearLoadAwareCostCalculator st)
                                            neighborA 26 env) !! neighborA))
  /\ registeredCalculator calculatorZeroMean midnight neighborA 26 metrics10 = Returned 15
  /\ Returned 15 <> Returned 26.
Proof.
  pose proof foreignThrow_no_update as (H1 & H2 & H3 & H4). cbv zeta in *.
  split; [split; [exact H1 | split; [exact H2|]]|].
  - rewrite H3, H4. intros [= Hx]. lra.
  - split; [exact zeroMean_prediction|]. intros H; injection H; lra.
Qed.

(** C6 (amended): when a calculator is registered and [updateNeighborCost]
    delegates to it, a [std::exception] thrown inside the calculator makes
    the final cost the RTT-based candidate and the update proceeds exactly
    as without a calculator; an exception of any other type is not caught:
    it leaves [updateNeighborCost] (whenever the neighbor is known and not
    INACTIVE, so that the calculator is reached) and nothing is updated.
    The ML calculator has no anomaly path: on every input it returns
    [original × (1 + ŷ)] with [0 <= ŷ <= 1], whatever RTT-based cost it is
    handed, and this value is never non-finite: it lies between the
    original cost and twice the original cost. *)
Theorem calculator_fallback (st : LinkCostManager) (n : Name) (c : R) (env : Env)
    (calc : Calculator) (ml : MLAdaptiveCalculator) (clk : Clock) (metrics : LinkMetrics) :
  (m_loadAwareCostCalculator st = Some calc ->
   ((forall m, getLinkMetrics st n = Some m -> calc n c m = Threw) ->
    delegatedCost st n c = Some c
    /\ updateNeighborCostThrows st n c = false
    /\ updateNeighborCost st n c env
       = setLoadAwareCostCalculator
           (updateNeighborCost (clearLoadAwareCostCalculator st) n c env) calc)
   /\ (forall m, getLinkMetrics st n = Some m -> calc n c m = ThrewOther ->
       delegatedCost st n c = None
       /\ updateNeighborCost st n c env = st
       /\ (forall a l, m_adjacencyList st !! n = Some a -> m_outgoingLinks st !! n = Some l ->
                       status l <> STATUS_INACTIVE ->
                       updateNeighborCostThrows st n c = true)))
  /\ (let y := mlPrediction ml (extractCoreFeatures ml n clk) in
      0 <= y <= 1
      /\ (forall rttBasedCost,
            registeredCalculator ml clk n rttBasedCost metrics
            = Returned (lm_originalCost metrics * (1 + y)))
      /\ (0 <= lm_originalCost metrics ->
          lm_originalCost metrics <= lm_originalCost metrics * (1 + y)
                                  <= 2 * lm_originalCost metrics)).
Proof.
  split.
  - intros Hc. split.
    + intros Hthrow.
      pose proof (delegatedCost_throwing st n c calc Hc Hthrow) as Hd.
      split; [exact Hd|]. split; [|apply updateNeighborCost_calculator; assumption].
      destruct (updateNeighborCostThrows st n c) eqn:Ht; [|reflexivity].
      apply updateNeighborCostThrows_iff in Ht as [_ Ht]. congruence.
    + intros m Hm Hthrow.
      pose proof (delegatedCost_throwingOther st n c calc m Hc Hm Hthrow) as Hd.
      split; [exact Hd|]. split; [by apply updateNeighborCost_escape|].
      intros a l Ha Hl Hs. apply updateNeighborCostThrows_iff.
      split; [by exists a, l | exact Hd].
  - intros y. pose proof (mlPrediction_range ml (extractCoreFeatures ml n clk)) as Hy.
    fold y in Hy. split; [exact Hy|]. split.
    + intros rttBasedCost. unfold registeredCalculator.
      rewrite predictLinkQuality_cost. reflexivity.
    + intros Ho. nra.
Qed.

Lemma calculator_fallback_witness :
  (delegatedCost (setLoadAwareCostCalculator (managerWith link400) throwingCalculator)
                 neighborA 26 = Some 26
   /\ updateNeighborCostThrows
        (setLoadAwareCostCalculator (managerWith link400) throwingCalculator)
        neighborA 26 = false
   /\ updateNeighborCost (setLoadAwareCostCalculator (managerWith link400) throwingCalculator)
                         neighborA 26 (mkEnv (seconds 60) (fun _ => 0%Z))
      = setLoadAwareCostCalculator
          (updateNeighborCost
             (clearLoadAwareCostCalculator
                (setLoadAwareCostCalculator (managerWith link400) throwingCalculator))
             neighborA 26 (mkEnv (seconds 60) (fun _ => 0%Z))) throwingCalculator)
  /\ updateNeighborCostThrows
       (setLoadAwareCostCalculator (managerWith link400) foreignThrowingCalculator)
       neighborA 26 = true.
Proof.
  split.
  - apply (proj1 (proj1 (calculator_fallback
                    (setLoadAwareCostCalculator (managerWith link400) throwingCalculator)
                    neighborA 26 (mkEnv (seconds 60) (fun _ => 0%Z)) throwingCalculator
                    calculatorZeroMean midnight metrics10) eq_refl)).
    intros m _. reflexivity.
  - assert (Hm : exists m,
              getLinkMetrics
                (setLoadAwareCostCalculator (managerWith link400) foreignThrowingCalculator)
                neighborA = Some m).
    { unfold getLinkMetrics, setLoadAwareCostCalculator, managerWith. simpl.
      rewrite lookup_singleton_eq. eexists. reflexivity. }
    destruct Hm as [m Hm].
    apply (proj2 (proj2 (proj2 (proj1 (calculator_fallback
                    (setLoadAwareCostCalculator (managerWith link400) foreignThrowingCalculator)
                    neighborA 26 (mkEnv (seconds 60) (fun _ => 0%Z)) foreignThrowingCalculator
                    calculatorZeroMean midnight metrics10) eq_refl) m Hm eq_refl))
             (mkAdjacent (status link400) (currentCost link400) (originalCost link400)
                         (timeoutCount link400)) link400).
    + apply lookup_singleton_eq.
    + apply lookup_singleton_eq.
    + discriminate.
Defined.

(** ** The prediction of the ML calculator *)

Lemma predictWithFixedWeights5 (x0 x1 x2 x3 x4 : R) :
  predictWithFixedWeights [x0; x1; x2; x3; x4]
  = Rmax 0 (Rmin (4 / 10 * x0 + 3 / 10 * x1 + 2 / 10 * x2 + 1 / 10 * x3) 1).
Proof.
  unfold predictWithFixedWeights, FIXED_WEIGHTS. simpl. f_equal. f_equal. ring.
Qed.

Lemma predict5 (m : LinearRegressionModel.t) (w0 w1 w2 w3 w4 x0 x1 x2 x3 x4 : R) :
  LinearRegressionModel.m_weights m = [w0; w1; w2; w3; w4] ->
  LinearRegressionModel.predict m [x0; x1; x2; x3; x4]
  = 1 / (1 + exp (- (LinearRegressionModel.m_bias m
                     + w0 * x0 + w1 * x1 + w2 * x2 + w3 * x3 + w4 * x4))).
Proof.
  intros Hw. unfold LinearRegressionModel.predict, LinearRegressionModel.linear.
  rewrite Hw. reflexivity.
Qed.

Lemma mlStep_ready (ml : MLAdaptiveCalculator) (call : MLCall) :
  isFeedback call = false -> m_isModelReady (mlStep ml call) = m_isModelReady ml.
Proof.
  destruct call; simpl; try discriminate; intros _; [reflexivity|].
  unfold predictLinkQuality. simpl. destruct (lm_currentRtt metrics); reflexivity.
Qed.

Lemma mlRun_ready (calls : list MLCall) (ml : MLAdaptiveCalculator) :
  forallb (fun call => negb (isFeedback call)) calls = true ->
  m_isModelReady (mlRun ml calls) = m_isModelReady ml.
Proof.
  revert ml. induction calls as [|call calls IH]; intros ml H; [reflexivity|].
  simpl in H. apply andb_prop in H as [Hc Hr].
  unfold mlRun. simpl. fold (mlRun (mlStep ml call) calls).
  rewrite IH by exact Hr. apply mlStep_ready.
  destruct (isFeedback call); [discriminate | reflexivity].
Qed.

(** C7: the prediction of a ready model is the logistic function of the
    bias plus the weighted feature sum and lies strictly between 0 and 1;
    as long as the model is not ready, which is the case before any
    feedback has been received, the prediction is the fixed combination
    0.4/0.3/0.2/0.1 of the first four features clamped to [0, 1]; the cost
    returned is the original cost times one plus the prediction. *)
Theorem prediction_spec (ml : MLAdaptiveCalculator) (n : Name) (metrics : LinkMetrics)
    (c : Clock) :
  let x0 := calculateRttTrend ml n in
  let x1 := calculateRttVariationCoefficient ml n in
  let x2 := calculateSuccessRate ml n in
  let x3 := calculateLoadIndicator ml n in
  let x4 := getTimeFeature (m_patternLearner ml) n c in
  let cost := fst (predictLinkQuality ml n metrics c) in
  (forall f, 0 < LinearRegressionModel.predict (m_model ml) f < 1)
  /\ (forall w0 w1 w2 w3 w4,
        LinearRegressionModel.m_weights (m_model ml) = [w0; w1; w2; w3; w4] ->
        LinearRegressionModel.predict (m_model ml) [x0; x1; x2; x3; x4]
        = 1 / (1 + exp (- (LinearRegressionModel.m_bias (m_model ml)
                           + w0 * x0 + w1 * x1 + w2 * x2 + w3 * x3 + w4 * x4))))
  /\ (m_isModelReady ml = true ->
        cost = lm_originalCost metrics
               * (1 + LinearRegressionModel.predict (m_model ml) [x0; x1; x2; x3; x4]))
  /\ (m_isModelReady ml = false ->
        let y := Rmax 0 (Rmin (4 / 10 * x0 + 3 / 10 * x1 + 2 / 10 * x2 + 1 / 10 * x3) 1) in
        0 <= y <= 1 /\ cost = lm_originalCost metrics * (1 + y))
  /\ (forall c0 calls,
        forallb (fun call => negb (isFeedback call)) calls = true ->
        m_isModelReady (mlRun (newCalculator c0) calls) = false).
Proof.
  intros x0 x1 x2 x3 x4 cost.
  split; [apply predict_range|].
  split; [intros; now apply predict5|].
  split; [|split].
  - intros Hr. unfold cost. rewrite predictLinkQuality_cost.
    unfold mlPrediction. rewrite Hr. reflexivity.
  - intros Hr y. unfold y. rewrite <- predictWithFixedWeights5 with (x4 := x4).
    split; [apply predictWithFixedWeights_range|].
    unfold cost. rewrite predictLinkQuality_cost.
    unfold mlPrediction. rewrite Hr. reflexivity.
  - intros c0 calls H. rewrite mlRun_ready by exact H. reflexivity.
Qed.

Lemma prediction_spec_witness :
  m_isModelReady
    (mlRun (newCalculator midnight)
           [CallCalculatePath; CallPredictLinkQuality neighborA metrics10 midnight]) = false.
Proof.
  apply (proj2 (proj2 (proj2 (proj2
           (prediction_spec calculatorZeroMean neighborA metrics10 midnight))))).
  reflexivity.
Defined.

(** ** Online learning *)

Lemma newModel_weights :
  LinearRegressionModel.m_weights (LinearRegressionModel.new FEATURE_COUNT)
  = [4 / 10; 3 / 10; 2 / 10; 1 / 10; 15 / 100].
Proof. reflexivity. Qed.

Lemma trackError_ema (s : Statistics) (e : R) :
  let alpha := 1 / IZR (Z.max 1 (predictionCount s)) in
  0 < alpha <= 1
  /\ trackError s e = (1 - alpha) * averagePredictionError s + alpha * e.
Proof.
  intros alpha. unfold alpha, trackError.
  destruct (decide (0 < predictionCount s)%Z) as [Hp|Hp].
  - rewrite Z.max_r by lia.
    assert (H1 : 1 <= IZR (predictionCount s)) by (apply IZR_le; lia).
    split.
    + split.
      * apply Rdiv_lt_0_compat; lra.
      * apply (Rmult_le_reg_r (IZR (predictionCount s))); [lra|].
        unfold Rdiv. rewrite Rmult_assoc, Rinv_l by lra. lra.
    + rewrite minus_IZR. field. lra.
  - rewrite Z.max_l by lia. split; [lra|]. field.
Qed.

Lemma shouldTriggerModelUpdate_iff (ml : MLAdaptiveCalculator) (e : R) (c : Clock) :
  shouldTriggerModelUpdate ml e c = true
  <-> m_adaptationThreshold ml < e
      \/ (MIN_UPDATE_INTERVAL < steady_now c - m_lastModelUpdate ml)%Z.
Proof.
  unfold shouldTriggerModelUpdate. destruct (decide (m_adaptationThreshold ml < e)).
  - split; [intros _; now left | reflexivity].
  - rewrite bool_decide_eq_true. split; [intros; now right | intros [?|?]; [lra | done]].
Qed.

Lemma extractCoreFeatures_length ml n c : length (extractCoreFeatures ml n c) = FEATURE_COUNT.
Proof. reflexivity. Qed.

(** The model, learning rate and statistics after a feedback are those
    [updateModelWithFeedback] computes from the features extracted before. *)
Lemma reportPathPerformance_learning ml n actual c :
  let ml1 := with_patternLearner (updatePattern (m_patternLearner ml) n actual c) ml in
  let ml2 := updateModelWithFeedback ml1 n (extractCoreFeatures ml n c) actual c in
  let ml' := reportPathPerformance ml n actual c in
  m_model ml' = m_model ml2 /\ m_learningRate ml' = m_learningRate ml2
  /\ m_statistics ml' = m_statistics ml2 /\ m_isModelReady ml' = m_isModelReady ml2
  /\ m_lastModelUpdate ml' = m_lastModelUpdate ml2.
Proof. repeat split. Qed.

Lemma updateModelWithFeedback_cases ml n x actual c :
  length x = FEATURE_COUNT ->
  let e := Rabs (actual - LinearRegressionModel.predict (m_model ml) x) in
  let s := with_averagePredictionError (trackError (m_statistics ml) e) (m_statistics ml) in
  let ml0 := with_statistics s ml in
  updateModelWithFeedback ml n x actual c =
    if shouldTriggerModelUpdate ml e c then
      let ml1 := adaptLearningRate ml0 in
      with_isModelReady true
        (with_lastModelUpdate (steady_now c)
           (with_statistics (with_modelUpdateCount (wrap64 (modelUpdateCount s + 1)) s)
              (with_model (LinearRegressionModel.updateOnline (m_model ml) x actual
                                                              (m_learningRate ml1)) ml1)))
    else ml0.
Proof.
  intros Hx e s ml0. unfold updateModelWithFeedback.
  rewrite decide_True by exact Hx. fold e. fold s. fold ml0.
  change (shouldTriggerModelUpdate ml0 e c) with (shouldTriggerModelUpdate ml e c).
  destruct (shouldTriggerModelUpdate ml e c); [|reflexivity].
  unfold adaptLearningRate. repeat case_decide; reflexivity.
Qed.

(** C8, counterexample: a feedback arriving exactly 30 s after the last
    model update, with a prediction error below the threshold, triggers no
    update. *)
Lemma no_update_after_exactly_30s :
  let ml := newCalculator midnight in
  let c := mkClock 0 0 (seconds 30) in
  let ml' := reportPathPerformance ml neighborA (1 / 2) c in
  (steady_now c - m_lastModelUpdate ml = seconds 30)%Z
  /\ m_model ml' = m_model ml
  /\ m_isModelReady ml' = false
  /\ modelUpdateCount (m_statistics ml') = 0%Z.
Proof.
  intros ml c ml'. split; [reflexivity|].
  destruct (reportPathPerformance_learning ml neighborA (1 / 2) c)
    as (Hm & _ & Hs & Hr & _).
  fold ml' in Hm, Hs, Hr. rewrite Hm, Hs, Hr.
  rewrite updateModelWithFeedback_cases by reflexivity.
  assert (Hno : shouldTriggerModelUpdate
                  (with_patternLearner (updatePattern (m_patternLearner ml) neighborA (1 / 2) c) ml)
                  (Rabs (1 / 2 - LinearRegressionModel.predict
                                   (m_model ml) (extractCoreFeatures ml neighborA c))) c
                = false).
  { apply not_true_is_false. rewrite shouldTriggerModelUpdate_iff.
    intros [H|H]; [|vm_compute in H; discriminate].
    revert H.
    assert (Hx : extractCoreFeatures ml neighborA c = [0; 0; 5 / 10; 0; 5 / 10])
      by reflexivity.
    rewrite Hx.
    rewrite (predict5 _ (4 / 10) (3 / 10) (2 / 10) (1 / 10) (15 / 100)) by reflexivity.
    change (LinearRegressionModel.m_bias (m_model ml)) with 0.
    set (z := 0 + 4 / 10 * 0 + 3 / 10 * 0 + 2 / 10 * (5 / 10) + 1 / 10 * 0 + 15 / 100 * (5 / 10)).
    assert (Hz : 0 <= z) by (unfold z; lra).
    pose proof (exp_pos (- z)) as He0.
    assert (He1 : exp (- z) <= 1).
    { rewrite <- exp_0. destruct (Req_dec z 0) as [-> | Hne].
      - rewrite Ropp_0. lra.
      - left. apply exp_increasing. lra. }
    assert (Hlo : / 2 <= / (1 + exp (- z))) by (apply Rinv_le_contravar; lra).
    pose proof (exp_ineq1_le (- z)) as He2.
    assert (Hhi : / (1 + exp (- z)) <= / (18 / 10))
      by (apply Rinv_le_contravar; unfold z in *; lra).
    simpl. unfold Rabs. case Rcase_abs; intros; lra. }
  simpl in Hno |- *. rewrite Hno. repeat split.
Qed.

(** C8 (amended): on a feedback [(neighbor, actual)], with [ε = actual − ŷ],
    the model is updated exactly when [|ε|] exceeds the adaptation threshold
    (0.2 by default) or more than 30 s have passed since the last update.
    The tracked average of [|ε|] moves as
    [avg ← (1 − α)·avg + α·|ε|] with [α = 1 / max(1, predictionCount)].
    A triggered update first adapts the learning rate (times 1.1, at most
    0.05, when the average exceeds 0.3; times 0.9, at least 0.001, when it is
    below 0.1) and then takes the gradient step [b ← b + η·ε],
    [wᵢ ← wᵢ + η·ε·xᵢ]; without a trigger the model and the learning rate
    stay as they are. *)
Theorem feedback_spec (ml : MLAdaptiveCalculator) (n : Name) (actual : R) (c : Clock) :
  length (LinearRegressionModel.m_weights (m_model ml)) = FEATURE_COUNT ->
  let x := extractCoreFeatures ml n c in
  let eps := actual - LinearRegressionModel.predict (m_model ml) x in
  let ml' := reportPathPerformance ml n actual c in
  let alpha := 1 / IZR (Z.max 1 (predictionCount (m_statistics ml))) in
  let avg' := averagePredictionError (m_statistics ml') in
  let eta := m_learningRate ml' in
  let triggered := m_adaptationThreshold ml < Rabs eps
                   \/ (seconds 30 < steady_now c - m_lastModelUpdate ml)%Z in
  m_adaptationThreshold (newCalculator c) = 2 / 10
  /\ (0 < alpha <= 1
      /\ avg' = (1 - alpha) * averagePredictionError (m_statistics ml) + alpha * Rabs eps)
  /\ (triggered ->
        eta = (if decide (3 / 10 < avg') then Rmin (5 / 100) (m_learningRate ml * (11 / 10))
               else if decide (avg' < 1 / 10) then Rmax (1 / 1000) (m_learningRate ml * (9 / 10))
               else m_learningRate ml)
        /\ LinearRegressionModel.m_bias (m_model ml')
           = LinearRegressionModel.m_bias (m_model ml) + eta * eps
        /\ LinearRegressionModel.m_weights (m_model ml')
           = zip_with (fun w xi => w + eta * eps * xi)
                      (LinearRegressionModel.m_weights (m_model ml)) x
        /\ m_isModelReady ml' = true
        /\ m_lastModelUpdate ml' = steady_now c)
  /\ (~ triggered ->
        m_model ml' = m_model ml /\ eta = m_learningRate ml
        /\ m_isModelReady ml' = m_isModelReady ml).
Proof.
  intros Hw x eps ml' alpha avg' eta triggered.
  destruct (reportPathPerformance_learning ml n actual c) as (Hm & Hl & Hs & Hr & Ht).
  fold ml' in Hm, Hl, Hs, Hr, Ht. fold x in Hm, Hl, Hs, Hr, Ht.
  pose proof (updateModelWithFeedback_cases
                (with_patternLearner (updatePattern (m_patternLearner ml) n actual c) ml)
                n x actual c (extractCoreFeatures_length ml n c)) as Hu.
  simpl in Hu. fold eps in Hu.
  change (shouldTriggerModelUpdate _ (Rabs eps) c)
    with (shouldTriggerModelUpdate ml (Rabs eps) c) in Hu.
  pose proof (shouldTriggerModelUpdate_iff ml (Rabs eps) c) as Hiff.
  fold triggered in Hiff.
  pose proof (trackError_ema (m_statistics ml) (Rabs eps)) as [Ha He].
  fold alpha in Ha, He.
  split; [reflexivity|].
  unfold avg', eta. rewrite Hm, Hl, Hs, Hr, Ht, Hu.
  destruct (shouldTriggerModelUpdate ml (Rabs eps) c) eqn:Htrig.
  - split; [split; [exact Ha|]|split].
    + unfold adaptLearningRate; simpl. rewrite <- He. repeat case_decide; reflexivity.
    + intros _. unfold adaptLearningRate; simpl.
      unfold LinearRegressionModel.updateOnline.
      rewrite (decide_True (P := length x = _)) by (rewrite Hw; reflexivity).
      fold eps. repeat case_decide; simpl; repeat split; reflexivity.
    + intros Hnt. exfalso. apply Hnt, Hiff. reflexivity.
  - split; [split; [exact Ha | exact He]|split].
    + intros Htr. apply Hiff in Htr. discriminate.
    + intros _. repeat split.
Qed.

Lemma feedback_spec_witness :
  m_adaptationThreshold (newCalculator midnight) = 2 / 10.
Proof.
  apply (feedback_spec (newCalculator midnight) neighborA (1 / 2) midnight).
  reflexivity.
Defined.

(** ** Hello timeouts and the pending-measurement map *)

Lemma onHelloTimeout_pending cfg st n k :
  m_pendingMeasurements (onHelloTimeout cfg st n k) = m_pendingMeasurements st.
Proof. unfold onHelloTimeout. repeat case_match; reflexivity. Qed.

(** The sibling handler does drop the pending probes of the neighbor. *)
Lemma onNeighborStatusChanged_inactive_pending cfg st n env l seq n' t :
  m_outgoingLinks st !! n = Some l ->
  m_pendingMeasurements (onNeighborStatusChanged cfg st n STATUS_INACTIVE env) !! seq
    = Some (n', t) ->
  n' <> n.
Proof.
  intros Hl. unfold onNeighborStatusChanged. rewrite Hl. simpl.
  unfold cancelPending. intros H. apply map_lookup_filter_Some in H as [_ H]. exact H.
Qed.

(** C2, the code at the failing input: after start-up, one probe to
    [neighborA] and a hello timeout that reaches the retry limit 3, the
    neighbor is INACTIVE with an empty history, and probe 1 is still in the
    pending-measurement map. *)
Theorem helloTimeout_leaves_pending :
  let st := run exampleConf (initialManager adjacencyA (quietEnv 0)) declineEvents in
  (interestRetryNumber exampleConf <= 3)%Z
  /\ (status <$> m_outgoingLinks st !! neighborA) = Some STATUS_INACTIVE
  /\ (rttHistory <$> m_outgoingLinks st !! neighborA) = Some []
  /\ m_pendingMeasurements st !! 1%Z = Some (neighborA, seconds 35).
Proof. vm_compute. repeat split; discriminate. Qed.

(** ** Shutdown *)

Lemma stop_outgoingLinks st env : m_outgoingLinks (stop st env) = m_outgoingLinks st.
Proof. unfold stop. destruct (m_isActive st); reflexivity. Qed.

Lemma restoreOriginalCosts_lookup links adj n a l :
  adj !! n = Some a -> links !! n = Some l ->
  linkCost <$> (restoreOriginalCosts links adj !! n) = Some (originalCost l).
Proof.
  intros Ha Hl. unfold restoreOriginalCosts. rewrite map_lookup_imap, Ha. simpl.
  rewrite Hl. case_decide as Hc; simpl; [rewrite Hc|]; reflexivity.
Qed.

(** What [stop] does on an active manager: no scheduled event and no pending
    measurement is left, every neighbor of the store has its adjacency's
    link cost back at the original cost, one adjacency-LSA build is
    requested, and the store itself is not written. *)
Lemma stop_active st env :
  m_isActive st = true ->
  let st' := stop st env in
  m_isActive st' = false
  /\ m_scheduler st' = []
  /\ m_pendingMeasurements st' = ∅
  /\ (forall n a l, m_adjacencyList st !! n = Some a -> m_outgoingLinks st !! n = Some l ->
        linkCost <$> (m_adjacencyList st' !! n) = Some (originalCost l))
  /\ adjLsaBuilds st' = (now env, Shutdown) :: adjLsaBuilds st
  /\ m_outgoingLinks st' = m_outgoingLinks st.
Proof.
  intros Ha. unfold stop. rewrite Ha. simpl. repeat split.
  intros n a l. apply restoreOriginalCosts_lookup.
Qed.

(** C3, the code at the failing input: stopping a running manager whose
    link to [neighborA] was inflated from 10 to 26 puts 10 back into the
    adjacency list, empties scheduler and pending map and requests one
    rebuild, but the link state's [currentCost] is still 26. *)
Theorem stop_leaves_currentCost :
  let st' := stop inflatedManager (quietEnv (seconds 50)) in
  m_scheduler st' = []
  /\ m_pendingMeasurements st' = ∅
  /\ adjLsaBuilds st' = [(seconds 50, Shutdown)]
  /\ (linkCost <$> m_adjacencyList st' !! neighborA) = Some 10
  /\ (originalCost <$> m_outgoingLinks st' !! neighborA) = Some 10
  /\ (currentCost <$> m_outgoingLinks st' !! neighborA) = Some 26.
Proof.
  pose proof (stop_active inflatedManager (quietEnv (seconds 50)) eq_refl)
    as (_ & Hs & Hp & Hadj & Hlog & Hlinks).
  intros st'. fold st' in Hs, Hp, Hadj, Hlog, Hlinks.
  assert (Hl : m_outgoingLinks inflatedManager !! neighborA
               = Some (activeLink 10 26 [sample 400; sample 400; sample 400]))
    by apply lookup_singleton_eq.
  split; [exact Hs|]. split; [exact Hp|]. split; [exact Hlog|].
  split; [|split].
  - apply (Hadj neighborA _ _ (lookup_singleton_eq _ _) Hl).
  - rewrite Hlinks, Hl. reflexivity.
  - rewrite Hlinks, Hl. reflexivity.
Qed.

(** ** Out-of-range round-trip times *)

(** A response slower than 5000 ms only consumes its pending entry (and
    counts as a received response): no link state and no adjacency changes. *)
Lemma handleRttResponse_too_large cfg st n seq sendTime env v :
  m_pendingMeasurements st !! seq = Some v ->
  (5000 < toMilliseconds (now env - sendTime))%Z ->
  handleRttResponse cfg st n seq sendTime env
  = with_successfulMeasurements (wrap64 (m_successfulMeasurements st + 1))
      (with_pendingMeasurements (delete seq (m_pendingMeasurements st)) st).
Proof.
  intros Hv Hbig. unfold handleRttResponse. rewrite Hv.
  rewrite bool_decide_eq_false_2 by lia. rewrite bool_decide_eq_true_2 by lia.
  reflexivity.
Qed.

(** C5, the code at the failing input: a response after 0.3 ms is stored in
    the history with its raw duration of 300000 ns, whose millisecond count
    is 0, not with the clamped 1 ms. *)
Theorem subMillisecond_sample_not_clamped :
  let st' := handleRttResponse exampleConf probingManager neighborA 1 0 (quietEnv 300000) in
  (rttHistory <$> m_outgoingLinks st' !! neighborA)
    = Some [mkRttMeasurement 300000 300000]
  /\ toMilliseconds 300000 = 0%Z
  /\ (rttHistory <$> m_outgoingLinks st' !! neighborA)
       <> Some [mkRttMeasurement (milliseconds 1) 300000].
Proof. vm_compute. repeat split; discriminate. Qed.

(** ** The rebuild-rate limiter *)

Lemma triggersKept_refl st : triggersKept st st.
Proof. intros n l H. eauto. Qed.

Lemma triggersKept_trans st1 st2 st3 :
  triggersKept st1 st2 -> triggersKept st2 st3 -> triggersKept st1 st3.
Proof.
  intros H12 H23 n l H. destruct (H12 n l H) as (l2 & H2 & E2).
  destruct (H23 n l2 H2) as (l3 & H3 & E3). exists l3. split; [exact H3 | congruence].
Qed.

Lemma triggersKept_links st st' :
  m_outgoingLinks st' = m_outgoingLinks st -> triggersKept st st'.
Proof. intros E n l H. rewrite E. eauto. Qed.

Lemma triggersKept_insert st st' n0 l0 l0' :
  m_outgoingLinks st !! n0 = Some l0 ->
  lastLsaTriggerTime l0' = lastLsaTriggerTime l0 ->
  m_outgoingLinks st' = <[n0 := l0']> (m_outgoingLinks st) ->
  triggersKept st st'.
Proof.
  intros H0 E0 E n l H. rewrite E. destruct (decide (n0 = n)) as [<-|Hne].
  - rewrite lookup_insert_eq. exists l0'. split; [reflexivity | congruence].
  - rewrite lookup_insert_ne by exact Hne. eauto.
Qed.

Lemma rateLimited_frame st st' :
  adjLsaBuilds st' = adjLsaBuilds st -> triggersKept st st' ->
  rateLimited st -> rateLimited st'.
Proof.
  intros Hlog Hk [Hs Hc]. split; [rewrite Hlog; exact Hs|].
  intros t n Hin. rewrite Hlog in Hin. destruct (Hc t n Hin) as (l & Hl & Ht).
  destruct (Hk n l Hl) as (l' & Hl' & E). exists l'. split; [exact Hl' | lia].
Qed.

Lemma rateLimited_shutdown st st' t :
  adjLsaBuilds st' = (t, Shutdown) :: adjLsaBuilds st -> triggersKept st st' ->
  rateLimited st -> rateLimited st'.
Proof.
  intros Hlog Hk [Hs Hc]. split; [rewrite Hlog; exact Hs|].
  intros t' n Hin. rewrite Hlog in Hin.
  apply elem_of_cons in Hin as [Hin|Hin]; [discriminate|].
  destruct (Hc t' n Hin) as (l & Hl & Ht).
  destruct (Hk n l Hl) as (l' & Hl' & E). exists l'. split; [exact Hl' | lia].
Qed.

Lemma quiet_refl st : quiet st st.
Proof. split; [reflexivity | apply triggersKept_refl]. Qed.

Lemma quiet_trans st1 st2 st3 : quiet st1 st2 -> quiet st2 st3 -> quiet st1 st3.
Proof.
  intros [L12 K12] [L23 K23]. split; [congruence | eapply triggersKept_trans; eassumption].
Qed.

Lemma quiet_same st st' :
  adjLsaBuilds st' = adjLsaBuilds st -> m_outgoingLinks st' = m_outgoingLinks st ->
  quiet st st'.
Proof. intros HL HO. split; [exact HL | apply triggersKept_links, HO]. Qed.

Lemma quiet_insert st st' n0 l0 l0' :
  adjLsaBuilds st' = adjLsaBuilds st ->
  m_outgoingLinks st !! n0 = Some l0 ->
  lastLsaTriggerTime l0' = lastLsaTriggerTime l0 ->
  m_outgoingLinks st' = <[n0 := l0']> (m_outgoingLinks st) ->
  quiet st st'.
Proof. intros HL H0 E0 E. split; [exact HL | eapply triggersKept_insert; eassumption]. Qed.

Lemma rateLimited_quiet st st' : quiet st st' -> rateLimited st -> rateLimited st'.
Proof. intros [HL HK]. now apply rateLimited_frame. Qed.

Lemma scheduleRttMeasurement_quiet cfg st n env :
  quiet st (scheduleRttMeasurement cfg st n env).
Proof.
  unfold scheduleRttMeasurement. destruct (m_isActive st); simpl;
    [apply quiet_same; reflexivity | apply quiet_refl].
Qed.

Lemma performRttMeasurement_quiet st n env : quiet st (performRttMeasurement st n env).
Proof. apply quiet_same; reflexivity. Qed.

Lemma start_quiet st env : quiet st (start st env).
Proof.
  unfold start. destruct (m_isActive st); [apply quiet_refl | apply quiet_same; reflexivity].
Qed.

Lemma onHelloDataReceived_quiet cfg st n env : quiet st (onHelloDataReceived cfg st n env).
Proof.
  unfold onHelloDataReceived. destruct (m_outgoingLinks st !! n) as [l|] eqn:Hl;
    [|apply quiet_refl].
  match goal with |- quiet st (if _ then scheduleRttMeasurement cfg ?s n env else _) =>
    assert (Hq : quiet st s) by (eapply quiet_insert; [reflexivity | exact Hl | | reflexivity];
                                 reflexivity)
  end.
  case_match; [|exact Hq].
  eapply quiet_trans; [exact Hq | apply scheduleRttMeasurement_quiet].
Qed.

Lemma onHelloTimeout_quiet cfg st n k : quiet st (onHelloTimeout cfg st n k).
Proof.
  unfold onHelloTimeout. destruct (m_outgoingLinks st !! n) as [l|] eqn:Hl;
    [|apply quiet_refl].
  eapply quiet_insert; [reflexivity | exact Hl | | reflexivity].
  case_decide; reflexivity.
Qed.

Lemma onNeighborStatusChanged_quiet cfg st n s env :
  quiet st (onNeighborStatusChanged cfg st n s env).
Proof.
  unfold onNeighborStatusChanged. destruct (m_outgoingLinks st !! n) as [l|] eqn:Hl;
    [|apply quiet_refl].
  destruct (decide (s = STATUS_INACTIVE)) as [Hs|Hs].
  { eapply quiet_insert; [reflexivity | exact Hl | | reflexivity]. reflexivity. }
  destruct (decide (s = STATUS_ACTIVE /\ status l <> STATUS_ACTIVE)) as [Ha|Ha].
  - destruct (m_adjacencyList st !! n) as [a|] eqn:Hadj.
    + match goal with |- quiet st (if _ then scheduleRttMeasurement cfg ?s' n env else _) =>
        assert (Hq : quiet st s')
          by (eapply quiet_insert; [reflexivity | exact Hl | | reflexivity]; reflexivity)
      end.
      case_match; [|exact Hq].
      eapply quiet_trans; [exact Hq | apply scheduleRttMeasurement_quiet].
    + match goal with |- quiet st (if _ then scheduleRttMeasurement cfg ?s' n env else _) =>
        assert (Hq : quiet st s')
          by (eapply quiet_insert; [reflexivity | exact Hl | | reflexivity]; reflexivity)
      end.
      case_match; [|exact Hq].
      eapply quiet_trans; [exact Hq | apply scheduleRttMeasurement_quiet].
  - eapply quiet_insert; [reflexivity | exact Hl | | reflexivity]. reflexivity.
Qed.

Lemma handleRttTimeout_quiet st n seq : quiet st (handleRttTimeout st n seq).
Proof.
  unfold handleRttTimeout. case_match; [apply quiet_same; reflexivity | apply quiet_refl].
Qed.

Lemma generateStatusReport_quiet st env : quiet st (generateStatusReport st env).
Proof.
  unfold generateStatusReport. destruct (m_isActive st); simpl;
    [apply quiet_same; reflexivity | apply quiet_refl].
Qed.

Lemma startupSweep_quiet cfg st env : quiet st (startupSweep cfg st env).
Proof.
  unfold startupSweep.
  match goal with |- quiet st (schedule _ _ ?s _) =>
    apply (quiet_trans st s); [|apply quiet_same; reflexivity]
  end.
  induction (map_to_list (m_outgoingLinks st)) as [|[n l] rest IH]; simpl;
    [apply quiet_refl|].
  destruct (isStable l); [|exact IH].
  eapply quiet_trans; [exact IH | apply scheduleRttMeasurement_quiet].
Qed.

Lemma runTask_quiet cfg st t env : quiet st (runTask cfg st t env).
Proof.
  destruct t as [| |n]; simpl.
  - apply startupSweep_quiet.
  - apply generateStatusReport_quiet.
  - match goal with |- quiet st (scheduleRttMeasurement cfg ?s n env) =>
      apply (quiet_trans st s); [|apply scheduleRttMeasurement_quiet]
    end.
    destruct (canMeasureNow st n); [apply performRttMeasurement_quiet | apply quiet_refl].
Qed.

Lemma fireTimer_quiet cfg st due t env : quiet st (fireTimer cfg st due t env).
Proof.
  unfold fireTimer. case_match; [|apply quiet_refl].
  match goal with |- quiet st (runTask cfg ?s t env) =>
    apply (quiet_trans st s); [apply quiet_same; reflexivity | apply runTask_quiet]
  end.
Qed.

(** The possible outcomes of [updateNeighborCost]: nothing (an early
    return, or an exception past the [catch]), a silent update inside the
    rate-limit window, or a full update that moves [lastLsaTriggerTime] and,
    for a neighbor without hello timeouts, asks for a rebuild. *)
Lemma updateNeighborCost_effect st n c env :
  let st' := updateNeighborCost st n c env in
  st' = st
  \/ exists a l final,
       m_adjacencyList st !! n = Some a /\ m_outgoingLinks st !! n = Some l
       /\ status l <> STATUS_INACTIVE
       /\ delegatedCost st n c = Some final
       /\ ratio_lt (Rabs (final - linkCost a)) (linkCost a) (5 / 100) = false
       /\ m_adjacencyList st' = <[n := setLinkCost final a]> (m_adjacencyList st)
       /\ (((now env - lastLsaTriggerTime l < MIN_LSA_INTERVAL)%Z
            /\ m_outgoingLinks st' = <[n := set_currentCost final l]> (m_outgoingLinks st)
            /\ adjLsaBuilds st' = adjLsaBuilds st)
           \/ ((MIN_LSA_INTERVAL <= now env - lastLsaTriggerTime l)%Z
               /\ m_outgoingLinks st'
                  = <[n := set_lastLsaTriggerTime (now env) (set_currentCost final l)]>
                      (m_outgoingLinks st)
               /\ ((timeoutCount l = 0%Z
                    /\ adjLsaBuilds st' = (now env, CostUpdate n) :: adjLsaBuilds st)
                   \/ (timeoutCount l <> 0%Z /\ adjLsaBuilds st' = adjLsaBuilds st)))).
Proof.
  intros st'. unfold st', updateNeighborCost.
  destruct (m_adjacencyList st !! n) as [a|] eqn:Ha; [|now left].
  destruct (m_outgoingLinks st !! n) as [l|] eqn:Hl; [|now left].
  destruct (decide (status l = STATUS_INACTIVE)) as [Hs|Hs]; [now left|].
  destruct (delegatedCost st n c) as [final|] eqn:Hd; [|now left].
  destruct (ratio_lt (Rabs (final - linkCost a)) (linkCost a) (5 / 100)) eqn:Hr; [now left|].
  right. exists a, l, final. do 5 (split; [done|]).
  destruct (decide (now env - lastLsaTriggerTime l < MIN_LSA_INTERVAL)%Z) as [Hw|Hw].
  - split; [reflexivity|]. left. repeat split. exact Hw.
  - simpl. destruct (decide (timeoutCount l = 0%Z)) as [Ht|Ht]; simpl.
    + split; [reflexivity|]. right. split; [lia|]. split; [reflexivity|]. left. done.
    + split; [reflexivity|]. right. split; [lia|]. split; [reflexivity|]. right. done.
Qed.

Lemma updateNeighborCost_rateLimited st n c env :
  rateLimited st -> rateLimited (updateNeighborCost st n c env).
Proof.
  intros HR. pose proof HR as [Hs Hc].
  destruct (updateNeighborCost_effect st n c env)
    as [-> | (a & l & final & Ha & Hl & _ & _ & _ & _ & Hcase)]; [exact HR|].
  set (st' := updateNeighborCost st n c env) in *.
  assert (Hmin : (0 < MIN_LSA_INTERVAL)%Z) by reflexivity.
  destruct Hcase as [(Hw & Hlinks & Hlog) | (Hw & Hlinks & Hcase)].
  - apply (rateLimited_quiet st); [|exact HR].
    eapply quiet_insert; [exact Hlog | exact Hl | | exact Hlinks]. reflexivity.
  - (* every old request is covered by the new trigger time as well *)
    assert (Hcover : forall t m, (t, CostUpdate m) ∈ adjLsaBuilds st ->
              exists l', m_outgoingLinks st' !! m = Some l' /\ (t <= lastLsaTriggerTime l')%Z).
    { intros t m Hin. destruct (Hc t m Hin) as (lm & Hlm & Ht). rewrite Hlinks.
      destruct (decide (n = m)) as [<-|Hne].
      - rewrite lookup_insert_eq. eexists. split; [reflexivity|]. simpl.
        rewrite Hl in Hlm. injection Hlm as <-. lia.
      - rewrite lookup_insert_ne by exact Hne. eauto. }
    destruct Hcase as [(Ht0 & Hlog) | (Ht0 & Hlog)].
    + split.
      * rewrite Hlog. simpl. split; [|exact Hs].
        intros t' Hin. destruct (Hc t' n Hin) as (l0 & Hl0 & Ht').
        rewrite Hl in Hl0. injection Hl0 as <-. lia.
      * intros t m Hin. rewrite Hlog in Hin. apply elem_of_cons in Hin as [Heq|Hin].
        -- injection Heq as -> ->. rewrite Hlinks, lookup_insert_eq.
           eexists. split; [reflexivity|]. simpl. lia.
        -- apply Hcover, Hin.
    + split; [rewrite Hlog; exact Hs|].
      intros t m Hin. rewrite Hlog in Hin. apply Hcover, Hin.
Qed.

Lemma handleRttResponse_rateLimited cfg st n seq sendTime env :
  rateLimited st -> rateLimited (handleRttResponse cfg st n seq sendTime env).
Proof.
  intros HR. unfold handleRttResponse.
  destruct (m_pendingMeasurements st !! seq); [|exact HR].
  set (st1 := with_successfulMeasurements _ _).
  assert (H1 : quiet st st1) by (apply quiet_same; reflexivity).
  case_match; [exact (rateLimited_quiet _ _ H1 HR)|].
  destruct (m_outgoingLinks st1 !! n) as [l|] eqn:Hl;
    [|exact (rateLimited_quiet _ _ H1 HR)].
  destruct (isStable l); [|exact (rateLimited_quiet _ _ H1 HR)].
  set (l2 := addRttMeasurement _ _ _ l).
  set (st2 := with_outgoingLinks _ st1).
  assert (H2 : quiet st1 st2)
    by (eapply quiet_insert; [reflexivity | exact Hl | | reflexivity]; reflexivity).
  set (st3 := if m_mlFeedbackCallback st2 && _ then _ else st2).
  assert (H3 : quiet st2 st3)
    by (unfold st3; case_match; [apply quiet_same; reflexivity | apply quiet_refl]).
  assert (HR3 : rateLimited st3).
  { apply (rateLimited_quiet st); [|exact HR].
    eapply quiet_trans; [exact H1|]. eapply quiet_trans; [exact H2 | exact H3]. }
  destruct (bool_decide (3 <= length (rttHistory l2))%nat); [|exact HR3].
  destruct (shouldUpdateCost cfg st3 n (calculateNewCost cfg st3 n)); [|exact HR3].
  apply updateNeighborCost_rateLimited, HR3.
Qed.

Lemma stop_rateLimited st env : rateLimited st -> rateLimited (stop st env).
Proof.
  intros HR. unfold stop. destruct (m_isActive st); simpl; [|exact HR].
  eapply rateLimited_shutdown; [reflexivity | | exact HR].
  apply triggersKept_links. reflexivity.
Qed.

Lemma step_rateLimited cfg st ev : rateLimited st -> rateLimited (step cfg st ev).
Proof.
  intros HR. destruct ev as [ev env]. destruct ev; simpl.
  - exact (rateLimited_quiet _ _ (start_quiet st env) HR).
  - apply stop_rateLimited, HR.
  - exact HR.
  - exact (rateLimited_quiet _ _ (onHelloDataReceived_quiet cfg st n env) HR).
  - exact (rateLimited_quiet _ _ (onHelloTimeout_quiet cfg st n timeouts) HR).
  - exact (rateLimited_quiet _ _ (onNeighborStatusChanged_quiet cfg st n s env) HR).
  - exact (rateLimited_quiet _ _ (fireTimer_quiet cfg st due t env) HR).
  - apply handleRttResponse_rateLimited, HR.
  - exact (rateLimited_quiet _ _ (handleRttTimeout_quiet st n seq) HR).
  - apply (rateLimited_quiet st); [apply quiet_same; reflexivity | exact HR].
  - apply (rateLimited_quiet st); [apply quiet_same; reflexivity | exact HR].
  - apply (rateLimited_quiet st); [apply quiet_same; reflexivity | exact HR].
  - apply (rateLimited_quiet st); [apply quiet_same; reflexivity | exact HR].
Qed.

Lemma run_rateLimited cfg evs st : rateLimited st -> rateLimited (run cfg st evs).
Proof.
  revert st. induction evs as [|ev evs IH]; intros st HR; [exact HR|].
  apply IH, step_rateLimited, HR.
Qed.

Lemma initialManager_rateLimited adj env : rateLimited (initialManager adj env).
Proof.
  split; [exact I|]. intros t n Hin. apply elem_of_nil in Hin. destruct Hin.
Qed.

(** [rebuildsSpaced], spelled out on positions of the log. *)
Lemma rebuildsSpaced_lookup (log : list (Z * RebuildCause)) (i j : nat) (t t' : Z) (n : Name) :
  rebuildsSpaced log -> (i < j)%nat ->
  log !! i = Some (t, CostUpdate n) -> log !! j = Some (t', CostUpdate n) ->
  (MIN_LSA_INTERVAL <= t - t')%Z.
Proof.
  revert i j. induction log as [|[t0 c0] rest IH]; intros i j Hs Hij Hi Hj; [done|].
  destruct j as [|j]; [lia|]. simpl in Hj.
  destruct i as [|i].
  - simpl in Hi. injection Hi as -> ->. destruct Hs as [Hnew _].
    apply Hnew. apply list_elem_of_lookup. eauto.
  - simpl in Hi. apply (IH i j); [|lia|exact Hi|exact Hj].
    destruct c0; simpl in Hs; [apply Hs | exact Hs].
Qed.

(** C4: inside the 10 s window after a neighbor's [lastLsaTriggerTime],
    [updateNeighborCost] asks for no rebuild and does not move that time,
    while an update that passes its gates (known, not INACTIVE, a final cost
    that changes the cost by at least 5 %) still writes the new cost into
    the store and the adjacency; a rebuild is requested only for a neighbor
    whose timeout count is 0 and only outside the window; in every run of
    the manager any two rebuild requests for the same neighbor are at least
    10 s apart; and a call that has no final cost, because the calculator
    threw past the [catch], changes nothing at all. *)
Theorem rebuild_rate_limit (cfg : ConfParameter) (st : LinkCostManager) (n : Name)
    (c : R) (env : Env) (l : OutgoingLinkState)
    (adj0 : gmap Name Adjacent) (env0 : Env) (evs : list (Event * Env)) :
  m_outgoingLinks st !! n = Some l ->
  let st' := updateNeighborCost st n c env in
  let final := delegatedCost st n c in
  ((now env - lastLsaTriggerTime l < seconds 10)%Z ->
     adjLsaBuilds st' = adjLsaBuilds st
     /\ routingTableCalculations st' = routingTableCalculations st
     /\ (lastLsaTriggerTime <$> m_outgoingLinks st' !! n) = Some (lastLsaTriggerTime l)
     /\ (forall a v, m_adjacencyList st !! n = Some a -> status l <> STATUS_INACTIVE ->
           final = Some v ->
           ratio_lt (Rabs (v - linkCost a)) (linkCost a) (5 / 100) = false ->
           (currentCost <$> m_outgoingLinks st' !! n) = Some v
           /\ (linkCost <$> m_adjacencyList st' !! n) = Some v))
  /\ (adjLsaBuilds st' <> adjLsaBuilds st ->
        timeoutCount l = 0%Z
        /\ (seconds 10 <= now env - lastLsaTriggerTime l)%Z
        /\ adjLsaBuilds st' = (now env, CostUpdate n) :: adjLsaBuilds st)
  /\ (forall i j t t' m,
        let log := adjLsaBuilds (run cfg (initialManager adj0 env0) evs) in
        (i < j)%nat ->
        log !! i = Some (t, CostUpdate m) -> log !! j = Some (t', CostUpdate m) ->
        (seconds 10 <= t - t')%Z)
  /\ (final = None -> st' = st).
Proof.
  intros Hl st' final. split; [|split; [|split]].
  - intros Hw. unfold st', updateNeighborCost. fold final. rewrite Hl.
    destruct (m_adjacencyList st !! n) as [a|] eqn:Ha.
    2:{ rewrite Hl. do 3 (split; [reflexivity|]). intros a' v Ha'. discriminate. }
    destruct (decide (status l = STATUS_INACTIVE)) as [Hs|Hs].
    { rewrite Hl. do 3 (split; [reflexivity|]). intros a' v _ Hs'. contradiction. }
    destruct final as [v0|] eqn:Hd.
    2:{ rewrite Hl. do 3 (split; [reflexivity|]). intros a' v _ _ Hv. discriminate. }
    destruct (ratio_lt (Rabs (v0 - linkCost a)) (linkCost a) (5 / 100)) eqn:Hr.
    { rewrite Hl. do 3 (split; [reflexivity|]).
      intros a' v Ha' _ [= <-] Hr'. injection Ha' as <-. congruence. }
    rewrite decide_True by exact Hw. simpl.
    rewrite !lookup_insert_eq. do 3 (split; [reflexivity|]).
    intros a' v _ _ [= <-] _. split; reflexivity.
  - intros Hlog.
    destruct (updateNeighborCost_effect st n c env)
      as [E | (a & l0 & v & Ha & Hl0 & _ & _ & _ & _ & Hcase)].
    { exfalso. apply Hlog. unfold st'. rewrite E. reflexivity. }
    rewrite Hl in Hl0. injection Hl0 as <-.
    destruct Hcase as [(_ & _ & E) | (Hw & _ & [(Ht & E) | (_ & E)])];
      [contradiction | | contradiction].
    split; [exact Ht|]. split; [exact Hw | exact E].
  - intros i j t t' m log Hij Hi Hj.
    apply (rebuildsSpaced_lookup log i j t t' m); [|exact Hij|exact Hi|exact Hj].
    apply (run_rateLimited cfg evs), initialManager_rateLimited.
  - intros Hd. apply updateNeighborCost_escape. exact Hd.
Qed.

Lemma rebuild_rate_limit_witness :
  adjLsaBuilds (updateNeighborCost (managerWith link400) neighborA 26 (quietEnv (seconds 5)))
  = adjLsaBuilds (managerWith link400).
Proof.
  apply (proj1 (rebuild_rate_limit exampleConf (managerWith link400) neighborA 26
                  (quietEnv (seconds 5)) link400 adjacencyA (quietEnv 0) declineEvents
                  (lookup_managerWith link400))).
  reflexivity.
Defined.

(** * Further properties of the link cost manager *)

(** ** What every handler keeps *)

Lemma linkKept_refl l : linkKept l l.
Proof. repeat split; auto. Qed.

Lemma linkKept_trans l1 l2 l3 : linkKept l1 l2 -> linkKept l2 l3 -> linkKept l1 l3.
Proof.
  intros (N12 & O12 & H12) (N23 & O23 & H23).
  split; [congruence|]. split; [congruence|]. auto.
Qed.

Lemma evolves_refl st : evolves st st.
Proof.
  intros n. destruct (m_outgoingLinks st !! n) as [l|] eqn:Hl; [|done].
  exists l. split; [reflexivity|]. split; [apply linkKept_refl|]. left. done.
Qed.

Lemma evolves_trans st1 st2 st3 : evolves st1 st2 -> evolves st2 st3 -> evolves st1 st3.
Proof.
  intros H12 H23 n. specialize (H12 n). specialize (H23 n).
  destruct (m_outgoingLinks st1 !! n) as [l1|].
  - destruct H12 as (l2 & Hl2 & K12 & C12). rewrite Hl2 in H23.
    destruct H23 as (l3 & Hl3 & K23 & C23). exists l3.
    split; [exact Hl3|]. split; [eapply linkKept_trans; eassumption|].
    destruct C23 as [[Hc Ha] | Hagree]; [|right; exact Hagree].
    destruct C12 as [[Hc' Ha'] | Hagree'].
    + left. split; congruence.
    + right. rewrite Ha, Hc. exact Hagree'.
  - destruct H12 as [Hl2 Ha2]. rewrite Hl2 in H23. destruct H23 as [Hl3 Ha3].
    split; [exact Hl3 | congruence].
Qed.

Lemma evolves_same st st' :
  m_outgoingLinks st' = m_outgoingLinks st -> m_adjacencyList st' = m_adjacencyList st ->
  evolves st st'.
Proof.
  intros HL HA n. unfold costsKeptOrAgree. rewrite HL, HA.
  destruct (m_outgoingLinks st !! n) as [l|]; [|done].
  exists l. split; [reflexivity|]. split; [apply linkKept_refl|]. left. done.
Qed.

Lemma evolves_insert st st' n0 l0 l0' :
  m_outgoingLinks st !! n0 = Some l0 ->
  linkKept l0 l0' -> currentCost l0' = currentCost l0 ->
  m_outgoingLinks st' = <[n0 := l0']> (m_outgoingLinks st) ->
  m_adjacencyList st' = m_adjacencyList st ->
  evolves st st'.
Proof.
  intros H0 K C HL HA n. unfold costsKeptOrAgree. rewrite HL, HA. destruct (decide (n0 = n)) as [<-|Hne].
  - rewrite H0, lookup_insert_eq. exists l0'. split; [reflexivity|]. split; [exact K|].
    left. done.
  - rewrite lookup_insert_ne by exact Hne.
    destruct (m_outgoingLinks st !! n) as [l|]; [|done].
    exists l. split; [reflexivity|]. split; [apply linkKept_refl|]. left. done.
Qed.

Lemma evolves_insert_cost st st' n0 l0 l0' a c :
  m_outgoingLinks st !! n0 = Some l0 ->
  linkKept l0 l0' -> currentCost l0' = c ->
  m_outgoingLinks st' = <[n0 := l0']> (m_outgoingLinks st) ->
  m_adjacencyList st' = <[n0 := setLinkCost c a]> (m_adjacencyList st) ->
  evolves st st'.
Proof.
  intros H0 K C HL HA n. unfold costsKeptOrAgree. rewrite HL, HA. destruct (decide (n0 = n)) as [<-|Hne].
  - rewrite H0, !lookup_insert_eq. exists l0'. split; [reflexivity|]. split; [exact K|].
    right. simpl. congruence.
  - rewrite !lookup_insert_ne by exact Hne.
    destruct (m_outgoingLinks st !! n) as [l|]; [|done].
    exists l. split; [reflexivity|]. split; [apply linkKept_refl|]. left. done.
Qed.

Lemma scheduleRttMeasurement_evolves cfg st n env :
  evolves st (scheduleRttMeasurement cfg st n env).
Proof.
  unfold scheduleRttMeasurement. destruct (m_isActive st); simpl;
    [apply evolves_same; reflexivity | apply evolves_refl].
Qed.

Lemma onHelloDataReceived_evolves cfg st n env :
  evolves st (onHelloDataReceived cfg st n env).
Proof.
  unfold onHelloDataReceived. destruct (m_outgoingLinks st !! n) as [l|] eqn:Hl;
    [|apply evolves_refl].
  match goal with |- evolves st (if _ then scheduleRttMeasurement cfg ?s n env else _) =>
    assert (Hq : evolves st s)
  end.
  { eapply evolves_insert; [exact Hl | | | reflexivity | reflexivity]; [|reflexivity].
    repeat split. intros _ Hs. discriminate Hs. }
  case_match; [|exact Hq].
  eapply evolves_trans; [exact Hq | apply scheduleRttMeasurement_evolves].
Qed.

Lemma onHelloTimeout_evolves cfg st n k : evolves st (onHelloTimeout cfg st n k).
Proof.
  unfold onHelloTimeout. destruct (m_outgoingLinks st !! n) as [l|] eqn:Hl;
    [|apply evolves_refl].
  eapply evolves_insert; [exact Hl | | | reflexivity | reflexivity];
    case_decide; repeat split; auto.
Qed.

Lemma onNeighborStatusChanged_evolves cfg st n s env :
  evolves st (onNeighborStatusChanged cfg st n s env).
Proof.
  unfold onNeighborStatusChanged. destruct (m_outgoingLinks st !! n) as [l|] eqn:Hl;
    [|apply evolves_refl].
  destruct (decide (s = STATUS_INACTIVE)) as [Hs|Hs].
  { eapply evolves_insert; [exact Hl | | | reflexivity | reflexivity]; [|reflexivity].
    repeat split. }
  destruct (decide (s = STATUS_ACTIVE /\ status l <> STATUS_ACTIVE)) as [[-> Ha]|Ha].
  - destruct (m_adjacencyList st !! n) as [a|] eqn:Hadj.
    + match goal with |- evolves st (if _ then scheduleRttMeasurement cfg ?s' n env else _) =>
        assert (Hq : evolves st s')
      end.
      { eapply (evolves_insert_cost _ _ _ _ _ a (originalLinkCost a));
          [exact Hl | | | reflexivity | reflexivity]; [|reflexivity].
        repeat split. intros _ Hin. discriminate Hin. }
      case_match; [|exact Hq].
      eapply evolves_trans; [exact Hq | apply scheduleRttMeasurement_evolves].
    + match goal with |- evolves st (if _ then scheduleRttMeasurement cfg ?s' n env else _) =>
        assert (Hq : evolves st s')
      end.
      { eapply evolves_insert; [exact Hl | | | reflexivity | reflexivity]; [|reflexivity].
        repeat split. intros _ Hin. discriminate Hin. }
      case_match; [|exact Hq].
      eapply evolves_trans; [exact Hq | apply scheduleRttMeasurement_evolves].
  - eapply evolves_insert; [exact Hl | | | reflexivity | reflexivity]; [|reflexivity].
    repeat split. intros _ Hin. simpl in Hin. contradiction.
Qed.

Lemma updateNeighborCost_evolves st n c env : evolves st (updateNeighborCost st n c env).
Proof.
  destruct (updateNeighborCost_effect st n c env)
    as [-> | (a & l & final & Ha & Hl & Hs & _ & _ & Hadj & Hcase)]; [apply evolves_refl|].
  destruct Hcase as [(_ & Hlinks & _) | (_ & Hlinks & _)].
  - eapply evolves_insert_cost; [exact Hl | | | exact Hlinks | exact Hadj]; [|reflexivity].
    repeat split. intros _ Hin. contradiction.
  - eapply evolves_insert_cost; [exact Hl | | | exact Hlinks | exact Hadj]; [|reflexivity].
    repeat split. intros _ Hin. contradiction.
Qed.

Lemma isStable_active l : isStable l = true -> status l = STATUS_ACTIVE /\ timeoutCount l = 0%Z.
Proof.
  unfold isStable. intros H. apply andb_prop in H as [H1 H2].
  split; [exact (bool_decide_eq_true_1 _ H1) | exact (bool_decide_eq_true_1 _ H2)].
Qed.

Lemma handleRttResponse_evolves cfg st n seq sendTime env :
  evolves st (handleRttResponse cfg st n seq sendTime env).
Proof.
  unfold handleRttResponse.
  destruct (m_pendingMeasurements st !! seq); [|apply evolves_refl].
  set (st1 := with_successfulMeasurements _ _).
  assert (H1 : evolves st st1) by (apply evolves_same; reflexivity).
  case_match; [exact H1|].
  destruct (m_outgoingLinks st1 !! n) as [l|] eqn:Hl; [|exact H1].
  destruct (isStable l) eqn:Hst; [|exact H1].
  apply isStable_active in Hst as [Hact _].
  set (l2 := addRttMeasurement _ _ _ l).
  set (st2 := with_outgoingLinks _ st1).
  assert (H2 : evolves st1 st2).
  { eapply evolves_insert; [exact Hl | | | reflexivity | reflexivity]; [|reflexivity].
    repeat split. intros _ Hin. simpl in Hin. rewrite Hact in Hin. discriminate Hin. }
  set (st3 := if m_mlFeedbackCallback st2 && _ then _ else st2).
  assert (H3 : evolves st2 st3)
    by (unfold st3; case_match; [apply evolves_same; reflexivity | apply evolves_refl]).
  assert (H13 : evolves st st3).
  { eapply evolves_trans; [exact H1|]. eapply evolves_trans; [exact H2 | exact H3]. }
  destruct (bool_decide (3 <= length (rttHistory l2))%nat); [|exact H13].
  destruct (shouldUpdateCost cfg st3 n (calculateNewCost cfg st3 n)); [|exact H13].
  eapply evolves_trans; [exact H13 | apply updateNeighborCost_evolves].
Qed.

Lemma startupSweep_evolves cfg st env : evolves st (startupSweep cfg st env).
Proof.
  unfold startupSweep.
  match goal with |- evolves st (schedule _ _ ?s _) =>
    apply (evolves_trans st s); [|apply evolves_same; reflexivity]
  end.
  induction (map_to_list (m_outgoingLinks st)) as [|[n l] rest IH]; simpl;
    [apply evolves_refl|].
  destruct (isStable l); [|exact IH].
  eapply evolves_trans; [exact IH | apply scheduleRttMeasurement_evolves].
Qed.

Lemma fireTimer_evolves cfg st due t env : evolves st (fireTimer cfg st due t env).
Proof.
  unfold fireTimer. case_match; [|apply evolves_refl].
  match goal with |- evolves st (runTask cfg ?s t env) =>
    apply (evolves_trans st s); [apply evolves_same; reflexivity|]
  end.
  destruct t as [| |m]; cbn [runTask].
  - apply startupSweep_evolves.
  - unfold generateStatusReport. case_match; [apply evolves_refl | apply evolves_same; reflexivity].
  - match goal with |- evolves ?s0 (scheduleRttMeasurement cfg ?s m env) =>
      apply (evolves_trans s0 s); [|apply scheduleRttMeasurement_evolves]
    end.
    case_match; [apply evolves_same; reflexivity | apply evolves_refl].
Qed.

(** Every event except [stop] keeps names and original costs, keeps the
    histories of INACTIVE neighbors empty and writes the two copies of a
    cost together. *)
Lemma step_evolves cfg st ev : isStop ev = false -> evolves st (step cfg st ev).
Proof.
  destruct ev as [ev env]. unfold step, isStop.
  destruct ev; simpl; intros Hstop; try discriminate.
  - unfold start. destruct (m_isActive st); [apply evolves_refl | apply evolves_same; reflexivity].
  - apply evolves_refl.
  - apply onHelloDataReceived_evolves.
  - apply onHelloTimeout_evolves.
  - apply onNeighborStatusChanged_evolves.
  - apply fireTimer_evolves.
  - apply handleRttResponse_evolves.
  - unfold handleRttTimeout. destruct (m_pendingMeasurements st !! seq);
      [apply evolves_same; reflexivity | apply evolves_refl].
  - apply evolves_same; reflexivity.
  - apply evolves_same; reflexivity.
  - apply evolves_same; reflexivity.
  - apply evolves_same; reflexivity.
Qed.

Lemma initialManager_lookup adj env n :
  m_outgoingLinks (initialManager adj env) !! n
  = (fun a => mkLinkState n (adjStatus a) (originalLinkCost a) (linkCost a) []
                          (interestTimedOutNo a) (now env) 0) <$> adj !! n.
Proof.
  unfold initialManager, initialize. simpl.
  rewrite lookup_union_l by apply lookup_empty.
  rewrite map_lookup_imap. destruct (adj !! n); reflexivity.
Qed.

Lemma run_app cfg st evs1 evs2 :
  run cfg st (evs1 ++ evs2) = run cfg (run cfg st evs1) evs2.
Proof. unfold run. apply fold_left_app. Qed.

Lemma run_cons cfg st ev evs : run cfg st (ev :: evs) = run cfg (step cfg st ev) evs.
Proof. reflexivity. Qed.

Lemma step_stop cfg st env : step cfg st (EvStop, env) = stop st env.
Proof. reflexivity. Qed.

Lemma isStop_true ev : isStop ev = true -> exists env, ev = (EvStop, env).
Proof. destruct ev as [[] env]; simpl; try discriminate. eauto. Qed.

Lemma step_inactiveHistoriesEmpty cfg st ev :
  inactiveHistoriesEmpty st -> inactiveHistoriesEmpty (step cfg st ev).
Proof.
  intros Hinv. destruct (isStop ev) eqn:Hs.
  - apply isStop_true in Hs as [env ->]. rewrite step_stop.
    intros n l. rewrite stop_outgoingLinks. apply Hinv.
  - intros n l' Hl' Hst. pose proof (step_evolves cfg st ev Hs n) as He.
    destruct (m_outgoingLinks st !! n) as [l|] eqn:Hl.
    + destruct He as (l2 & Hl2 & (_ & _ & Hk) & _).
      rewrite Hl' in Hl2. injection Hl2 as <-. apply Hk; [apply (Hinv n l Hl) | exact Hst].
    + destruct He as [He _]. congruence.
Qed.

(** X1: in every state the manager reaches from its initialisation, a
    neighbor that is INACTIVE has an empty RTT history. *)
Theorem inactive_neighbors_have_no_samples (cfg : ConfParameter) (adj : gmap Name Adjacent)
    (env0 : Env) (evs : list (Event * Env)) :
  inactiveHistoriesEmpty (run cfg (initialManager adj env0) evs).
Proof.
  assert (H0 : inactiveHistoriesEmpty (initialManager adj env0)).
  { intros n l Hl _. rewrite initialManager_lookup in Hl.
    destruct (adj !! n); [|discriminate]. injection Hl as <-. reflexivity. }
  revert H0. generalize (initialManager adj env0).
  induction evs as [|ev evs IH]; intros st Hst; [exact Hst|].
  rewrite run_cons. apply IH, step_inactiveHistoriesEmpty, Hst.
Qed.

Lemma step_originalCost cfg st ev n :
  (originalCost <$> m_outgoingLinks (step cfg st ev) !! n)
  = (originalCost <$> m_outgoingLinks st !! n).
Proof.
  destruct (isStop ev) eqn:Hs.
  - apply isStop_true in Hs as [env ->]. rewrite step_stop, stop_outgoingLinks. reflexivity.
  - pose proof (step_evolves cfg st ev Hs n) as He.
    destruct (m_outgoingLinks st !! n) as [l|] eqn:Hl.
    + destruct He as (l2 & -> & (_ & Ho & _) & _). simpl. congruence.
    + destruct He as [-> _]. reflexivity.
Qed.

(** X2: the store holds exactly the neighbors of the adjacency list it was
    initialised from, and each neighbor's [originalCost] stays the original
    link cost of its adjacency, whatever events follow. *)
Theorem originalCost_immutable (cfg : ConfParameter) (adj : gmap Name Adjacent)
    (env0 : Env) (evs : list (Event * Env)) (n : Name) :
  (originalCost <$> m_outgoingLinks (run cfg (initialManager adj env0) evs) !! n)
  = (originalLinkCost <$> adj !! n).
Proof.
  assert (H0 : (originalCost <$> m_outgoingLinks (initialManager adj env0) !! n)
               = (originalLinkCost <$> adj !! n)).
  { rewrite initialManager_lookup. destruct (adj !! n); reflexivity. }
  revert H0. generalize (initialManager adj env0).
  induction evs as [|ev evs IH]; intros st Hst; [exact Hst|].
  rewrite run_cons. apply IH. rewrite step_originalCost. exact Hst.
Qed.

Lemma step_costsAgree cfg st ev :
  isStop ev = false -> costsAgree st -> costsAgree (step cfg st ev).
Proof.
  intros Hs Hinv n a' l' Ha' Hl'. pose proof (step_evolves cfg st ev Hs n) as He.
  destruct (m_outgoingLinks st !! n) as [l|] eqn:Hl.
  - destruct He as (l2 & Hl2 & _ & [[Hc Ha] | Hagree]).
    + rewrite Hl' in Hl2. injection Hl2 as <-. rewrite Hc.
      apply (Hinv n a' l); [rewrite <- Ha; exact Ha' | exact Hl].
    + rewrite Hl' in Hl2. injection Hl2 as <-. rewrite Ha' in Hagree.
      injection Hagree as ->. reflexivity.
  - destruct He as [He _]. congruence.
Qed.

(** X3: as long as [stop] has not been called, the cost stored for a
    neighbor and the link cost of its adjacency are equal in every state
    the manager reaches. *)
Theorem costs_agree_until_stop (cfg : ConfParameter) (adj : gmap Name Adjacent)
    (env0 : Env) (evs : list (Event * Env)) :
  forallb (fun ev => negb (isStop ev)) evs = true ->
  costsAgree (run cfg (initialManager adj env0) evs).
Proof.
  assert (H0 : costsAgree (initialManager adj env0)).
  { intros n a l Ha Hl. rewrite initialManager_lookup in Hl.
    change (m_adjacencyList (initialManager adj env0)) with adj in Ha.
    rewrite Ha in Hl. injection Hl as <-. reflexivity. }
  revert H0. generalize (initialManager adj env0).
  induction evs as [|ev evs IH]; intros st Hst Hev; [exact Hst|].
  simpl in Hev. apply andb_prop in Hev as [Hev1 Hev2].
  rewrite run_cons. apply IH; [|exact Hev2].
  apply step_costsAgree; [|exact Hst]. destruct (isStop ev); [discriminate | reflexivity].
Qed.

Lemma costs_agree_until_stop_witness :
  costsAgree (run exampleConf (initialManager adjacencyA (quietEnv 0)) declineEvents).
Proof.
  apply (costs_agree_until_stop exampleConf adjacencyA (quietEnv 0) declineEvents).
  reflexivity.
Defined.

(** ** A stopped manager *)

Lemma stop_dormant st env : m_isActive st = true -> dormant (stop st env).
Proof. intros Ha. unfold stop. rewrite Ha. repeat split. Qed.

Lemma scheduleRttMeasurement_inactive cfg st n env :
  m_isActive st = false -> scheduleRttMeasurement cfg st n env = st.
Proof. intros Ha. unfold scheduleRttMeasurement. rewrite Ha. reflexivity. Qed.

Lemma step_dormant cfg st ev :
  isStart ev = false -> dormant st ->
  dormant (step cfg st ev) /\ outputs (step cfg st ev) = outputs st.
Proof.
  intros Hs (Ha & Hsch & Hp). destruct ev as [ev env]. unfold step, isStart in *.
  destruct ev; simpl in *; try discriminate.
  - unfold stop. rewrite Ha. repeat split; assumption.
  - repeat split; assumption.
  - unfold onHelloDataReceived. destruct (m_outgoingLinks st !! n); simpl;
      [rewrite Ha; simpl|]; repeat split; assumption.
  - unfold onHelloTimeout. destruct (m_outgoingLinks st !! n); simpl;
      repeat split; assumption.
  - unfold onNeighborStatusChanged. destruct (m_outgoingLinks st !! n); simpl;
      [|repeat split; assumption].
    destruct (decide (s = STATUS_INACTIVE)); simpl.
    { repeat split; try assumption. rewrite Hp. apply map_filter_empty. }
    destruct (decide (s = STATUS_ACTIVE /\ _)); simpl; [|repeat split; assumption].
    destruct (m_adjacencyList st !! n); simpl; rewrite Ha; repeat split; assumption.
  - unfold fireTimer. rewrite Hsch.
    rewrite (bool_decide_eq_false_2 (_ ∈ [])) by (apply not_elem_of_nil). simpl.
    repeat split; assumption.
  - unfold handleRttResponse. rewrite Hp, lookup_empty. repeat split; assumption.
  - unfold handleRttTimeout. rewrite Hp, lookup_empty. repeat split; assumption.
  - repeat split; assumption.
  - repeat split; assumption.
  - repeat split; assumption.
  - repeat split; assumption.
Qed.

(** X4: once an active manager has been stopped, and until [start] is
    called again, no event arms a timer, leaves a probe pending, sends a
    probe, publishes feedback or asks for a rebuild or a routing-table
    calculation. *)
Theorem stopped_manager_is_silent (cfg : ConfParameter) (st : LinkCostManager) (env : Env)
    (evs : list (Event * Env)) :
  m_isActive st = true ->
  forallb (fun ev => negb (isStart ev)) evs = true ->
  let st' := run cfg (stop st env) evs in
  dormant st' /\ outputs st' = outputs (stop st env).
Proof.
  intros Ha Hev st'. unfold st'. clear st'.
  pose proof (stop_dormant st env Ha) as Hd.
  revert Hd Hev. generalize (stop st env). clear Ha.
  induction evs as [|ev evs IH]; intros s Hd Hev; [split; [exact Hd | reflexivity]|].
  simpl in Hev. apply andb_prop in Hev as [Hev1 Hev2].
  assert (Hns : isStart ev = false) by (destruct (isStart ev); [discriminate | reflexivity]).
  destruct (step_dormant cfg s ev Hns Hd) as [Hd' Ho'].
  rewrite run_cons. destruct (IH (step cfg s ev) Hd' Hev2) as [Hd'' Ho''].
  split; [exact Hd''|]. rewrite Ho''. exact Ho'.
Qed.

Lemma stopped_manager_is_silent_witness :
  dormant (run exampleConf (stop inflatedManager (quietEnv (seconds 50)))
             [(EvTimer (seconds 40) (TaskRttMeasurement neighborA), quietEnv (seconds 51));
              (EvRttResponse neighborA 1 (seconds 35), quietEnv (seconds 52));
              (EvHelloDataReceived neighborA, quietEnv (seconds 53))]).
Proof.
  apply (stopped_manager_is_silent exampleConf inflatedManager (quietEnv (seconds 50))
           [(EvTimer (seconds 40) (TaskRttMeasurement neighborA), quietEnv (seconds 51));
            (EvRttResponse neighborA 1 (seconds 35), quietEnv (seconds 52));
            (EvHelloDataReceived neighborA, quietEnv (seconds 53))]);
    reflexivity.
Defined.

(** ** Pending probes *)

Lemma evolves_is_Some st st' n :
  evolves st st' -> is_Some (m_outgoingLinks st !! n) -> is_Some (m_outgoingLinks st' !! n).
Proof.
  intros He [l Hl]. specialize (He n). rewrite Hl in He.
  destruct He as (l' & Hl' & _). eauto.
Qed.

Lemma pendingWellFormed_shrink st st' :
  m_nextSequenceNumber st' = m_nextSequenceNumber st ->
  (forall seq v, m_pendingMeasurements st' !! seq = Some v ->
                 m_pendingMeasurements st !! seq = Some v) ->
  (forall n, is_Some (m_outgoingLinks st !! n) -> is_Some (m_outgoingLinks st' !! n)) ->
  pendingWellFormed st -> pendingWellFormed st'.
Proof.
  intros Hn Hp Hl [Hseq Hwf]. split; [rewrite Hn; exact Hseq|].
  intros seq n t H. destruct (Hwf seq n t (Hp _ _ H)) as [Hr Hs].
  split; [exact Hr | apply Hl, Hs].
Qed.

Lemma scheduleRttMeasurement_core cfg st n env :
  let st' := scheduleRttMeasurement cfg st n env in
  m_pendingMeasurements st' = m_pendingMeasurements st
  /\ m_nextSequenceNumber st' = m_nextSequenceNumber st
  /\ m_outgoingLinks st' = m_outgoingLinks st.
Proof. unfold scheduleRttMeasurement. destruct (m_isActive st); repeat split. Qed.

Lemma startupSweep_core cfg st env :
  let st' := startupSweep cfg st env in
  m_pendingMeasurements st' = m_pendingMeasurements st
  /\ m_nextSequenceNumber st' = m_nextSequenceNumber st
  /\ m_outgoingLinks st' = m_outgoingLinks st.
Proof.
  unfold startupSweep. simpl.
  induction (map_to_list (m_outgoingLinks st)) as [|[n l] rest IH]; simpl;
    [repeat split|].
  destruct (isStable l); [|exact IH].
  destruct IH as (H1 & H2 & H3).
  match goal with |- context [scheduleRttMeasurement cfg ?s n env] =>
    destruct (scheduleRttMeasurement_core cfg s n env) as (E1 & E2 & E3)
  end.
  repeat split; congruence.
Qed.

Lemma updateNeighborCost_nextSeq st n c env :
  m_nextSequenceNumber (updateNeighborCost st n c env) = m_nextSequenceNumber st.
Proof. unfold updateNeighborCost. repeat case_match; reflexivity. Qed.

Lemma handleRttResponse_nextSeq cfg st n seq sendTime env :
  m_nextSequenceNumber (handleRttResponse cfg st n seq sendTime env)
  = m_nextSequenceNumber st.
Proof.
  unfold handleRttResponse. repeat case_match; try reflexivity;
    rewrite updateNeighborCost_nextSeq; repeat case_match; reflexivity.
Qed.

Lemma wrap32_range x : (0 <= wrap32 x < 2 ^ 32)%Z.
Proof. unfold wrap32. apply Z.mod_pos_bound. reflexivity. Qed.

Lemma scheduleRttMeasurement_pending cfg st n env :
  m_pendingMeasurements (scheduleRttMeasurement cfg st n env) = m_pendingMeasurements st.
Proof. apply scheduleRttMeasurement_core. Qed.

Lemma scheduleRttMeasurement_nextSeq cfg st n env :
  m_nextSequenceNumber (scheduleRttMeasurement cfg st n env) = m_nextSequenceNumber st.
Proof. apply scheduleRttMeasurement_core. Qed.

Lemma onHelloDataReceived_core cfg st n env :
  m_pendingMeasurements (onHelloDataReceived cfg st n env) = m_pendingMeasurements st
  /\ m_nextSequenceNumber (onHelloDataReceived cfg st n env) = m_nextSequenceNumber st.
Proof.
  unfold onHelloDataReceived. destruct (m_outgoingLinks st !! n); [|done].
  case_match; [|done].
  rewrite scheduleRttMeasurement_pending, scheduleRttMeasurement_nextSeq. done.
Qed.

Lemma onNeighborStatusChanged_core cfg st n s env :
  (forall seq v, m_pendingMeasurements (onNeighborStatusChanged cfg st n s env) !! seq = Some v ->
                 m_pendingMeasurements st !! seq = Some v)
  /\ m_nextSequenceNumber (onNeighborStatusChanged cfg st n s env) = m_nextSequenceNumber st.
Proof.
  unfold onNeighborStatusChanged. destruct (m_outgoingLinks st !! n); [|done].
  destruct (decide (s = STATUS_INACTIVE)).
  { split; [|reflexivity]. intros seq v. simpl. unfold cancelPending. intros H.
    apply map_lookup_filter_Some in H. tauto. }
  destruct (decide (s = STATUS_ACTIVE /\ _)); [|done].
  destruct (m_adjacencyList st !! n); (case_match; [|done]);
    rewrite scheduleRttMeasurement_pending, scheduleRttMeasurement_nextSeq; done.
Qed.

Lemma fireTimer_pendingWellFormed cfg st due t env :
  pendingWellFormed st -> pendingWellFormed (fireTimer cfg st due t env).
Proof.
  intros Hwf. unfold fireTimer. case_match; [|exact Hwf].
  set (st0 := with_scheduler _ st).
  assert (Hwf0 : pendingWellFormed st0) by exact Hwf.
  clearbody st0. clear Hwf. destruct t as [| |m]; cbn [runTask].
  - destruct (startupSweep_core cfg st0 env) as (E1 & E2 & E3).
    apply (pendingWellFormed_shrink st0); [exact E2 | | | exact Hwf0].
    + intros seq v. rewrite E1. auto.
    + intros n. rewrite E3. auto.
  - unfold generateStatusReport. destruct (m_isActive st0); exact Hwf0.
  - set (st1 := if canMeasureNow st0 m then _ else st0).
    assert (Hwf1 : pendingWellFormed st1).
    { unfold st1. destruct (canMeasureNow st0 m) eqn:Hc; [|exact Hwf0].
      destruct Hwf0 as [Hseq Hp]. split; [apply wrap32_range|].
      intros seq n t. simpl. intros Hl.
      destruct (decide (m_nextSequenceNumber st0 = seq)) as [<-|Hne].
      - rewrite lookup_insert_eq in Hl. injection Hl as <- <-.
        split; [exact Hseq|]. unfold canMeasureNow in Hc.
        destruct (m_outgoingLinks st0 !! m); [eauto | discriminate].
      - rewrite lookup_insert_ne in Hl by exact Hne. apply (Hp seq n t Hl). }
    destruct (scheduleRttMeasurement_core cfg st1 m env) as (E1 & E2 & E3).
    apply (pendingWellFormed_shrink st1); [exact E2 | | | exact Hwf1].
    + intros seq v. rewrite E1. auto.
    + intros n. rewrite E3. auto.
Qed.

Lemma step_pendingWellFormed cfg st ev :
  pendingWellFormed st -> pendingWellFormed (step cfg st ev).
Proof.
  intros Hwf. destruct (isStop ev) eqn:Hs.
  { apply isStop_true in Hs as [env ->]. rewrite step_stop. unfold stop.
    destruct (m_isActive st); [|exact Hwf]. split; [exact (proj1 Hwf)|].
    intros seq n t. simpl. rewrite lookup_empty. discriminate. }
  pose proof (step_evolves cfg st ev Hs) as He.
  assert (Hdom : forall n, is_Some (m_outgoingLinks st !! n) ->
                           is_Some (m_outgoingLinks (step cfg st ev) !! n))
    by (intros n; apply evolves_is_Some, He).
  destruct ev as [ev env]. unfold step in *. destruct ev; simpl in *; try discriminate.
  - apply (pendingWellFormed_shrink st); try assumption.
    + unfold start. destruct (m_isActive st); reflexivity.
    + unfold start. destruct (m_isActive st); auto.
  - exact Hwf.
  - destruct (onHelloDataReceived_core cfg st n env) as [E1 E2].
    apply (pendingWellFormed_shrink st); try assumption.
    intros seq v. rewrite E1. auto.
  - apply (pendingWellFormed_shrink st); try assumption.
    + unfold onHelloTimeout. repeat case_match; reflexivity.
    + rewrite onHelloTimeout_pending. auto.
  - destruct (onNeighborStatusChanged_core cfg st n s env) as [E1 E2].
    apply (pendingWellFormed_shrink st); assumption.
  - apply fireTimer_pendingWellFormed, Hwf.
  - apply (pendingWellFormed_shrink st); try assumption.
    + apply handleRttResponse_nextSeq.
    + intros s v. rewrite handleRttResponse_pending. intros H.
      apply lookup_delete_Some in H. tauto.
  - apply (pendingWellFormed_shrink st); try assumption.
    + unfold handleRttTimeout. case_match; reflexivity.
    + intros s v. rewrite handleRttTimeout_pending. intros H.
      apply lookup_delete_Some in H. tauto.
  - exact Hwf.
  - exact Hwf.
  - exact Hwf.
  - exact Hwf.
Qed.

(** X5: in every state the manager reaches, each pending probe was sent to
    a neighbor the store knows and is filed under a sequence number in the
    32-bit range, and so is the number the next probe will get. *)
Theorem pending_probes_well_formed (cfg : ConfParameter) (adj : gmap Name Adjacent)
    (env0 : Env) (evs : list (Event * Env)) :
  pendingWellFormed (run cfg (initialManager adj env0) evs).
Proof.
  assert (H0 : pendingWellFormed (initialManager adj env0)).
  { split; [simpl; lia|]. intros seq n t. simpl. rewrite lookup_empty. discriminate. }
  revert H0. generalize (initialManager adj env0).
  induction evs as [|ev evs IH]; intros st Hst; [exact Hst|].
  rewrite run_cons. apply IH, step_pendingWellFormed, Hst.
Qed.

(** ** Timers, gates and frames of single handlers *)

(** X6: on an active manager [scheduleRttMeasurement] arms exactly one
    measurement timer for the neighbor, due strictly after the current time;
    with a positive measurement interval the timer is due between one
    interval and less than one interval plus five seconds from now. *)
Theorem measurement_timer_due (cfg : ConfParameter) (st : LinkCostManager) (n : Name)
    (env : Env) :
  m_isActive st = true ->
  exists due,
    m_scheduler (scheduleRttMeasurement cfg st n env)
      = (due, TaskRttMeasurement n) :: m_scheduler st
    /\ (now env < due)%Z
    /\ ((0 < measurementInterval cfg)%Z ->
        (measurementInterval cfg <= due - now env < measurementInterval cfg + seconds 5)%Z).
Proof.
  intros Ha. unfold scheduleRttMeasurement, calculateSafeMeasurementTime, schedule.
  rewrite Ha. simpl.
  pose proof (Z.mod_pos_bound (wrap32 (random env n)) 5000 ltac:(lia)) as Hoff.
  set (off := (wrap32 (random env n) mod 5000)%Z) in *.
  unfold milliseconds, seconds in *.
  clearbody off. eexists. split; [reflexivity|]. case_decide; split; lia.
Qed.

Lemma measurement_timer_due_witness :
  exists due,
    m_scheduler (scheduleRttMeasurement exampleConf inflatedManager neighborA (quietEnv 7))
      = (due, TaskRttMeasurement neighborA) :: m_scheduler inflatedManager
    /\ (now (quietEnv 7) < due)%Z
    /\ ((0 < measurementInterval exampleConf)%Z ->
        (measurementInterval exampleConf <= due - now (quietEnv 7)
         < measurementInterval exampleConf + seconds 5)%Z).
Proof.
  apply (measurement_timer_due exampleConf inflatedManager neighborA (quietEnv 7)).
  reflexivity.
Defined.

Lemma toMilliseconds_nonneg d : (0 <= d)%Z -> (0 <= toMilliseconds d)%Z.
Proof. intros H. unfold toMilliseconds. apply Z.quot_pos; lia. Qed.

Lemma getAverageRtt_nonneg l :
  Forall (fun m => (0 <= rtt m)%Z) (rttHistory l) -> (0 <= getAverageRtt l)%Z.
Proof.
  intros H. unfold getAverageRtt. destruct (rttHistory l) eqn:E; [lia|].
  apply Z.quot_pos; [apply sumRtt_nonneg; exact H | simpl; lia].
Qed.

(** The cost formula of [calculateNewCost] as a function of the average. *)
Lemma rttCost_mono (orig mult : R) (a b : Z) :
  0 <= orig -> (0 <= a <= b)%Z ->
  round (Rmin (orig * (1 + ln (1 + IZR a / 100))) (orig * mult))
  <= round (Rmin (orig * (1 + ln (1 + IZR b / 100))) (orig * mult)).
Proof.
  intros Ho [Ha Hab]. apply round_mono.
  assert (H0 : 0 <= IZR a) by (apply IZR_le; exact Ha).
  assert (H1 : IZR a <= IZR b) by (apply IZR_le; exact Hab).
  assert (Hln : ln (1 + IZR a / 100) <= ln (1 + IZR b / 100))
    by (apply ln_le_compat; lra).
  apply Rmin_glb; [|apply Rmin_r].
  eapply Rle_trans; [apply Rmin_l|]. nra.
Qed.

Lemma rttCost_lower (orig mult : R) (a : Z) :
  0 <= orig -> 1 <= mult -> (0 <= a)%Z ->
  orig <= Rmin (orig * (1 + ln (1 + IZR a / 100))) (orig * mult) <= orig * mult.
Proof.
  intros Ho Hm Ha. assert (H0 : 0 <= IZR a) by (apply IZR_le; exact Ha).
  assert (Hln : 0 <= ln (1 + IZR a / 100)).
  { rewrite <- ln_1. apply ln_le_compat; lra. }
  split; [apply Rmin_glb; nra | apply Rmin_r].
Qed.

(** X7: for a neighbor that is not INACTIVE, with a non-negative integral
    original cost, a multiplier of at least 1 and non-negative samples, the
    cost [calculateNewCost] returns lies between the original cost and the
    rounded cap [original × multiplier]; and of two such neighbors with the
    same original cost the one with the larger average RTT never gets the
    smaller cost. *)
Theorem calculateNewCost_bounds (cfg : ConfParameter) (st : LinkCostManager) (n : Name)
    (l : OutgoingLinkState) (k : Z) :
  m_outgoingLinks st !! n = Some l -> status l <> STATUS_INACTIVE ->
  originalCost l = IZR k -> (0 <= k)%Z -> 1 <= maxCostMultiplier cfg ->
  Forall (fun m => (0 <= rtt m)%Z) (rttHistory l) ->
  IZR k <= calculateNewCost cfg st n <= round (IZR k * maxCostMultiplier cfg)
  /\ (forall st2 n2 l2,
        m_outgoingLinks st2 !! n2 = Some l2 -> status l2 <> STATUS_INACTIVE ->
        originalCost l2 = IZR k -> rttHistory l <> [] -> rttHistory l2 <> [] ->
        (toMilliseconds (getAverageRtt l) <= toMilliseconds (getAverageRtt l2))%Z ->
        calculateNewCost cfg st n <= calculateNewCost cfg st2 n2).
Proof.
  intros Hl Hs Ho Hk Hm Hpos.
  assert (HK : 0 <= IZR k) by (apply IZR_le; exact Hk).
  assert (Havg : (0 <= toMilliseconds (getAverageRtt l))%Z)
    by (apply toMilliseconds_nonneg, getAverageRtt_nonneg, Hpos).
  split.
  - unfold calculateNewCost. rewrite Hl. rewrite decide_False by exact Hs. rewrite Ho.
    destruct (rttHistory l) eqn:Hh.
    + split; [lra|]. rewrite <- (round_IZR k) at 1. apply round_mono. nra.
    + pose proof (rttCost_lower (IZR k) (maxCostMultiplier cfg) _ HK Hm Havg) as [Hlo Hhi].
      split; [|apply round_mono; exact Hhi].
      rewrite <- (round_IZR k) at 1. apply round_mono. exact Hlo.
  - intros st2 n2 l2 Hl2 Hs2 Ho2 Hne Hne2 Hle.
    unfold calculateNewCost. rewrite Hl, Hl2.
    rewrite !decide_False by assumption. rewrite Ho, Ho2.
    destruct (rttHistory l); [done|]. destruct (rttHistory l2); [done|].
    apply rttCost_mono; [exact HK | lia].
Qed.

Lemma calculateNewCost_bounds_witness :
  10 <= calculateNewCost exampleConf (managerWith link400) neighborA
     <= round (10 * maxCostMultiplier exampleConf).
Proof.
  apply (calculateNewCost_bounds exampleConf (managerWith link400) neighborA link400 10
           (lookup_managerWith link400)).
  - discriminate.
  - reflexivity.
  - lia.
  - simpl. lra.
  - repeat constructor; discriminate.
Defined.

Lemma ratio_gates (a b t : R) :
  5 / 100 <= t -> ratio_ge a b t = true -> ratio_lt a b (5 / 100) = false.
Proof.
  unfold ratio_ge, ratio_lt. intros Ht. destruct (decide (b = 0)); [reflexivity|].
  rewrite bool_decide_eq_true, bool_decide_eq_false. lra.
Qed.

(** X8: the two change gates compose.  When the store and the adjacency
    hold the same cost, no calculator is registered and the configured
    threshold is at least 0.05, every candidate that [shouldUpdateCost]
    accepts for a neighbor that is not INACTIVE is written by
    [updateNeighborCost] into both the store and the adjacency. *)
Theorem accepted_cost_is_applied (cfg : ConfParameter) (st : LinkCostManager) (n : Name)
    (c : R) (env : Env) (l : OutgoingLinkState) (a : Adjacent) :
  m_outgoingLinks st !! n = Some l -> m_adjacencyList st !! n = Some a ->
  linkCost a = currentCost l -> status l <> STATUS_INACTIVE ->
  m_loadAwareCostCalculator st = None ->
  5 / 100 <= costChangeThreshold cfg ->
  shouldUpdateCost cfg st n c = true ->
  let st' := updateNeighborCost st n c env in
  (currentCost <$> m_outgoingLinks st' !! n) = Some c
  /\ (linkCost <$> m_adjacencyList st' !! n) = Some c.
Proof.
  intros Hl Ha Hagree Hs Hcalc Ht Hshould st'.
  unfold shouldUpdateCost in Hshould. rewrite Hl in Hshould.
  assert (Hd : delegatedCost st n c = Some c)
    by (unfold delegatedCost; rewrite Hcalc; reflexivity).
  assert (Hgate : ratio_lt (Rabs (c - linkCost a)) (linkCost a) (5 / 100) = false)
    by (rewrite Hagree; exact (ratio_gates _ _ _ Ht Hshould)).
  unfold st', updateNeighborCost. rewrite Ha, Hl, Hd, Hgate.
  rewrite decide_False by exact Hs.
  repeat case_decide; simpl; rewrite !lookup_insert_eq; split; reflexivity.
Qed.

Lemma accepted_cost_is_applied_witness :
  (currentCost <$> m_outgoingLinks
     (updateNeighborCost (managerWith link400) neighborA 26 (quietEnv (seconds 60)))
     !! neighborA) = Some 26
  /\ (linkCost <$> m_adjacencyList
        (updateNeighborCost (managerWith link400) neighborA 26 (quietEnv (seconds 60)))
        !! neighborA) = Some 26.
Proof.
  apply (accepted_cost_is_applied exampleConf (managerWith link400) neighborA 26
           (quietEnv (seconds 60)) link400 (mkAdjacent STATUS_ACTIVE 10 10 0)
           (lookup_managerWith link400)).
  - apply lookup_singleton_eq.
  - reflexivity.
  - discriminate.
  - reflexivity.
  - simpl. lra.
  - unfold shouldUpdateCost. rewrite lookup_managerWith. simpl.
    unfold ratio_ge. rewrite decide_False by lra. apply bool_decide_eq_true_2.
    replace (26 - 10) with 16 by lra. rewrite Rabs_right by lra. lra.
Defined.

(** X9: a probe response for a neighbor that is unknown or not stable
    (not ACTIVE, or with hello timeouts counted) changes no link state, no
    adjacency and sends nothing to the collaborators, whatever its
    round-trip time; it can only consume its pending entry. *)
Theorem unstable_neighbor_response_ignored (cfg : ConfParameter) (st : LinkCostManager)
    (n : Name) (seq sendTime : Z) (env : Env) :
  (forall l, m_outgoingLinks st !! n = Some l -> isStable l = false) ->
  let st' := handleRttResponse cfg st n seq sendTime env in
  m_outgoingLinks st' = m_outgoingLinks st
  /\ m_adjacencyList st' = m_adjacencyList st
  /\ outputs st' = outputs st
  /\ m_pendingMeasurements st' = delete seq (m_pendingMeasurements st).
Proof.
  intros Hun st'. split; [|split; [|split]]; [| | |apply handleRttResponse_pending].
  all: unfold st', handleRttResponse.
  all: destruct (m_pendingMeasurements st !! seq); [|reflexivity].
  all: case_match; [reflexivity|].
  all: simpl; destruct (m_outgoingLinks st !! n) as [l|] eqn:Hl; [|reflexivity].
  all: rewrite (Hun l eq_refl); reflexivity.
Qed.

Lemma unstable_neighbor_response_ignored_witness :
  m_outgoingLinks (handleRttResponse exampleConf probingManager ["ndn"; "B"]%string 1 0
                     (quietEnv 300000))
  = m_outgoingLinks probingManager.
Proof.
  apply (unstable_neighbor_response_ignored exampleConf probingManager
           ["ndn"; "B"]%string 1 0 (quietEnv 300000)).
  intros l Hl. vm_compute in Hl. discriminate Hl.
Defined.

Lemma untouched_refl m st : untouched m st st.
Proof. split; reflexivity. Qed.

Lemma untouched_trans m st1 st2 st3 :
  untouched m st1 st2 -> untouched m st2 st3 -> untouched m st1 st3.
Proof. intros [A B] [C D]. split; congruence. Qed.

Lemma untouched_same m st st' :
  m_outgoingLinks st' = m_outgoingLinks st -> m_adjacencyList st' = m_adjacencyList st ->
  untouched m st st'.
Proof. intros A B. split; congruence. Qed.

Lemma untouched_insert m n st st' l' :
  n <> m ->
  m_outgoingLinks st' = <[n := l']> (m_outgoingLinks st) ->
  m_adjacencyList st' = m_adjacencyList st ->
  untouched m st st'.
Proof.
  intros Hne A B. split; [|congruence]. rewrite A. apply lookup_insert_ne, Hne.
Qed.

Lemma untouched_schedule cfg m st n env : untouched m st (scheduleRttMeasurement cfg st n env).
Proof.
  unfold scheduleRttMeasurement. destruct (m_isActive st); apply untouched_same; reflexivity.
Qed.

Lemma untouched_update m st n c env :
  n <> m -> untouched m st (updateNeighborCost st n c env).
Proof.
  intros Hne.
  destruct (updateNeighborCost_effect st n c env)
    as [-> | (a & l & final & _ & _ & _ & _ & _ & Hadj & Hcase)]; [apply untouched_refl|].
  split.
  - destruct Hcase as [(_ & -> & _) | (_ & -> & _)]; apply lookup_insert_ne, Hne.
  - rewrite Hadj. apply lookup_insert_ne, Hne.
Qed.

(** X10: an event about one neighbor (a hello event, a status change, a
    probe response or timeout) leaves the link state and the adjacency of
    every other neighbor as they were; an event about no neighbor, other
    than [stop], changes no link state and no adjacency at all. *)
Theorem events_touch_only_their_neighbor (cfg : ConfParameter) (st : LinkCostManager)
    (ev : Event * Env) (m : Name) :
  isStop ev = false -> eventNeighbor ev <> Some m ->
  untouched m st (step cfg st ev).
Proof.
  destruct ev as [ev env]. unfold step, isStop, eventNeighbor.
  destruct ev; simpl; intros Hs Hne; try discriminate.
  - unfold start. destruct (m_isActive st); apply untouched_same; reflexivity.
  - apply untouched_refl.
  - assert (n <> m) by congruence.
    unfold onHelloDataReceived. destruct (m_outgoingLinks st !! n); [|apply untouched_refl].
    match goal with |- untouched m st (if _ then scheduleRttMeasurement cfg ?s n env else _) =>
      assert (Hq : untouched m st s) by (eapply untouched_insert; [eassumption | reflexivity..])
    end.
    case_match; [|exact Hq].
    eapply untouched_trans; [exact Hq | apply untouched_schedule].
  - assert (n <> m) by congruence.
    unfold onHelloTimeout. destruct (m_outgoingLinks st !! n); [|apply untouched_refl].
    eapply untouched_insert; [eassumption | reflexivity..].
  - assert (Hnm : n <> m) by congruence.
    unfold onNeighborStatusChanged. destruct (m_outgoingLinks st !! n); [|apply untouched_refl].
    destruct (decide (s = STATUS_INACTIVE)).
    { eapply untouched_insert; [eassumption | reflexivity..]. }
    destruct (decide (s = STATUS_ACTIVE /\ _)).
    + destruct (m_adjacencyList st !! n).
      * match goal with |- untouched m st (if _ then scheduleRttMeasurement cfg ?s' n env else _) =>
          assert (Hq : untouched m st s')
        end.
        { split; simpl; apply lookup_insert_ne, Hnm. }
        case_match; [|exact Hq].
        eapply untouched_trans; [exact Hq | apply untouched_schedule].
      * match goal with |- untouched m st (if _ then scheduleRttMeasurement cfg ?s' n env else _) =>
          assert (Hq : untouched m st s') by (eapply untouched_insert; [eassumption | reflexivity..])
        end.
        case_match; [|exact Hq].
        eapply untouched_trans; [exact Hq | apply untouched_schedule].
    + eapply untouched_insert; [eassumption | reflexivity..].
  - unfold fireTimer. case_match; [|apply untouched_refl].
    apply untouched_same.
    + match goal with |- m_outgoingLinks (runTask cfg ?s t env) = _ =>
        change (m_outgoingLinks st) with (m_outgoingLinks s); generalize s
      end.
      intros s. destruct t as [| |k]; cbn [runTask].
      * apply startupSweep_core.
      * unfold generateStatusReport. destruct (m_isActive s); reflexivity.
      * rewrite (proj2 (proj2 (scheduleRttMeasurement_core cfg _ k env))).
        destruct (canMeasureNow s k); reflexivity.
    + match goal with |- m_adjacencyList (runTask cfg ?s t env) = _ =>
        change (m_adjacencyList st) with (m_adjacencyList s); generalize s
      end.
      intros s. destruct t as [| |k]; cbn [runTask].
      * unfold startupSweep. simpl.
        induction (map_to_list (m_outgoingLinks s)) as [|[k l] rest IH]; simpl;
          [reflexivity|].
        destruct (isStable l); [|exact IH].
        unfold scheduleRttMeasurement. case_match; [exact IH | exact IH].
      * unfold generateStatusReport. destruct (m_isActive s); reflexivity.
      * unfold scheduleRttMeasurement. case_match; destruct (canMeasureNow s k); reflexivity.
  - assert (Hnm : n <> m) by congruence.
    unfold handleRttResponse.
    destruct (m_pendingMeasurements st !! seq); [|apply untouched_refl].
    set (st1 := with_successfulMeasurements _ _).
    assert (H1 : untouched m st st1) by (apply untouched_same; reflexivity).
    case_match; [exact H1|].
    destruct (m_outgoingLinks st1 !! n) as [l|]; [|exact H1].
    destruct (isStable l); [|exact H1].
    set (l2 := addRttMeasurement _ _ _ l).
    set (st2 := with_outgoingLinks _ st1).
    assert (H2 : untouched m st1 st2)
      by (eapply untouched_insert; [exact Hnm | reflexivity..]).
    set (st3 := if m_mlFeedbackCallback st2 && _ then _ else st2).
    assert (H3 : untouched m st2 st3)
      by (unfold st3; case_match; [apply untouched_same; reflexivity | apply untouched_refl]).
    assert (H13 : untouched m st st3).
    { eapply untouched_trans; [exact H1|]. eapply untouched_trans; [exact H2 | exact H3]. }
    destruct (bool_decide (3 <= length (rttHistory l2))%nat); [|exact H13].
    destruct (shouldUpdateCost cfg st3 n (calculateNewCost cfg st3 n)); [|exact H13].
    eapply untouched_trans; [exact H13 | apply untouched_update, Hnm].
  - unfold handleRttTimeout. destruct (m_pendingMeasurements st !! seq);
      [apply untouched_same; reflexivity | apply untouched_refl].
  - apply untouched_same; reflexivity.
  - apply untouched_same; reflexivity.
  - apply untouched_same; reflexivity.
  - apply untouched_same; reflexivity.
Qed.

Lemma events_touch_only_their_neighbor_witness :
  untouched ["ndn"; "B"]%string inflatedManager
    (step exampleConf inflatedManager
          (EvNeighborStatusChanged neighborA STATUS_INACTIVE, quietEnv (seconds 41))).
Proof.
  apply (events_touch_only_their_neighbor exampleConf inflatedManager
           (EvNeighborStatusChanged neighborA STATUS_INACTIVE, quietEnv (seconds 41))
           ["ndn"; "B"]%string).
  - reflexivity.
  - discriminate.
Defined.

(** ** The performance feedback *)

Lemma rttScore_range (x : R) : 0 <= calculateRttPerformanceScore x <= 1.
Proof.
  unfold calculateRttPerformanceScore, RTT_EXCELLENT_THRESHOLD, RTT_GOOD_THRESHOLD,
    RTT_FAIR_THRESHOLD, RTT_POOR_THRESHOLD.
  assert (0 <= Rmin (1 / 10) ((x - 200) / 800 * (1 / 10)) \/ x <= 200).
  { destruct (Rle_dec x 200); [by right | left; apply Rmin_glb; lra]. }
  pose proof (Rmin_l (1 / 10) ((x - 200) / 800 * (1 / 10))).
  repeat case_decide; lra.
Qed.

(** X11: the RTT score is 0 up to 10 ms, rises through 0.3 at 50 ms, 0.6 at
    100 ms and 0.9 at 200 ms, reaches 1 at 1000 ms and stays there; it
    never decreases when the RTT grows and always lies in [0, 1]. *)
Theorem rttPerformanceScore_shape (x y : R) :
  0 <= calculateRttPerformanceScore x <= 1
  /\ (x <= y -> calculateRttPerformanceScore x <= calculateRttPerformanceScore y)
  /\ (x <= 10 -> calculateRttPerformanceScore x = 0)
  /\ calculateRttPerformanceScore 50 = 3 / 10
  /\ calculateRttPerformanceScore 100 = 6 / 10
  /\ calculateRttPerformanceScore 200 = 9 / 10
  /\ (1000 <= x -> calculateRttPerformanceScore x = 1).
Proof.
  unfold calculateRttPerformanceScore, RTT_EXCELLENT_THRESHOLD, RTT_GOOD_THRESHOLD,
    RTT_FAIR_THRESHOLD, RTT_POOR_THRESHOLD.
  repeat split.
  - repeat case_decide; try lra.
    pose proof (Rmin_l (1 / 10) ((x - 200) / 800 * (1 / 10))).
    assert (0 <= Rmin (1 / 10) ((x - 200) / 800 * (1 / 10))) by (apply Rmin_glb; lra).
    lra.
  - repeat case_decide; try lra.
    pose proof (Rmin_l (1 / 10) ((x - 200) / 800 * (1 / 10))). lra.
  - intros Hxy.
    assert (Hmin : forall z, 200 < z ->
              0 <= Rmin (1 / 10) ((z - 200) / 800 * (1 / 10)) <= 1 / 10).
    { intros z Hz. split; [apply Rmin_glb; lra | apply Rmin_l]. }
    repeat case_decide; try lra.
    + pose proof (Hmin y ltac:(lra)). lra.
    + pose proof (Hmin y ltac:(lra)). lra.
    + pose proof (Hmin y ltac:(lra)). lra.
    + pose proof (Hmin y ltac:(lra)). lra.
    + assert (Rmin (1 / 10) ((x - 200) / 800 * (1 / 10))
              <= Rmin (1 / 10) ((y - 200) / 800 * (1 / 10))); [|lra].
      apply Rmin_glb; [apply Rmin_l|].
      eapply Rle_trans; [apply Rmin_r|]. lra.
  - intros Hx. rewrite decide_True by lra. reflexivity.
  - repeat case_decide; lra.
  - repeat case_decide; lra.
  - repeat case_decide; lra.
  - intros Hx. repeat case_decide; try lra. rewrite Rmin_left by lra. lra.
Qed.

Lemma rttPerformanceScore_shape_witness :
  calculateRttPerformanceScore 400 <= calculateRttPerformanceScore 2000.
Proof.
  apply (proj1 (proj2 (rttPerformanceScore_shape 400 2000))). lra.
Defined.

Lemma stabilityScore_range st n : 0 <= calculateStabilityPerformanceScore st n <= 1.
Proof.
  unfold calculateStabilityPerformanceScore.
  destruct (m_outgoingLinks st !! n) as [l|]; [|lra].
  destruct (decide (length (rttHistory l) < 3)%nat); [lra|].
  cbv zeta. set (cv := if decide (0 < _) then _ else 0). clearbody cv.
  repeat case_decide; try lra.
  assert (0 <= Rmin (6 / 10) ((cv - 3 / 10) / (7 / 10) * (6 / 10)) <= 6 / 10)
    by (split; [apply Rmin_glb; lra | apply Rmin_l]).
  lra.
Qed.

Lemma reliabilityScore_range l : 0 <= calculateReliabilityPerformanceScore l <= 8 / 10.
Proof. unfold calculateReliabilityPerformanceScore. repeat case_decide; lra. Qed.

Lemma trendScore_range st n : 0 <= calculateTrendPerformanceScore st n <= 8 / 10.
Proof.
  unfold calculateTrendPerformanceScore.
  destruct (m_outgoingLinks st !! n) as [l|]; [|lra].
  cbv zeta. repeat case_decide; lra.
Qed.

(** X12: for a neighbor of the store the published performance is the
    weighted sum of the four scores as it stands: the sum already lies
    between 0 and 0.92, so the final clamp to [0, 1] never changes it; for an
    unknown neighbor the performance is 0.5. *)
Theorem realTimePerformance_is_weighted_sum (st : LinkCostManager) (n : Name)
    (currentRtt : Z) :
  match m_outgoingLinks st !! n with
  | None => calculateRealTimePerformance st n currentRtt = 5 / 10
  | Some l =>
    calculateRealTimePerformance st n currentRtt
    = 4 / 10 * calculateRttPerformanceScore (IZR (toMilliseconds currentRtt))
      + 2 / 10 * calculateStabilityPerformanceScore st n
      + 3 / 10 * calculateReliabilityPerformanceScore l
      + 1 / 10 * calculateTrendPerformanceScore st n
    /\ 0 <= calculateRealTimePerformance st n currentRtt <= 92 / 100
  end.
Proof.
  unfold calculateRealTimePerformance.
  destruct (m_outgoingLinks st !! n) as [l|] eqn:Hl; [|reflexivity].
  pose proof (rttScore_range (IZR (toMilliseconds currentRtt))) as Hr.
  pose proof (stabilityScore_range st n) as Hs.
  pose proof (reliabilityScore_range l) as Hre.
  pose proof (trendScore_range st n) as Ht.
  assert (Hsum : 0 <= totalPerformance st n l currentRtt <= 92 / 100).
  { unfold totalPerformance, RTT_WEIGHT, STABILITY_WEIGHT, RELIABILITY_WEIGHT, TREND_WEIGHT.
    lra. }
  rewrite Rmin_right by lra. rewrite Rmax_right by lra.
  split; [reflexivity | exact Hsum].
Qed.

(** * Further properties of the ML calculator *)

Lemma INR_ratio_range (a b : nat) : (a <= b)%nat -> (0 < b)%nat -> 0 <= INR a / INR b <= 1.
Proof.
  intros Hab Hb. assert (Hb' : 0 < INR b) by (apply lt_0_INR; exact Hb).
  assert (Ha : 0 <= INR a) by apply pos_INR.
  assert (Hab' : INR a <= INR b) by (apply le_INR; exact Hab).
  split.
  - apply Rmult_le_reg_r with (INR b); [exact Hb'|].
    unfold Rdiv. rewrite Rmult_assoc, Rinv_l by lra. lra.
  - apply Rmult_le_reg_r with (INR b); [exact Hb'|].
    unfold Rdiv. rewrite Rmult_assoc, Rinv_l by lra. lra.
Qed.

(** X13: whatever histories the calculator holds, the RTT trend and the
    load indicator lie in [-1, 1] and the variation coefficient and the
    success rate lie in [0, 1]. *)
Theorem features_bounded (ml : MLAdaptiveCalculator) (n : Name) :
  -1 <= calculateRttTrend ml n <= 1
  /\ 0 <= calculateRttVariationCoefficient ml n <= 1
  /\ 0 <= calculateSuccessRate ml n <= 1
  /\ -1 <= calculateLoadIndicator ml n <= 1.
Proof.
  assert (Hclamp : forall v, -1 <= Rmax (-1) (Rmin v 1) <= 1).
  { intros v. split; [apply Rmax_l|]. apply Rmax_lub; [lra | apply Rmin_r]. }
  split; [|split; [|split]].
  - unfold calculateRttTrend. destruct (m_rttHistory ml !! n) as [h|]; [|lra].
    cbv zeta. repeat case_decide; try lra. apply Hclamp.
  - unfold calculateRttVariationCoefficient.
    destruct (m_rttHistory ml !! n) as [h|]; [|lra].
    cbv zeta. repeat case_decide; try lra.
    set (mean := sumR h / INR (length h)) in *.
    set (sd := sqrt _). assert (Hsd : 0 <= sd) by apply sqrt_pos.
    assert (Hq : 0 <= sd / mean).
    { apply Rmult_le_pos; [exact Hsd|]. left. apply Rinv_0_lt_compat. lra. }
    split; [apply Rmin_glb; lra | apply Rmin_r].
  - unfold calculateSuccessRate. destruct (m_rttHistory ml !! n) as [[|x h]|]; try lra.
    apply INR_ratio_range; [apply length_filter | simpl; lia].
  - unfold calculateLoadIndicator. destruct (m_rttHistory ml !! n) as [h|]; [|lra].
    cbv zeta. repeat case_decide; try lra. apply Hclamp.
Qed.

Lemma pushBounded_length {A} (cap : nat) (x : A) (h : list A) :
  (length h <= cap)%nat -> (length (pushBounded cap x h) <= cap)%nat.
Proof.
  intros Hh. unfold pushBounded. case_decide as Hc.
  - rewrite length_drop, length_app. simpl. lia.
  - rewrite length_app in *. simpl in *. lia.
Qed.

Lemma updateModelWithFeedback_frame ml n x actual c :
  let ml' := updateModelWithFeedback ml n x actual c in
  m_rttHistory ml' = m_rttHistory ml
  /\ m_performanceHistory ml' = m_performanceHistory ml
  /\ m_patternLearner ml' = m_patternLearner ml.
Proof.
  unfold updateModelWithFeedback, adaptLearningRate.
  repeat case_match; repeat split.
Qed.

Lemma mlStep_historiesBounded ml call :
  historiesBounded ml -> historiesBounded (mlStep ml call).
Proof.
  intros [Hr Hp]. destruct call as [|n metrics c|n actual c]; simpl.
  - split; assumption.
  - unfold predictLinkQuality. simpl. destruct (lm_currentRtt metrics) as [d|];
      [|split; assumption].
    split; [|exact Hp]. intros m h. simpl. destruct (decide (n = m)) as [<-|Hne].
    + rewrite lookup_insert_eq. intros [= <-]. apply pushBounded_length.
      destruct (m_rttHistory ml !! n) as [h0|] eqn:E; simpl; [eauto | unfold MAX_RTT_HISTORY; lia].
    + rewrite lookup_insert_ne by exact Hne. apply Hr.
  - unfold reportPathPerformance.
    set (ml1 := with_patternLearner _ ml).
    destruct (updateModelWithFeedback_frame ml1 n (extractCoreFeatures ml n c) actual c)
      as (E1 & E2 & _).
    set (ml2 := updateModelWithFeedback ml1 n _ actual c) in *.
    split; simpl.
    + intros m h. rewrite E1. apply Hr.
    + intros m h. rewrite E2. destruct (decide (n = m)) as [<-|Hne].
      * rewrite lookup_insert_eq. intros [= <-]. apply pushBounded_length.
        simpl. destruct (m_performanceHistory ml !! n) as [h0|] eqn:E; simpl;
          [eauto | unfold MAX_PERFORMANCE_HISTORY; lia].
      * rewrite lookup_insert_ne by exact Hne. apply Hp.
Qed.

(** X14: along every sequence of calls on a fresh calculator, the RTT
    history it keeps per neighbor never exceeds 20 entries and the
    performance history never exceeds 100. *)
Theorem calculator_histories_bounded (c0 : Clock) (calls : list MLCall) :
  historiesBounded (mlRun (newCalculator c0) calls).
Proof.
  assert (H0 : historiesBounded (newCalculator c0)).
  { split; intros n h; simpl; rewrite lookup_empty; discriminate. }
  revert H0. generalize (newCalculator c0).
  induction calls as [|call calls IH]; intros ml Hml; [exact Hml|].
  apply IH, mlStep_historiesBounded, Hml.
Qed.

Lemma adaptLearningRate_bounds ml :
  1 / 1000 <= m_learningRate ml <= 5 / 100 ->
  1 / 1000 <= m_learningRate (adaptLearningRate ml) <= 5 / 100.
Proof.
  intros [Hlo Hhi]. unfold adaptLearningRate. repeat case_decide; simpl; try lra.
  - split; [apply Rmin_glb; lra | apply Rmin_l].
  - split; [apply Rmax_l | apply Rmax_lub; lra].
Qed.

Lemma updateOnline_length m x t eta :
  length (LinearRegressionModel.m_weights (LinearRegressionModel.updateOnline m x t eta))
  = length (LinearRegressionModel.m_weights m).
Proof.
  unfold LinearRegressionModel.updateOnline. case_decide as Hl; [|reflexivity].
  simpl. rewrite length_zip_with. lia.
Qed.

Lemma updateModelWithFeedback_wellFormed ml n x actual c :
  modelWellFormed ml -> modelWellFormed (updateModelWithFeedback ml n x actual c).
Proof.
  intros [Hw Hlr]. unfold updateModelWithFeedback.
  case_decide; [|split; assumption].
  set (ml0 := with_statistics _ ml).
  assert (Hlr0 : 1 / 1000 <= m_learningRate ml0 <= 5 / 100) by exact Hlr.
  case_match; [|split; assumption].
  pose proof (adaptLearningRate_bounds ml0 Hlr0) as Hb.
  assert (Hm : m_model (adaptLearningRate ml0) = m_model ml)
    by (unfold adaptLearningRate; repeat case_decide; reflexivity).
  split; simpl; [|exact Hb].
  rewrite updateOnline_length, Hm. exact Hw.
Qed.

Lemma mlStep_wellFormed ml call : modelWellFormed ml -> modelWellFormed (mlStep ml call).
Proof.
  intros Hwf. destruct call as [|n metrics c|n actual c]; simpl.
  - exact Hwf.
  - unfold predictLinkQuality. simpl. destruct (lm_currentRtt metrics); exact Hwf.
  - unfold reportPathPerformance.
    set (ml1 := with_patternLearner _ ml).
    assert (H1 : modelWellFormed ml1) by exact Hwf.
    exact (updateModelWithFeedback_wellFormed ml1 n _ actual c H1).
Qed.

(** X15: along every sequence of calls on a fresh calculator the model
    keeps exactly five weights and the learning rate stays between its
    floor 0.001 and its cap 0.05. *)
Theorem calculator_model_well_formed (c0 : Clock) (calls : list MLCall) :
  modelWellFormed (mlRun (newCalculator c0) calls).
Proof.
  assert (H0 : modelWellFormed (newCalculator c0)).
  { split; [reflexivity | simpl; lra]. }
  revert H0. generalize (newCalculator c0).
  induction calls as [|call calls IH]; intros ml Hml; [exact Hml|].
  apply IH, mlStep_wellFormed, Hml.
Qed.

Lemma fold_dot_shift (l : list (R * R)) (acc d : R) :
  fold_left (fun a wx => a + fst wx * snd wx) l (acc + d)
  = fold_left (fun a wx => a + fst wx * snd wx) l acc + d.
Proof.
  revert acc. induction l as [|[w x] l IH]; intros acc; simpl; [reflexivity|].
  rewrite <- IH. f_equal. ring.
Qed.

Lemma fold_sq_shift (l : list R) (acc d : R) :
  fold_left (fun a xi => a + xi * xi) l (acc + d)
  = fold_left (fun a xi => a + xi * xi) l acc + d.
Proof.
  revert acc. induction l as [|x l IH]; intros acc; simpl; [reflexivity|].
  rewrite <- IH. f_equal. ring.
Qed.

Lemma fold_dot_step (w x : list R) (acc d : R) :
  length x = length w ->
  fold_left (fun a wx => a + fst wx * snd wx)
            (zip (zip_with (fun wi xi => wi + d * xi) w x) x) acc
  = fold_left (fun a wx => a + fst wx * snd wx) (zip w x) acc + d * sumSquares x.
Proof.
  unfold sumSquares. revert x acc. induction w as [|wi w IH]; intros [|xi x] acc Hl;
    simpl in *; try discriminate; [ring|].
  rewrite IH by lia.
  replace (acc + (wi + d * xi) * xi) with (acc + wi * xi + d * (xi * xi)) by ring.
  rewrite fold_dot_shift.
  replace (0 + xi * xi) with (0 + (xi * xi)) by ring. rewrite fold_sq_shift. ring.
Qed.

Lemma sumSquares_nonneg (x : list R) : 0 <= sumSquares x.
Proof.
  unfold sumSquares. assert (H : forall acc, 0 <= acc ->
    0 <= fold_left (fun a xi => a + xi * xi) x acc); [|apply H; lra].
  induction x as [|xi x IH]; intros acc Hacc; simpl; [exact Hacc|].
  apply IH. nra.
Qed.

Lemma sigmoid_mono (z1 z2 : R) : z1 <= z2 -> 1 / (1 + exp (- z1)) <= 1 / (1 + exp (- z2)).
Proof.
  intros Hz. pose proof (exp_pos (- z1)). pose proof (exp_pos (- z2)).
  assert (He : exp (- z2) <= exp (- z1)).
  { destruct Hz as [Hlt | ->]; [left; apply exp_increasing; lra | lra]. }
  unfold Rdiv. rewrite !Rmult_1_l. apply Rinv_le_contravar; lra.
Qed.

(** The logistic function never rises faster than its argument. *)
Lemma sigmoid_lipschitz (z d : R) :
  0 <= d -> 1 / (1 + exp (- (z + d))) - 1 / (1 + exp (- z)) <= d.
Proof.
  intros Hd.
  replace (- (z + d)) with (- z + - d) by ring. rewrite exp_plus.
  pose proof (exp_pos (- z)) as Ha. pose proof (exp_pos (- d)) as Hb.
  pose proof (exp_ineq1_le (- d)) as He.
  set (a := exp (- z)) in *. set (b := exp (- d)) in *.
  assert (Hab : 0 < a * b) by (apply Rmult_lt_0_compat; assumption).
  replace (1 / (1 + a * b) - 1 / (1 + a))
    with ((a - a * b) / ((1 + a * b) * (1 + a))) by (field; lra).
  assert (Hden : 0 < (1 + a * b) * (1 + a)) by (apply Rmult_lt_0_compat; lra).
  apply (Rmult_le_reg_r ((1 + a * b) * (1 + a))); [exact Hden|].
  unfold Rdiv. rewrite Rmult_assoc, Rinv_l by lra. rewrite Rmult_1_r.
  assert (H1 : a - a * b <= a * d) by nra.
  assert (H2 : a * d <= d * ((1 + a * b) * (1 + a))).
  { assert (H3 : 0 < a * (a * b)) by (apply Rmult_lt_0_compat; assumption).
    assert (H4 : 0 <= d * (1 + a * b + a * (a * b))) by (apply Rmult_le_pos; lra).
    replace (d * ((1 + a * b) * (1 + a))) with (a * d + d * (1 + a * b + a * (a * b)))
      by ring.
    lra. }
  lra.
Qed.

Lemma sumSquares_bound (x : list R) :
  Forall (fun v => -1 <= v <= 1) x -> sumSquares x <= INR (length x).
Proof.
  unfold sumSquares. intros Hx.
  assert (H : forall acc, fold_left (fun a xi => a + xi * xi) x acc <= acc + INR (length x)).
  { induction Hx as [|v x Hv Hx IH]; intros acc; [simpl; lra|].
    cbn [fold_left length]. rewrite S_INR. specialize (IH (acc + v * v)). nra. }
  specialize (H 0). lra.
Qed.

(** X16: an online update with a feature vector of the model's length
    shifts the model's linear output on that vector by
    [η · ε · (1 + Σ xᵢ²)], where [ε] is the error of the prediction before
    the update; with a non-negative learning rate the prediction for that
    vector moves in the direction of the target, and as long as
    [η · (1 + Σ xᵢ²) <= 1] it does not overshoot: the new prediction lies
    between the old one and the target, so the error does not grow.  Five
    features in [-1, 1] and a learning rate of at most 0.05, the
    calculator's cap, meet that bound.  With a vector of another length
    the model is left as it is. *)
Theorem updateOnline_moves_towards_target (m : LinearRegressionModel.t) (x : list R)
    (target eta : R) :
  let m' := LinearRegressionModel.updateOnline m x target eta in
  let eps := target - LinearRegressionModel.predict m x in
  (length x <> length (LinearRegressionModel.m_weights m) -> m' = m)
  /\ (length x = length (LinearRegressionModel.m_weights m) ->
      LinearRegressionModel.linear m' x
      = LinearRegressionModel.linear m x + eta * eps * (1 + sumSquares x)
      /\ (0 <= eta ->
          (0 <= eps -> LinearRegressionModel.predict m x <= LinearRegressionModel.predict m' x)
          /\ (eps <= 0 -> LinearRegressionModel.predict m' x <= LinearRegressionModel.predict m x)
          /\ (eta * (1 + sumSquares x) <= 1 ->
              Rmin (LinearRegressionModel.predict m x) target
              <= LinearRegressionModel.predict m' x
              <= Rmax (LinearRegressionModel.predict m x) target
              /\ Rabs (target - LinearRegressionModel.predict m' x) <= Rabs eps)))
  /\ (Forall (fun v => -1 <= v <= 1) x -> length x = FEATURE_COUNT -> eta <= 5 / 100 ->
      eta * (1 + sumSquares x) <= 1).
Proof.
  intros m' eps. split; [|split].
  - intros Hne. unfold m', LinearRegressionModel.updateOnline.
    rewrite decide_False by exact Hne. reflexivity.
  - intros Hl.
    assert (Hlin : LinearRegressionModel.linear m' x
                   = LinearRegressionModel.linear m x + eta * eps * (1 + sumSquares x)).
    { unfold m', LinearRegressionModel.updateOnline. rewrite decide_True by exact Hl.
      unfold LinearRegressionModel.linear. simpl. fold eps.
      rewrite (fold_dot_step _ x _ (eta * eps)) by exact Hl.
      rewrite fold_dot_shift. ring. }
    split; [exact Hlin|]. intros Heta.
    pose proof (sumSquares_nonneg x) as Hsq.
    assert (Hup : 0 <= eps ->
              LinearRegressionModel.predict m x <= LinearRegressionModel.predict m' x).
    { intros He. unfold LinearRegressionModel.predict. rewrite Hlin. apply sigmoid_mono.
      assert (0 <= eta * eps * (1 + sumSquares x))
        by (apply Rmult_le_pos; [apply Rmult_le_pos|]; lra).
      lra. }
    assert (Hdown : eps <= 0 ->
              LinearRegressionModel.predict m' x <= LinearRegressionModel.predict m x).
    { intros He. unfold LinearRegressionModel.predict. rewrite Hlin. apply sigmoid_mono.
      assert (0 <= eta * (- eps) * (1 + sumSquares x))
        by (apply Rmult_le_pos; [apply Rmult_le_pos|]; lra).
      lra. }
    split; [exact Hup|]. split; [exact Hdown|]. intros Hrate.
    set (k := eta * (1 + sumSquares x)) in *.
    assert (Hk : 0 <= k) by (apply Rmult_le_pos; lra).
    assert (Hz : LinearRegressionModel.linear m' x
                 = LinearRegressionModel.linear m x + k * eps)
      by (rewrite Hlin; unfold k; ring).
    destruct (Rle_dec 0 eps) as [He | He].
    + specialize (Hup He).
      assert (Hstep : LinearRegressionModel.predict m' x - LinearRegressionModel.predict m x
                      <= k * eps).
      { unfold LinearRegressionModel.predict. rewrite Hz.
        apply sigmoid_lipschitz. apply Rmult_le_pos; lra. }
      assert (Hke : k * eps <= eps) by nra.
      assert (Hle : LinearRegressionModel.predict m' x <= target) by (unfold eps in *; lra).
      split.
      * split.
        -- eapply Rle_trans; [apply Rmin_l | exact Hup].
        -- eapply Rle_trans; [exact Hle | apply Rmax_r].
      * rewrite !Rabs_right by (unfold eps in *; lra). unfold eps in *. lra.
    + assert (He' : eps <= 0) by lra. specialize (Hdown He').
      assert (Hstep : LinearRegressionModel.predict m x - LinearRegressionModel.predict m' x
                      <= k * (- eps)).
      { unfold LinearRegressionModel.predict.
        replace (LinearRegressionModel.linear m x)
          with (LinearRegressionModel.linear m' x + k * (- eps)) by (rewrite Hz; ring).
        apply sigmoid_lipschitz. apply Rmult_le_pos; lra. }
      assert (Hke : k * (- eps) <= - eps) by nra.
      assert (Hge : target <= LinearRegressionModel.predict m' x) by (unfold eps in *; lra).
      split.
      * split.
        -- eapply Rle_trans; [apply Rmin_r | exact Hge].
        -- eapply Rle_trans; [exact Hdown | apply Rmax_l].
      * rewrite !Rabs_left1 by (unfold eps in *; lra). unfold eps in *. lra.
  - intros Hx Hlen Heta. pose proof (sumSquares_bound x Hx) as Hb.
    pose proof (sumSquares_nonneg x) as Hsq.
    rewrite Hlen in Hb. unfold FEATURE_COUNT in Hb. simpl in Hb.
    destruct (Rle_dec 0 eta); nra.
Qed.

Lemma updateOnline_moves_towards_target_witness :
  LinearRegressionModel.predict (LinearRegressionModel.new FEATURE_COUNT) [0; 0; 0; 0; 0]
  <= LinearRegressionModel.predict
       (LinearRegressionModel.updateOnline (LinearRegressionModel.new FEATURE_COUNT)
          [0; 0; 0; 0; 0] 1 (1 / 100)) [0; 0; 0; 0; 0]
  /\ Rabs (1 - LinearRegressionModel.predict
                 (LinearRegressionModel.updateOnline (LinearRegressionModel.new FEATURE_COUNT)
                    [0; 0; 0; 0; 0] 1 (1 / 100)) [0; 0; 0; 0; 0])
     <= Rabs (1 - LinearRegressionModel.predict (LinearRegressionModel.new FEATURE_COUNT)
                    [0; 0; 0; 0; 0])
  /\ 1 / 100 * (1 + sumSquares [0; 0; 0; 0; 0]) <= 1.
Proof.
  pose proof (updateOnline_moves_towards_target (LinearRegressionModel.new FEATURE_COUNT)
                [0; 0; 0; 0; 0] 1 (1 / 100)) as (_ & Hs & Hr).
  cbv zeta in Hs, Hr.
  assert (Hrate : 1 / 100 * (1 + sumSquares [0; 0; 0; 0; 0]) <= 1).
  { apply Hr; [|reflexivity|lra]. repeat constructor; lra. }
  destruct (Hs eq_refl) as (_ & Hm). destruct (Hm ltac:(lra)) as (Hup & _ & Hno).
  split; [|split; [|exact Hrate]].
  - apply Hup.
    pose proof (predict_range (LinearRegressionModel.new FEATURE_COUNT) [0; 0; 0; 0; 0]). lra.
  - apply (Hno Hrate).
Defined.

(** ** The temporal pattern table *)

(** X17: after [updatePattern] has recorded a performance for a neighbor,
    [getTimeFeature] for the same neighbor in the same time slot returns
    that performance if the slot was new, and otherwise one tenth of it
    plus nine tenths of the previous average; the time feature of any other
    neighbor or any other slot is what it was; and a time feature in [0, 1]
    stays in [0, 1] when the recorded performance is in [0, 1]. *)
Theorem updatePattern_getTimeFeature (p : gmap Name (gmap Z TimeSlot)) (n : Name)
    (performance : R) (c : Clock) :
  let p' := updatePattern p n performance c in
  getTimeFeature p' n c
    = match p !! n ≫= (fun slots => slots !! currentSlot c) with
      | Some slot => if decide (sampleCount slot = 0%Z) then performance
                     else 1 / 10 * performance + (1 - 1 / 10) * averagePerformance slot
      | None => performance
      end
  /\ (forall m c', m <> n \/ currentSlot c' <> currentSlot c ->
        getTimeFeature p' m c' = getTimeFeature p m c')
  /\ (0 <= performance <= 1 -> 0 <= getTimeFeature p n c <= 1 ->
      0 <= getTimeFeature p' n c <= 1).
Proof.
  intros p'.
  assert (Hget : getTimeFeature p' n c
    = match p !! n ≫= (fun slots => slots !! currentSlot c) with
      | Some slot => if decide (sampleCount slot = 0%Z) then performance
                     else 1 / 10 * performance + (1 - 1 / 10) * averagePerformance slot
      | None => performance
      end).
  { unfold p', getTimeFeature, updatePattern. rewrite !lookup_insert_eq.
    destruct (p !! n) as [slots|]; simpl.
    - destruct (slots !! currentSlot c) as [slot|]; simpl; [|reflexivity].
      case_decide; reflexivity.
    - rewrite lookup_empty. reflexivity. }
  split; [exact Hget|]. split.
  - intros m c' Hother. unfold p', getTimeFeature, updatePattern.
    destruct (decide (n = m)) as [<-|Hne].
    + destruct Hother as [Hm|Hslot]; [contradiction|].
      rewrite lookup_insert_eq, lookup_insert_ne by congruence.
      destruct (p !! n) as [slots|]; simpl; [reflexivity|]. rewrite lookup_empty. reflexivity.
    + rewrite lookup_insert_ne by exact Hne. reflexivity.
  - intros Hp Hold. rewrite Hget. unfold getTimeFeature in Hold.
    destruct (p !! n) as [slots|]; simpl in *; [|exact Hp].
    destruct (slots !! currentSlot c) as [slot|]; simpl; [|exact Hp].
    case_decide; [exact Hp | lra].
Qed.

Lemma updatePattern_getTimeFeature_witness :
  0 <= getTimeFeature (updatePattern ∅ neighborA (3 / 10) midnight) neighborA midnight <= 1.
Proof.
  apply (proj2 (proj2 (updatePattern_getTimeFeature ∅ neighborA (3 / 10) midnight))).
  - lra.
  - unfold getTimeFeature. rewrite lookup_empty. lra.
Defined.

(** X18: for a wall-clock time with an hour in 0..23 and a minute in 0..59
    the slot key is a multiple of ten between 0 and 1430, and two such
    times get the same key exactly when they have the same hour and fall
    into the same ten-minute bucket: the table has 144 slots per day. *)
Theorem currentSlot_buckets (c1 c2 : Clock) :
  (0 <= tm_hour c1 <= 23)%Z -> (0 <= tm_min c1 <= 59)%Z ->
  (0 <= tm_hour c2 <= 23)%Z -> (0 <= tm_min c2 <= 59)%Z ->
  (0 <= currentSlot c1 <= 1430)%Z
  /\ (currentSlot c1 mod 10 = 0)%Z
  /\ (currentSlot c1 = currentSlot c2
      <-> tm_hour c1 = tm_hour c2 /\ (tm_min c1 / 10 = tm_min c2 / 10)%Z).
Proof.
  intros Hh1 Hm1 Hh2 Hm2. unfold currentSlot, getTimeSlotKey.
  rewrite !Z.quot_div_nonneg by lia.
  assert (Hq1 : (0 <= tm_min c1 / 10 < 6)%Z)
    by (split; [apply Z.div_pos; lia | apply Z.div_lt_upper_bound; lia]).
  assert (Hq2 : (0 <= tm_min c2 / 10 < 6)%Z)
    by (split; [apply Z.div_pos; lia | apply Z.div_lt_upper_bound; lia]).
  split; [lia|]. split.
  - replace (tm_hour c1 * 60 + tm_min c1 / 10 * 10)%Z
      with ((tm_hour c1 * 6 + tm_min c1 / 10) * 10)%Z by ring.
    apply Z.mod_mul. lia.
  - split; [intros H; lia | intros [-> ->]; reflexivity].
Qed.

Lemma currentSlot_buckets_witness :
  (currentSlot (mkClock 13 47 0) = currentSlot (mkClock 13 41 5)
   <-> tm_hour (mkClock 13 47 0) = tm_hour (mkClock 13 41 5)
       /\ (tm_min (mkClock 13 47 0) / 10 = tm_min (mkClock 13 41 5) / 10)%Z).
Proof.
  apply (currentSlot_buckets (mkClock 13 47 0) (mkClock 13 41 5)); simpl; lia.
Defined.

(** * Further properties of the routing table *)

Lemma findEntry_Some {NHL : Type} (d : Name) (t : list (RoutingTableEntry NHL)) e :
  findEntry d t = Some e -> getDestination e = d /\ e ∈ t.
Proof.
  induction t as [|x t IH]; simpl; [discriminate|].
  case_decide as Hd.
  - intros [= <-]. split; [exact Hd | apply list_elem_of_here].
  - intros Hf. destruct (IH Hf) as [? ?]. split; [assumption | by apply list_elem_of_further].
Qed.

Lemma findEntry_None {NHL : Type} (d : Name) (t : list (RoutingTableEntry NHL)) :
  findEntry d t = None <-> d ∉ destinations t.
Proof.
  unfold destinations. induction t as [|x t IH]; simpl.
  - split; [intros _; apply not_elem_of_nil | reflexivity].
  - case_decide as Hd.
    + split; [discriminate|]. intros Hn. exfalso. apply Hn. subst d. apply list_elem_of_here.
    + rewrite IH. rewrite not_elem_of_cons. split; [intros ?; split; [congruence | assumption] | intros [_ ?]; assumption].
Qed.

Lemma findEntry_app {NHL : Type} (d : Name) (a b : list (RoutingTableEntry NHL)) :
  findEntry d (a ++ b) = match findEntry d a with Some e => Some e | None => findEntry d b end.
Proof.
  induction a as [|x a IH]; simpl; [reflexivity|]. case_decide; [reflexivity | exact IH].
Qed.

Lemma destinations_addToFirst `{NexthopOps NH NHL} (d : Name) (nh : NH)
    (t : list (RoutingTableEntry NHL)) :
  destinations (addToFirst d nh t) = destinations t.
Proof.
  unfold destinations. induction t as [|x t IH]; [reflexivity|].
  simpl addToFirst. case_decide; rewrite !fmap_cons; [reflexivity | by rewrite IH].
Qed.

Lemma findEntry_addToFirst_same `{NexthopOps NH NHL} (d : Name) (nh : NH)
    (t : list (RoutingTableEntry NHL)) e :
  findEntry d t = Some e ->
  findEntry d (addToFirst d nh t)
  = Some (mkRoutingTableEntry d (addToNexthops nh (getNexthopList e))).
Proof.
  induction t as [|x t IH]; simpl; [discriminate|].
  case_decide as Hd.
  - intros [= <-]. simpl. rewrite decide_True by exact Hd. by rewrite Hd.
  - intros Hf. simpl. rewrite decide_False by exact Hd. by apply IH.
Qed.

Lemma findEntry_addToFirst_other `{NexthopOps NH NHL} (d d' : Name) (nh : NH)
    (t : list (RoutingTableEntry NHL)) :
  d' <> d -> findEntry d' (addToFirst d nh t) = findEntry d' t.
Proof.
  intros Hne. induction t as [|x t IH]; simpl; [reflexivity|].
  case_decide as Hd; simpl.
  - rewrite !decide_False by congruence. reflexivity.
  - case_decide; [reflexivity | exact IH].
Qed.

Lemma findEntry_addHop_same `{NexthopOps NH NHL} (d : Name) (nh : NH)
    (t : list (RoutingTableEntry NHL)) :
  findEntry d (addHop d nh t)
  = Some (mkRoutingTableEntry d
            (addToNexthops nh (match findEntry d t with
                               | Some e => getNexthopList e
                               | None => noNexthops
                               end))).
Proof.
  unfold addHop. destruct (findEntry d t) as [e|] eqn:Hf.
  - by apply findEntry_addToFirst_same.
  - rewrite findEntry_app, Hf. simpl. by rewrite decide_True.
Qed.

Lemma findEntry_addHop_other `{NexthopOps NH NHL} (d d' : Name) (nh : NH)
    (t : list (RoutingTableEntry NHL)) :
  d' <> d -> findEntry d' (addHop d nh t) = findEntry d' t.
Proof.
  intros Hne. unfold addHop. destruct (findEntry d t) as [e|] eqn:Hf.
  - by apply findEntry_addToFirst_other.
  - rewrite findEntry_app. destruct (findEntry d' t); [reflexivity|].
    simpl. by rewrite decide_False by congruence.
Qed.

Lemma destinations_addHop `{NexthopOps NH NHL} (d : Name) (nh : NH)
    (t : list (RoutingTableEntry NHL)) :
  destinations (addHop d nh t)
  = if decide (d ∈ destinations t) then destinations t else destinations t ++ [d].
Proof.
  unfold addHop. destruct (findEntry d t) as [e|] eqn:Hf.
  - rewrite destinations_addToFirst. rewrite decide_True; [reflexivity|].
    destruct (decide (d ∈ destinations t)) as [|Hn]; [assumption|].
    apply findEntry_None in Hn. congruence.
  - apply findEntry_None in Hf. rewrite decide_False by exact Hf.
    unfold destinations. by rewrite fmap_app.
Qed.

Lemma NoDup_addHop `{NexthopOps NH NHL} (d : Name) (nh : NH)
    (t : list (RoutingTableEntry NHL)) :
  NoDup (destinations t) -> NoDup (destinations (addHop d nh t)).
Proof.
  intros Hnd. rewrite destinations_addHop. case_decide as Hd; [exact Hnd|].
  apply NoDup_app. split; [exact Hnd|]. split.
  - intros x Hx Hx'. apply list_elem_of_singleton in Hx'. by subst x.
  - apply NoDup_singleton.
Qed.

(** X19: after [addNextHop] the entry found for the destination carries the
    new hop added to the hops it had before (or to none), every other
    destination is found exactly as before, and no destination is listed
    twice if none was. *)
Lemma addNextHop_findRoutingTableEntry `{NexthopOps NH NHL}
    (s : RoutingTableStatus NHL) (dest : Name) (nh : NH) :
  let s' := addNextHop s dest nh in
  findRoutingTableEntry s' dest
  = Some (mkRoutingTableEntry dest
            (addToNexthops nh (match findRoutingTableEntry s dest with
                               | Some e => getNexthopList e
                               | None => noNexthops
                               end)))
  /\ (forall dest', dest' <> dest ->
        findRoutingTableEntry s' dest' = findRoutingTableEntry s dest')
  /\ (NoDup (destinations (m_rTable s)) -> NoDup (destinations (m_rTable s')))
  /\ m_dryTable s' = m_dryTable s.
Proof.
  simpl. unfold findRoutingTableEntry, addNextHop. simpl.
  split; [apply findEntry_addHop_same|].
  split; [intros d' Hne; by apply findEntry_addHop_other|].
  split; [apply NoDup_addHop | reflexivity].
Qed.

Lemma addNextHop_findRoutingTableEntry_witness :
  findRoutingTableEntry
    (addNextHop (mkRoutingTableStatus [] sampleTable None) routerB "face3"%string) neighborA
  = Some (mkRoutingTableEntry neighborA ["face1"]%string).
Proof.
  pose proof (addNextHop_findRoutingTableEntry
                (mkRoutingTableStatus [] sampleTable None) routerB "face3"%string) as Hs.
  simpl in Hs. destruct Hs as (_ & Ho & _).
  rewrite (Ho neighborA) by (unfold neighborA, routerB; congruence).
  reflexivity.
Defined.

Lemma applyTableOp_wireCoherent `{NexthopOps NH NHL} (s : RoutingTableStatus NHL)
    (op : TableOp NH) :
  wireCoherent s -> wireCoherent (applyTableOp s op).
Proof.
  intros Hc. destruct op; simpl; try (intros w; simpl; discriminate).
  unfold wireEncode. destruct (m_wire s) as [w0|] eqn:Hw; simpl; [exact Hc|].
  intros w. simpl. intros [= <-]. reflexivity.
Qed.

(** X20: the wire cache is never stale: after any sequence of [addNextHop],
    [addNextHopToDryTable], the two clears and [wireEncode] on a status with
    an empty cache, [wireEncode] returns the encoding of the tables as they
    are now, the routing table followed by the dry-run table. *)
Lemma wireEncode_never_stale `{NexthopOps NH NHL}
    (dryTable rTable : list (RoutingTableEntry NHL)) (ops : list (TableOp NH)) :
  let s := fold_left applyTableOp ops (mkRoutingTableStatus dryTable rTable None) in
  (wireEncode s).1 = RoutingTableBlock (EntryBlock <$> (m_rTable s ++ m_dryTable s))
  /\ m_rTable (wireEncode s).2 = m_rTable s
  /\ m_dryTable (wireEncode s).2 = m_dryTable s.
Proof.
  simpl.
  assert (Hc : wireCoherent (fold_left applyTableOp ops
                               (mkRoutingTableStatus dryTable rTable None))).
  { assert (H0 : wireCoherent (mkRoutingTableStatus dryTable rTable None))
      by (intros w; simpl; discriminate).
    revert H0. generalize (mkRoutingTableStatus dryTable rTable None).
    induction ops as [|op ops IH]; intros s Hs; simpl; [exact Hs|].
    apply IH. by apply applyTableOp_wireCoherent. }
  revert Hc. generalize (fold_left applyTableOp ops (mkRoutingTableStatus dryTable rTable None)).
  intros s Hc. unfold wireEncode. destruct (m_wire s) as [w|] eqn:Hw; simpl.
  - split; [apply (Hc w Hw) | split; reflexivity].
  - split; [reflexivity | split; reflexivity].
Qed.

Lemma decodeElements_entries {NHL : Type} (es : list (RoutingTableEntry NHL)) :
  forall (seen : gset Name) (rT dry : list (RoutingTableEntry NHL)),
  exists rT' dry',
    decodeElements seen rT dry (EntryBlock <$> es) = Some (rT ++ rT', dry ++ dry')
    /\ NoDup (destinations rT')
    /\ (forall d, d ∈ destinations rT' -> d ∉ seen)
    /\ rT' ++ dry' ≡ₚ es
    /\ (forall e, e ∈ dry' -> getDestination e ∈ seen \/ getDestination e ∈ destinations rT')
    /\ (forall d, d ∉ seen -> findEntry d rT' = findEntry d es).
Proof.
  induction es as [|e es IH]; intros seen rT dry.
  - exists [], []. simpl. rewrite !app_nil_r.
    split; [reflexivity|]. split; [apply NoDup_nil_2|].
    split; [intros d Hd; by apply not_elem_of_nil in Hd|].
    split; [reflexivity|]. split; [intros x Hx; by apply not_elem_of_nil in Hx|].
    reflexivity.
  - rewrite fmap_cons. simpl decodeElements. case_decide as Hin.
    + destruct (IH seen rT (dry ++ [e])) as (rT' & dry' & Hd & Hnd & Hfresh & Hperm & Hdry & Hfind).
      exists rT', (e :: dry'). rewrite Hd, <- app_assoc. simpl.
      split; [reflexivity|]. split; [exact Hnd|]. split; [exact Hfresh|].
      split; [rewrite <- Hperm; symmetry; apply Permutation_middle|].
      split.
      * intros x Hx. apply elem_of_cons in Hx as [-> | Hx]; [by left | by apply Hdry].
      * intros d Hd'. rewrite decide_False by (intros <-; contradiction). by apply Hfind.
    + destruct (IH ({[getDestination e]} ∪ seen) (rT ++ [e]) dry)
        as (rT' & dry' & Hd & Hnd & Hfresh & Hperm & Hdry & Hfind).
      exists (e :: rT'), dry'. rewrite Hd, <- app_assoc. simpl.
      split; [reflexivity|]. split.
      { apply NoDup_cons. split; [|exact Hnd].
        intros Hx. apply Hfresh in Hx. set_solver. }
      split.
      { intros d Hd'.
        apply elem_of_cons in Hd' as [-> | Hd']; [exact Hin|].
        apply Hfresh in Hd'. set_solver. }
      split; [by rewrite Hperm|]. split.
      * intros x Hx. destruct (Hdry x Hx) as [Hs | Hr].
        -- apply elem_of_union in Hs as [Hs | Hs]; [|by left].
           right. apply elem_of_singleton in Hs. rewrite Hs.
           apply list_elem_of_here.
        -- right. by apply list_elem_of_further.
      * intros d Hd'. case_decide as Hde; [reflexivity|].
        apply Hfind. set_solver.
Qed.

(** X21: decoding a routing-table block made of entries never fails; the
    decoded routing table lists no destination twice and answers every
    lookup with the first entry the wire has for that destination; the
    other entries land in the dry-run table, each for a destination the
    routing table has; no entry is lost or duplicated. *)
Lemma wireDecode_splits_entries {NHL : Type} (es : list (RoutingTableEntry NHL)) :
  exists s,
    wireDecode (RoutingTableBlock (EntryBlock <$> es)) = Some s
    /\ NoDup (destinations (m_rTable s))
    /\ (forall d, findRoutingTableEntry s d = findEntry d es)
    /\ (forall e, e ∈ m_dryTable s -> getDestination e ∈ destinations (m_rTable s))
    /\ m_rTable s ++ m_dryTable s ≡ₚ es.
Proof.
  destruct (decodeElements_entries es ∅ [] [])
    as (rT' & dry' & Hd & Hnd & Hfresh & Hperm & Hdry & Hfind).
  simpl in Hd.
  exists (mkRoutingTableStatus dry' rT' (Some (RoutingTableBlock (EntryBlock <$> es)))).
  unfold wireDecode. rewrite Hd. simpl.
  split; [reflexivity|]. split; [exact Hnd|].
  split; [intros d; apply Hfind; set_solver|].
  split; [|exact Hperm].
  intros e He. destruct (Hdry e He) as [Hs | Hr]; [set_solver | exact Hr].
Qed.

Lemma decodeElements_fresh {NHL : Type} (es : list (RoutingTableEntry NHL)) :
  forall (seen : gset Name) (rT dry : list (RoutingTableEntry NHL)) rest,
  NoDup (destinations es) ->
  (forall d, d ∈ destinations es -> d ∉ seen) ->
  decodeElements seen rT dry ((EntryBlock <$> es) ++ rest)
  = decodeElements (list_to_set (destinations es) ∪ seen) (rT ++ es) dry rest.
Proof.
  unfold destinations.
  induction es as [|e es IH]; intros seen rT dry rest Hnd Hfresh.
  - simpl. rewrite app_nil_r. f_equal. set_solver.
  - rewrite !fmap_cons in *. simpl app. simpl decodeElements.
    apply NoDup_cons in Hnd as [Hne Hnd].
    rewrite decide_False by (apply Hfresh; apply list_elem_of_here).
    rewrite IH; [| exact Hnd |].
    + rewrite <- app_assoc. simpl. f_equal. set_solver.
    + intros d Hd. pose proof (Hfresh d (list_elem_of_further _ _ _ Hd)).
      assert (d <> getDestination e) by (intros ->; contradiction).
      set_solver.
Qed.

Lemma decodeElements_seen {NHL : Type} (es : list (RoutingTableEntry NHL)) :
  forall (seen : gset Name) (rT dry : list (RoutingTableEntry NHL)),
  (forall e, e ∈ es -> getDestination e ∈ seen) ->
  decodeElements seen rT dry (EntryBlock <$> es) = Some (rT, dry ++ es).
Proof.
  induction es as [|e es IH]; intros seen rT dry Hs.
  - simpl. by rewrite app_nil_r.
  - rewrite fmap_cons. simpl decodeElements.
    rewrite decide_True by (apply Hs; apply list_elem_of_here).
    rewrite IH by (intros x Hx; apply Hs; by apply list_elem_of_further).
    by rewrite <- app_assoc.
Qed.

(** X22: a status whose routing table lists every destination once and
    whose dry-run table only has destinations of the routing table
    survives a round trip through [wireEncode] and [wireDecode] with both
    tables unchanged. *)
Lemma wire_round_trip {NHL : Type} (dryTable rTable : list (RoutingTableEntry NHL)) :
  NoDup (destinations rTable) ->
  (forall e, e ∈ dryTable -> getDestination e ∈ destinations rTable) ->
  exists s,
    wireDecode (wireEncode (mkRoutingTableStatus dryTable rTable None)).1 = Some s
    /\ m_rTable s = rTable /\ m_dryTable s = dryTable.
Proof.
  intros Hnd Hdry. unfold wireEncode, encodeTables, wireDecode. simpl.
  rewrite fmap_app.
  rewrite decodeElements_fresh by (try exact Hnd; intros d _; set_solver).
  rewrite decodeElements_seen.
  - simpl. eexists. split; [reflexivity|]. split; reflexivity.
  - intros e He. apply elem_of_union_l. apply elem_of_list_to_set. by apply Hdry.
Qed.

Lemma wire_round_trip_witness :
  exists s,
    wireDecode (wireEncode (mkRoutingTableStatus
                              [mkRoutingTableEntry routerB ["face9"]%string]
                              sampleTable None)).1 = Some s
    /\ m_rTable s = sampleTable
    /\ m_dryTable s = [mkRoutingTableEntry routerB ["face9"]%string].
Proof.
  apply (wire_round_trip [mkRoutingTableEntry routerB ["face9"]%string] sampleTable).
  - unfold destinations, sampleTable. simpl.
    apply NoDup_cons. split; [|apply NoDup_singleton].
    intros Hx. apply list_elem_of_singleton in Hx. discriminate.
  - intros e He. apply list_elem_of_singleton in He. subst e.
    unfold destinations, sampleTable. simpl.
    apply list_elem_of_further, list_elem_of_here.
Defined.

Lemma decodeElements_unrecognized {NHL : Type} (es : list (RoutingTableEntry NHL)) :
  forall (seen : gset Name) (rT dry : list (RoutingTableEntry NHL)) type rest,
  decodeElements seen rT dry ((EntryBlock <$> es) ++ UnrecognizedBlock type :: rest) = None.
Proof.
  induction es as [|e es IH]; intros seen rT dry type rest; [reflexivity|].
  rewrite fmap_cons. simpl. case_decide; apply IH.
Qed.

(** X23: [wireDecode] rejects a block that is not a routing table, and a
    routing-table block in which anything but an entry occurs, wherever it
    occurs. *)
Lemma wireDecode_rejects {NHL : Type} :
  (forall type, wireDecode (NHL := NHL) (ForeignBlock type) = None)
  /\ (forall (es : list (RoutingTableEntry NHL)) type rest,
        wireDecode (RoutingTableBlock ((EntryBlock <$> es) ++ UnrecognizedBlock type :: rest))
        = None).
Proof.
  split; [reflexivity|]. intros es type rest. unfold wireDecode.
  by rewrite decodeElements_unrecognized.
Qed.

Lemma runPaths_unique `{NexthopOps NH NHL} (isDryRun : bool) (hops : list (Name * NH)) :
  forall s : RoutingTableStatus NHL,
  NoDup (destinations (m_rTable s)) /\ NoDup (destinations (m_dryTable s)) ->
  NoDup (destinations (m_rTable (runPaths isDryRun hops s)))
  /\ NoDup (destinations (m_dryTable (runPaths isDryRun hops s))).
Proof.
  unfold runPaths. induction hops as [|h hops IH]; intros s [Hr Hd]; simpl; [by split|].
  apply IH. destruct isDryRun; simpl; (split; [|]); auto using NoDup_addHop.
Qed.

Lemma runPaths_other_table `{NexthopOps NH NHL} (isDryRun : bool) (hops : list (Name * NH)) :
  forall s : RoutingTableStatus NHL,
  if isDryRun then m_rTable (runPaths isDryRun hops s) = m_rTable s
  else m_dryTable (runPaths isDryRun hops s) = m_dryTable s.
Proof.
  unfold runPaths. induction hops as [|h hops IH]; intros s; simpl.
  - by destruct isDryRun.
  - specialize (IH (if isDryRun then addNextHopToDryTable s h.1 h.2
                    else addNextHop s h.1 h.2)).
    destruct isDryRun; rewrite IH; reflexivity.
Qed.

Lemma routingStep_unique `{NexthopOps NH NHL} (rt : RoutingTable NHL) (ev : RoutingEvent NH) :
  NoDup (destinations (m_rTable (m_status rt)))
  /\ NoDup (destinations (m_dryTable (m_status rt))) ->
  NoDup (destinations (m_rTable (m_status (routingStep rt ev))))
  /\ NoDup (destinations (m_dryTable (m_status (routingStep rt ev)))).
Proof.
  intros Hu. pose proof Hu as [Hr Hd].
  assert (Hnil : NoDup (destinations (@nil (RoutingTableEntry NHL)))) by apply NoDup_nil_2.
  destruct ev as [o t u|env| |p|n p c]; simpl.
  - unfold onLsdbModified, scheduleRoutingTableCalculation.
    repeat case_match; simpl; split; assumption.
  - unfold calculate, scheduleRoutingTableCalculation, calculateMLAdaptiveRoutingTable,
      calculateLoadAwareRoutingTable, calculateHypRoutingTable, calculateLsRoutingTable.
    repeat case_match; simpl;
      repeat first [ assumption | apply NoDup_nil_2
                   | apply runPaths_unique; simpl | split
                   | apply (fun s Hs => proj1 (runPaths_unique _ _ s Hs)); simpl
                   | apply (fun s Hs => proj2 (runPaths_unique _ _ s Hs)); simpl ].
  - unfold scheduleRoutingTableCalculation. case_match; simpl; split; assumption.
  - split; assumption.
  - split; assumption.
Qed.

(** X24: however the LSDB, the scheduler and the link cost manager drive a
    routing table from its construction, neither the routing table nor the
    dry-run table ever lists a destination twice. *)
Lemma routing_tables_list_destinations_once `{NexthopOps NH NHL}
    (hyperbolicState : HyperbolicState) (evs : list (RoutingEvent NH)) :
  let rt : RoutingTable NHL := routingRun (newRoutingTable hyperbolicState) evs in
  NoDup (destinations (m_rTable (m_status rt)))
  /\ NoDup (destinations (m_dryTable (m_status rt))).
Proof.
  simpl. unfold routingRun.
  assert (H0 : NoDup (destinations (m_rTable (m_status (newRoutingTable (NHL := NHL) hyperbolicState))))
               /\ NoDup (destinations (m_dryTable (m_status (newRoutingTable (NHL := NHL) hyperbolicState)))))
    by (split; apply NoDup_nil_2).
  revert H0. generalize (newRoutingTable (NHL := NHL) hyperbolicState).
  induction evs as [|ev evs IH]; intros rt Hu; simpl; [exact Hu|].
  apply IH. by apply routingStep_unique.
Qed.

Lemma calculateLsRoutingTable_flags `{NexthopOps NH NHL} (env : RoutingEnv NH)
    (rt : RoutingTable NHL) :
  flagsKept rt (calculateLsRoutingTable env rt).
Proof.
  unfold calculateLsRoutingTable, flagsKept. repeat case_match; simpl; repeat split.
Qed.

Lemma calculateHypRoutingTable_flags `{NexthopOps NH NHL} (env : RoutingEnv NH)
    (isDryRun : bool) (rt : RoutingTable NHL) :
  flagsKept rt (calculateHypRoutingTable env isDryRun rt).
Proof.
  unfold calculateHypRoutingTable, flagsKept. repeat case_match; simpl; repeat split.
Qed.

Lemma calculateLoadAwareRoutingTable_flags `{NexthopOps NH NHL} (env : RoutingEnv NH)
    (rt : RoutingTable NHL) :
  flagsKept rt (calculateLoadAwareRoutingTable env rt).
Proof.
  unfold calculateLoadAwareRoutingTable, calculateLsRoutingTable, flagsKept.
  repeat case_match; simpl; repeat split.
Qed.

Lemma calculateMLAdaptiveRoutingTable_flags `{NexthopOps NH NHL} (env : RoutingEnv NH)
    (rt : RoutingTable NHL) :
  flagsKept rt (calculateMLAdaptiveRoutingTable env rt).
Proof.
  unfold calculateMLAdaptiveRoutingTable, calculateLsRoutingTable, flagsKept.
  repeat case_match; simpl; repeat split.
Qed.

Lemma calculate_flags `{NexthopOps NH NHL} (env : RoutingEnv NH) (rt : RoutingTable NHL) :
  m_isRoutingTableCalculating rt = false ->
  let rt' := calculate env rt in
  m_hyperbolicState rt' = m_hyperbolicState rt
  /\ m_isRoutingTableCalculating rt' = false
  /\ m_isRouteCalculationScheduled rt' = false
  /\ m_ownAdjLsaExist rt' = m_ownAdjLsaExist rt
  /\ m_linkCostManager rt' = m_linkCostManager rt
  /\ scheduledCalculations rt' = scheduledCalculations rt.
Proof.
  intros Hc. simpl. unfold calculate. rewrite Hc. cbv zeta.
  set (rt1 := with_isRoutingTableCalculating true rt).
  set (rt2 := if getMLAdaptiveRouting env then _ else _).
  assert (Hk : flagsKept rt1 rt2).
  { subst rt2.
    destruct (getMLAdaptiveRouting env); [apply calculateMLAdaptiveRoutingTable_flags|].
    destruct (getLoadAwareRouting env); [apply calculateLoadAwareRoutingTable_flags|].
    destruct (m_hyperbolicState rt1);
      [apply calculateLsRoutingTable_flags | apply calculateHypRoutingTable_flags |].
    pose proof (calculateLsRoutingTable_flags env rt1) as (A1 & A2 & A3 & A4 & A5 & A6).
    pose proof (calculateHypRoutingTable_flags env true (calculateLsRoutingTable env rt1))
      as (B1 & B2 & B3 & B4 & B5 & B6).
    unfold flagsKept. rewrite B1, B2, B3, B4, B5, B6. repeat split; assumption. }
  clearbody rt2. destruct Hk as (K1 & K2 & K3 & K4 & K5 & K6). simpl.
  rewrite K1, K4, K5, K6. repeat split.
Qed.

Lemma routingStep_coalesces `{NexthopOps NH NHL} (rt : RoutingTable NHL)
    (ev : RoutingEvent NH) (k : nat) :
  m_isRoutingTableCalculating rt = false ->
  (scheduledCalculations rt <= k + (if m_isRouteCalculationScheduled rt then 1 else 0))%nat ->
  let rt' := routingStep rt ev in
  m_isRoutingTableCalculating rt' = false
  /\ (scheduledCalculations rt'
      <= k + (if isCalculate ev then 1 else 0)
         + (if m_isRouteCalculationScheduled rt' then 1 else 0))%nat.
Proof.
  intros Hc Hk. destruct ev as [o t u|env| |p|n p c]; simpl.
  - unfold onLsdbModified, scheduleRoutingTableCalculation, emitRoutingChange.
    repeat case_match; simpl in *; (split; [assumption|]);
      repeat match goal with
             | Hx : m_isRouteCalculationScheduled _ = _ |- _ => simpl in Hx; rewrite Hx in *
             end; lia.
  - pose proof (calculate_flags env rt Hc) as (_ & F2 & F3 & _ & _ & F6). simpl in *.
    rewrite F2, F3, F6. split; [reflexivity|]. destruct (m_isRouteCalculationScheduled rt); lia.
  - unfold scheduleRoutingTableCalculation.
    destruct (m_isRouteCalculationScheduled rt) eqn:Hs; simpl; rewrite ?Hs;
      (split; [assumption | lia]).
  - split; [assumption | lia].
  - split; [assumption | lia].
Qed.

(** X25: requests for a recalculation are coalesced: along every sequence
    of events from construction, the calculations handed to the scheduler
    never outnumber the calculations that ran by more than the one that is
    still pending, and no pass is ever left marked as running. *)
Lemma scheduled_calculations_coalesce `{NexthopOps NH NHL}
    (hyperbolicState : HyperbolicState) (evs : list (RoutingEvent NH)) :
  let rt : RoutingTable NHL := routingRun (newRoutingTable hyperbolicState) evs in
  m_isRoutingTableCalculating rt = false
  /\ (scheduledCalculations rt
      <= length (filter (fun ev => isCalculate ev = true) evs)
         + (if m_isRouteCalculationScheduled rt then 1 else 0))%nat.
Proof.
  simpl. unfold routingRun.
  assert (G : forall (evs : list (RoutingEvent NH)) (rt : RoutingTable NHL) (k : nat),
             m_isRoutingTableCalculating rt = false ->
             (scheduledCalculations rt
              <= k + (if m_isRouteCalculationScheduled rt then 1 else 0))%nat ->
             m_isRoutingTableCalculating (fold_left routingStep evs rt) = false
             /\ (scheduledCalculations (fold_left routingStep evs rt)
                 <= k + length (filter (fun ev => isCalculate ev = true) evs)
                    + (if m_isRouteCalculationScheduled (fold_left routingStep evs rt)
                       then 1 else 0))%nat).
  { clear evs. induction evs as [|ev evs IH]; intros rt k Hc Hk; simpl.
    - split; [assumption | lia].
    - destruct (routingStep_coalesces rt ev k Hc Hk) as [Hc' Hk'].
      destruct (IH _ _ Hc' Hk') as [Hc'' Hk'']. split; [exact Hc''|].
      rewrite filter_cons. destruct ev; simpl in *; try case_decide; simpl; try lia;
        try congruence. }
  apply (G evs (newRoutingTable hyperbolicState) 0%nat); simpl; [reflexivity | lia].
Qed.

Lemma calculateLsRoutingTable_calculator `{NexthopOps NH NHL} (env : RoutingEnv NH)
    (rt : RoutingTable NHL) :
  m_mlAdaptiveCalculator (calculateLsRoutingTable env rt) = m_mlAdaptiveCalculator rt
  /\ linkCostManagerRequests (calculateLsRoutingTable env rt) = linkCostManagerRequests rt.
Proof.
  unfold calculateLsRoutingTable. repeat case_match; simpl; split; reflexivity.
Qed.

Lemma calculateHypRoutingTable_calculator `{NexthopOps NH NHL} (env : RoutingEnv NH)
    (isDryRun : bool) (rt : RoutingTable NHL) :
  m_mlAdaptiveCalculator (calculateHypRoutingTable env isDryRun rt)
  = m_mlAdaptiveCalculator rt
  /\ linkCostManagerRequests (calculateHypRoutingTable env isDryRun rt)
     = linkCostManagerRequests rt.
Proof.
  unfold calculateHypRoutingTable. repeat case_match; simpl; split; reflexivity.
Qed.

Lemma calculateLoadAwareRoutingTable_calculator `{NexthopOps NH NHL} (env : RoutingEnv NH)
    (rt : RoutingTable NHL) :
  m_mlAdaptiveCalculator (calculateLoadAwareRoutingTable env rt) = m_mlAdaptiveCalculator rt
  /\ linkCostManagerRequests (calculateLoadAwareRoutingTable env rt)
     = linkCostManagerRequests rt.
Proof.
  unfold calculateLoadAwareRoutingTable, calculateLsRoutingTable.
  repeat case_match; simpl; split; reflexivity.
Qed.

Lemma calculate_calculator `{NexthopOps NH NHL} (env : RoutingEnv NH)
    (rt : RoutingTable NHL) :
  let rt' := calculate env rt in
  if reachesMLCalculator rt (Calculate env)
  then m_mlAdaptiveCalculator rt'
       = Some (calculatePath (default (newCalculator (steadyClock env))
                                      (m_mlAdaptiveCalculator rt)))
       /\ linkCostManagerRequests rt'
          = linkCostManagerRequests rt
            ++ match m_mlAdaptiveCalculator rt with
               | Some _ => []
               | None => [SetLoadAwareCostCalculator; SetMLFeedbackCallback]
               end
  else m_mlAdaptiveCalculator rt' = m_mlAdaptiveCalculator rt
       /\ linkCostManagerRequests rt' = linkCostManagerRequests rt.
Proof.
  simpl. unfold calculate, reachesMLCalculator.
  destruct (m_isRoutingTableCalculating rt) eqn:Hc; simpl.
  { unfold scheduleRoutingTableCalculation. case_match; simpl; split; reflexivity. }
  destruct (getMLAdaptiveRouting env) eqn:Hml; simpl.
  - unfold calculateMLAdaptiveRoutingTable.
    destruct (getIsBuildAdjLsaScheduled env) eqn:Hb; simpl; [split; reflexivity|].
    destruct (m_ownAdjLsaExist rt) eqn:Ho; simpl; [|split; reflexivity].
    destruct (m_linkCostManager rt) eqn:Hl; simpl.
    + destruct (m_mlAdaptiveCalculator rt) as [ml|] eqn:Hm; simpl.
      * rewrite Hm. simpl. rewrite app_nil_r. split; reflexivity.
      * split; reflexivity.
    + unfold calculateLsRoutingTable. simpl. rewrite Hb, Ho. simpl. split; reflexivity.
  - destruct (getLoadAwareRouting env).
    + pose proof (calculateLoadAwareRoutingTable_calculator env
                    (with_isRoutingTableCalculating true rt)) as [A B].
      simpl in *. split; assumption.
    + destruct (m_hyperbolicState rt).
      * pose proof (calculateLsRoutingTable_calculator env
                      (with_isRoutingTableCalculating true rt)) as [A B].
        simpl in *. split; assumption.
      * pose proof (calculateHypRoutingTable_calculator env false
                      (with_isRoutingTableCalculating true rt)) as [A B].
        simpl in *. split; assumption.
      * pose proof (calculateLsRoutingTable_calculator env
                      (with_isRoutingTableCalculating true rt)) as [A B].
        pose proof (calculateHypRoutingTable_calculator env true
                      (calculateLsRoutingTable env (with_isRoutingTableCalculating true rt)))
          as [A' B'].
        simpl in *. split; assumption.
Qed.

Lemma onLsdbModified_calculator {NHL : Type} (o : bool) (t : LsaType) (u : LsdbUpdate)
    (rt : RoutingTable NHL) :
  m_mlAdaptiveCalculator (onLsdbModified o t u rt) = m_mlAdaptiveCalculator rt
  /\ linkCostManagerRequests (onLsdbModified o t u rt) = linkCostManagerRequests rt.
Proof.
  unfold onLsdbModified, scheduleRoutingTableCalculation, emitRoutingChange.
  repeat case_match; split; reflexivity.
Qed.

Lemma scheduleRoutingTableCalculation_calculator {NHL : Type} (rt : RoutingTable NHL) :
  m_mlAdaptiveCalculator (scheduleRoutingTableCalculation rt) = m_mlAdaptiveCalculator rt
  /\ linkCostManagerRequests (scheduleRoutingTableCalculation rt)
     = linkCostManagerRequests rt.
Proof.
  unfold scheduleRoutingTableCalculation. case_match; split; reflexivity.
Qed.

Lemma routingStep_registrations `{NexthopOps NH NHL} (rt : RoutingTable NHL)
    (ev : RoutingEvent NH) :
  linkCostManagerRequests rt
  = match m_mlAdaptiveCalculator rt with
    | Some _ => [SetLoadAwareCostCalculator; SetMLFeedbackCallback]
    | None => []
    end ->
  let rt' := routingStep rt ev in
  linkCostManagerRequests rt'
  = match m_mlAdaptiveCalculator rt' with
    | Some _ => [SetLoadAwareCostCalculator; SetMLFeedbackCallback]
    | None => []
    end
  /\ (is_Some (m_mlAdaptiveCalculator rt) -> is_Some (m_mlAdaptiveCalculator rt')).
Proof.
  intros Hr. simpl.
  assert (Hsame : forall rt' : RoutingTable NHL,
             m_mlAdaptiveCalculator rt' = m_mlAdaptiveCalculator rt ->
             linkCostManagerRequests rt' = linkCostManagerRequests rt ->
             linkCostManagerRequests rt'
             = match m_mlAdaptiveCalculator rt' with
               | Some _ => [SetLoadAwareCostCalculator; SetMLFeedbackCallback]
               | None => []
               end
             /\ (is_Some (m_mlAdaptiveCalculator rt) -> is_Some (m_mlAdaptiveCalculator rt'))).
  { intros rt' Hm Hq. rewrite Hm, Hq. split; [exact Hr | intros Hx; exact Hx]. }
  destruct ev as [o t u|env| |p|n p c]; simpl.
  - apply Hsame; apply onLsdbModified_calculator.
  - pose proof (calculate_calculator env rt) as Hcalc. cbv zeta in Hcalc.
    destruct (reachesMLCalculator rt (Calculate env)).
    + destruct Hcalc as [Hm Hq]. rewrite Hm, Hq, Hr.
      split; [|intros _; eexists; reflexivity].
      destruct (m_mlAdaptiveCalculator rt); reflexivity.
    + destruct Hcalc as [Hm Hq]. by apply Hsame.
  - apply Hsame; apply scheduleRoutingTableCalculation_calculator.
  - apply Hsame; reflexivity.
  - unfold onMLFeedback. simpl. destruct (m_mlAdaptiveCalculator rt); simpl;
      (split; [exact Hr|]); [intros _; eexists; reflexivity | intros Hx; exact Hx].
Qed.

(** X26: the ML calculator is created at most once and never dropped: along
    every sequence of events from construction, the link cost manager has
    received its cost-calculator registration followed by the feedback
    registration exactly once if the calculator exists and neither
    otherwise, and a calculator that exists is still there after any
    further events. *)
Lemma ml_calculator_registered_once `{NexthopOps NH NHL}
    (hyperbolicState : HyperbolicState) (evs evs' : list (RoutingEvent NH)) :
  let rt : RoutingTable NHL := routingRun (newRoutingTable hyperbolicState) evs in
  linkCostManagerRequests rt
  = match m_mlAdaptiveCalculator rt with
    | Some _ => [SetLoadAwareCostCalculator; SetMLFeedbackCallback]
    | None => []
    end
  /\ (is_Some (m_mlAdaptiveCalculator rt) ->
      is_Some (m_mlAdaptiveCalculator (routingRun rt evs'))).
Proof.
  simpl. unfold routingRun.
  assert (G : forall (l : list (RoutingEvent NH)) (rt : RoutingTable NHL),
             linkCostManagerRequests rt
             = match m_mlAdaptiveCalculator rt with
               | Some _ => [SetLoadAwareCostCalculator; SetMLFeedbackCallback]
               | None => []
               end ->
             linkCostManagerRequests (fold_left routingStep l rt)
             = match m_mlAdaptiveCalculator (fold_left routingStep l rt) with
               | Some _ => [SetLoadAwareCostCalculator; SetMLFeedbackCallback]
               | None => []
               end
             /\ (is_Some (m_mlAdaptiveCalculator rt) ->
                 is_Some (m_mlAdaptiveCalculator (fold_left routingStep l rt)))).
  { induction l as [|ev l IH]; intros rt Hr; simpl; [split; [exact Hr | (intros Hx; exact Hx)]|].
    destruct (routingStep_registrations rt ev Hr) as [Hr' Hs'].
    destruct (IH _ Hr') as [Hr'' Hs'']. split; [exact Hr'' | intros Hx; apply Hs'', Hs', Hx]. }
  destruct (G evs (newRoutingTable hyperbolicState) eq_refl) as [Hr _].
  split; [exact Hr|]. apply (G evs' _ Hr).
Qed.

Lemma ml_calculator_registered_once_witness :
  let rt : RoutingTable (list string) :=
    routingRun (newRoutingTable HYPERBOLIC_STATE_OFF)
      [SetLinkCostManager true; LsdbModified true ADJACENCY INSTALLED;
       Calculate (sampleEnv true)] in
  is_Some (m_mlAdaptiveCalculator rt)
  /\ is_Some (m_mlAdaptiveCalculator (routingRun rt [Calculate (sampleEnv true)])).
Proof.
  assert (Hs : is_Some (m_mlAdaptiveCalculator
                 (routingRun (newRoutingTable (NHL := list string) HYPERBOLIC_STATE_OFF)
                    [SetLinkCostManager true; LsdbModified true ADJACENCY INSTALLED;
                     Calculate (sampleEnv true)])))
    by (eexists; reflexivity).
  split; [exact Hs|].
  apply (proj2 (ml_calculator_registered_once HYPERBOLIC_STATE_OFF
                  [SetLinkCostManager true; LsdbModified true ADJACENCY INSTALLED;
                   Calculate (sampleEnv true)] [Calculate (sampleEnv true)])).
  exact Hs.
Defined.

Lemma calculate_guarded `{NexthopOps NH NHL} (env : RoutingEnv NH)
    (rt : RoutingTable NHL) :
  m_isRoutingTableCalculating rt = false ->
  getIsBuildAdjLsaScheduled env = true \/ m_ownAdjLsaExist rt = false ->
  getMLAdaptiveRouting env = true \/ getLoadAwareRouting env = true
  \/ m_hyperbolicState rt <> HYPERBOLIC_STATE_ON ->
  let rt' := calculate env rt in
  m_rTable (m_status rt') = m_rTable (m_status rt)
  /\ afterRoutingChange rt' = afterRoutingChange rt
  /\ m_mlAdaptiveCalculator rt' = m_mlAdaptiveCalculator rt
  /\ m_loadAwareCalculator rt' = m_loadAwareCalculator rt
  /\ linkCostManagerRequests rt' = linkCostManagerRequests rt
  /\ m_isRouteCalculationScheduled rt' = false.
Proof.
  intros Hc Hg Ha. simpl. unfold calculate. rewrite Hc. cbv zeta.
  unfold calculateMLAdaptiveRoutingTable, calculateLoadAwareRoutingTable,
    calculateLsRoutingTable, calculateHypRoutingTable.
  simpl.
  assert (Hgb : getIsBuildAdjLsaScheduled env = true
                \/ negb (m_ownAdjLsaExist rt) = true)
    by (destruct Hg as [? | ->]; [by left | by right]).
  destruct (getIsBuildAdjLsaScheduled env) eqn:Hb;
    [|destruct Hgb as [? | Ho]; [discriminate | rewrite Ho]].
  - destruct (getMLAdaptiveRouting env); [simpl; repeat split|].
    destruct (getLoadAwareRouting env); [simpl; repeat split|].
    destruct (m_hyperbolicState rt) eqn:Hh; simpl; repeat split.
    + destruct Ha as [? | [? | ?]]; congruence.
    + destruct Ha as [? | [? | ?]]; congruence.
    + pose proof (runPaths_other_table true (computedHops env (HyperbolicPaths true))
                    (clearDryRoutingTable (m_status rt))) as Hx. simpl in Hx. exact Hx.
  - destruct (getMLAdaptiveRouting env); [simpl; repeat split|].
    destruct (getLoadAwareRouting env); [simpl; repeat split|].
    destruct (m_hyperbolicState rt) eqn:Hh; simpl; repeat split.
    + destruct Ha as [? | [? | ?]]; congruence.
    + destruct Ha as [? | [? | ?]]; congruence.
    + pose proof (runPaths_other_table true (computedHops env (HyperbolicPaths true))
                    (clearDryRoutingTable (m_status rt))) as Hx. simpl in Hx. exact Hx.
Qed.

(** X27: a pass that one of the two guards stops (the adjacency build is
    scheduled, or the router's own adjacency LSA is missing) leaves the
    routing table, the calculators and the emitted routing changes as they
    were, whichever algorithm is configured other than pure hyperbolic
    routing; it still clears the scheduled flag. *)
Lemma guarded_pass_keeps_routing_table `{NexthopOps NH NHL} (env : RoutingEnv NH)
    (rt : RoutingTable NHL) :
  m_isRoutingTableCalculating rt = false ->
  getIsBuildAdjLsaScheduled env = true \/ m_ownAdjLsaExist rt = false ->
  getMLAdaptiveRouting env = true \/ getLoadAwareRouting env = true
  \/ m_hyperbolicState rt <> HYPERBOLIC_STATE_ON ->
  let rt' := calculate env rt in
  m_rTable (m_status rt') = m_rTable (m_status rt)
  /\ afterRoutingChange rt' = afterRoutingChange rt
  /\ m_mlAdaptiveCalculator rt' = m_mlAdaptiveCalculator rt
  /\ m_loadAwareCalculator rt' = m_loadAwareCalculator rt
  /\ linkCostManagerRequests rt' = linkCostManagerRequests rt
  /\ m_isRouteCalculationScheduled rt' = false.
Proof.
  exact (calculate_guarded env rt).
Qed.

Lemma guarded_pass_keeps_routing_table_witness :
  m_rTable (m_status (calculate (sampleEnv true)
     (with_status (mkRoutingTableStatus [] sampleTable None)
                  (newRoutingTable HYPERBOLIC_STATE_OFF))))
  = sampleTable.
Proof.
  apply (guarded_pass_keeps_routing_table (sampleEnv true)
           (with_status (mkRoutingTableStatus [] sampleTable None)
                        (newRoutingTable HYPERBOLIC_STATE_OFF))).
  - reflexivity.
  - right. reflexivity.
  - left. reflexivity.
Defined.

(** X28: without a link cost manager the ML-adaptive and the load-aware
    routines do exactly what the standard link-state routine does, on every
    input: same table, same emitted routing change, no calculator created;
    so a pass with either switch on ends in the state of a pass with both
    switches off and hyperbolic routing off. *)
Lemma no_manager_falls_back_to_link_state `{NexthopOps NH NHL} (env : RoutingEnv NH)
    (rt : RoutingTable NHL) :
  m_linkCostManager rt = false ->
  calculateMLAdaptiveRoutingTable env rt = calculateLsRoutingTable env rt
  /\ calculateLoadAwareRoutingTable env rt = calculateLsRoutingTable env rt
  /\ (m_hyperbolicState rt = HYPERBOLIC_STATE_OFF ->
      calculate env rt
      = calculate (mkRoutingEnv (getIsBuildAdjLsaScheduled env) false false
                                (computedHops env) (steadyClock env)) rt).
Proof.
  intros Hl.
  assert (Hml : calculateMLAdaptiveRoutingTable env rt = calculateLsRoutingTable env rt).
  { unfold calculateMLAdaptiveRoutingTable, calculateLsRoutingTable. simpl. rewrite Hl.
    destruct (getIsBuildAdjLsaScheduled env); [reflexivity|].
    destruct (m_ownAdjLsaExist rt); reflexivity. }
  assert (Hla : calculateLoadAwareRoutingTable env rt = calculateLsRoutingTable env rt).
  { unfold calculateLoadAwareRoutingTable, calculateLsRoutingTable. simpl. rewrite Hl.
    destruct (getIsBuildAdjLsaScheduled env); [reflexivity|].
    destruct (m_ownAdjLsaExist rt); reflexivity. }
  split; [exact Hml|]. split; [exact Hla|].
  intros Hh. unfold calculate. simpl. rewrite Hh.
  destruct (m_isRoutingTableCalculating rt); [reflexivity|].
  unfold calculateMLAdaptiveRoutingTable, calculateLoadAwareRoutingTable,
    calculateLsRoutingTable. simpl. rewrite Hl.
  destruct (getMLAdaptiveRouting env), (getLoadAwareRouting env),
    (getIsBuildAdjLsaScheduled env), (m_ownAdjLsaExist rt); reflexivity.
Qed.

Lemma no_manager_falls_back_to_link_state_witness :
  let rt := with_ownAdjLsaExist true (newRoutingTable HYPERBOLIC_STATE_OFF) in
  calculate (sampleEnv true) rt = calculate (sampleEnv false) rt.
Proof.
  simpl.
  apply (proj2 (proj2 (no_manager_falls_back_to_link_state (sampleEnv true)
           (with_ownAdjLsaExist true (newRoutingTable HYPERBOLIC_STATE_OFF)) eq_refl))).
  reflexivity.
Defined.

Lemma routingStep_hyperbolicState `{NexthopOps NH NHL} (rt : RoutingTable NHL)
    (ev : RoutingEvent NH) :
  m_isRoutingTableCalculating rt = false ->
  m_hyperbolicState (routingStep rt ev) = m_hyperbolicState rt
  /\ m_isRoutingTableCalculating (routingStep rt ev) = false.
Proof.
  intros Hc. destruct ev as [o t u|env| |p|n p c]; simpl.
  - unfold onLsdbModified, scheduleRoutingTableCalculation, emitRoutingChange.
    repeat case_match; simpl; split; first [reflexivity | assumption].
  - pose proof (calculate_flags env rt Hc) as (F1 & F2 & _). split; assumption.
  - unfold scheduleRoutingTableCalculation. case_match; simpl; split;
      first [reflexivity | assumption].
  - split; [reflexivity | assumption].
  - split; [reflexivity | assumption].
Qed.

Lemma routingStep_table_needs_own_lsa `{NexthopOps NH NHL} (rt : RoutingTable NHL)
    (ev : RoutingEvent NH) :
  m_isRoutingTableCalculating rt = false ->
  m_hyperbolicState rt <> HYPERBOLIC_STATE_ON ->
  (m_ownAdjLsaExist rt = false -> m_rTable (m_status rt) = []) ->
  m_ownAdjLsaExist (routingStep rt ev) = false ->
  m_rTable (m_status (routingStep rt ev)) = [].
Proof.
  intros Hc Hh Hinv. destruct ev as [o t u|env| |p|n p c]; simpl.
  - unfold onLsdbModified, scheduleRoutingTableCalculation, emitRoutingChange.
    repeat case_match; simpl; intros Ho; first [reflexivity | discriminate | by apply Hinv].
  - intros Ho. pose proof (calculate_flags env rt Hc) as (_ & _ & _ & F4 & _).
    simpl in F4. rewrite F4 in Ho.
    destruct (calculate_guarded env rt Hc (or_intror Ho) (or_intror (or_intror Hh)))
      as [Hr _].
    rewrite Hr. by apply Hinv.
  - unfold scheduleRoutingTableCalculation. case_match; simpl; exact Hinv.
  - exact Hinv.
  - exact Hinv.
Qed.

(** X29: unless pure hyperbolic routing is configured, the routing table
    is empty whenever the router's own adjacency LSA is missing: along
    every sequence of events from construction, no pass fills the table
    before the LSA is installed, and its removal empties the table. *)
Lemma no_own_lsa_no_routes `{NexthopOps NH NHL}
    (hyperbolicState : HyperbolicState) (evs : list (RoutingEvent NH)) :
  hyperbolicState <> HYPERBOLIC_STATE_ON ->
  let rt : RoutingTable NHL := routingRun (newRoutingTable hyperbolicState) evs in
  m_ownAdjLsaExist rt = false -> m_rTable (m_status rt) = [].
Proof.
  intros Hh. simpl. unfold routingRun.
  assert (G : forall (l : list (RoutingEvent NH)) (rt : RoutingTable NHL),
             m_isRoutingTableCalculating rt = false ->
             m_hyperbolicState rt <> HYPERBOLIC_STATE_ON ->
             (m_ownAdjLsaExist rt = false -> m_rTable (m_status rt) = []) ->
             m_ownAdjLsaExist (fold_left routingStep l rt) = false ->
             m_rTable (m_status (fold_left routingStep l rt)) = []).
  { induction l as [|ev l IH]; intros rt Hc Hs Hinv; simpl; [exact Hinv|].
    destruct (routingStep_hyperbolicState rt ev Hc) as [E1 E2].
    apply IH; [exact E2 | by rewrite E1 |].
    by apply routingStep_table_needs_own_lsa. }
  apply G; [reflexivity | exact Hh | reflexivity].
Qed.

Lemma no_own_lsa_no_routes_witness :
  m_rTable (m_status
    (routingRun (newRoutingTable (NHL := list string) HYPERBOLIC_STATE_DRY_RUN)
       [LsdbModified true ADJACENCY INSTALLED; Calculate (sampleEnv false);
        LsdbModified true ADJACENCY REMOVED; Calculate (sampleEnv false)])) = [].
Proof.
  apply (no_own_lsa_no_routes HYPERBOLIC_STATE_DRY_RUN
           [LsdbModified true ADJACENCY INSTALLED; Calculate (sampleEnv false);
            LsdbModified true ADJACENCY REMOVED; Calculate (sampleEnv false)]).
  - discriminate.
  - reflexivity.
Defined.

Lemma reportPathPerformance_predictionCount ml n actual c :
  predictionCount (m_statistics (reportPathPerformance ml n actual c))
  = predictionCount (m_statistics ml).
Proof.
  unfold reportPathPerformance, updateModelWithFeedback, adaptLearningRate. simpl.
  repeat case_match; reflexivity.
Qed.

Lemma routingStep_predictions `{NexthopOps NH NHL} (rt : RoutingTable NHL)
    (ev : RoutingEvent NH) (k : Z) :
  match m_mlAdaptiveCalculator rt with
  | Some ml => predictionCount (m_statistics ml) = wrap64 k /\ (0 < k)%Z
  | None => k = 0%Z
  end ->
  let k' := (k + (if reachesMLCalculator rt ev then 1 else 0))%Z in
  match m_mlAdaptiveCalculator (routingStep rt ev) with
  | Some ml => predictionCount (m_statistics ml) = wrap64 k' /\ (0 < k')%Z
  | None => k' = 0%Z
  end.
Proof.
  intros Hinv. simpl.
  destruct ev as [o t u|env| |p|n p c].
  - simpl. rewrite (proj1 (onLsdbModified_calculator o t u rt)), Z.add_0_r. exact Hinv.
  - pose proof (calculate_calculator env rt) as Hcalc. cbv zeta in Hcalc.
    change (routingStep rt (Calculate env)) with (calculate env rt).
    destruct (reachesMLCalculator rt (Calculate env)).
    + destruct Hcalc as [Hm _]. rewrite Hm.
      destruct (m_mlAdaptiveCalculator rt) as [ml|]; simpl.
      * destruct Hinv as [Hp Hk]. rewrite Hp. unfold wrap64.
        rewrite Zplus_mod_idemp_l. split; [reflexivity | lia].
      * subst k. split; [reflexivity | lia].
    + destruct Hcalc as [Hm _]. rewrite Hm, Z.add_0_r. exact Hinv.
  - simpl. rewrite (proj1 (scheduleRoutingTableCalculation_calculator rt)), Z.add_0_r.
    exact Hinv.
  - simpl. rewrite Z.add_0_r. exact Hinv.
  - change (routingStep rt (MLFeedback n p c)) with (onMLFeedback n p c rt).
    unfold onMLFeedback, with_mlAdaptiveCalculator, reachesMLCalculator.
    cbn [m_mlAdaptiveCalculator]. rewrite Z.add_0_r.
    destruct (m_mlAdaptiveCalculator rt) as [ml|]; [|exact Hinv].
    change ((fun ml0 => reportPathPerformance ml0 n p c) <$> Some ml)
      with (Some (reportPathPerformance ml n p c)).
    cbv beta iota. rewrite reportPathPerformance_predictionCount. exact Hinv.
Qed.

(** X30: the ML calculator is persistent: along every sequence of events
    from construction, its prediction counter equals (modulo 2^64) the
    number of calculation passes that reached it, feedback in between
    included, and there is no calculator exactly as long as no pass has
    reached it. *)
Lemma ml_calculator_counts_every_pass `{NexthopOps NH NHL}
    (hyperbolicState : HyperbolicState) (evs : list (RoutingEvent NH)) :
  let rt0 : RoutingTable NHL := newRoutingTable hyperbolicState in
  match m_mlAdaptiveCalculator (routingRun rt0 evs) with
  | Some ml => predictionCount (m_statistics ml) = wrap64 (mlPasses rt0 evs)
               /\ (0 < mlPasses rt0 evs)%Z
  | None => mlPasses rt0 evs = 0%Z
  end.
Proof.
  simpl. unfold routingRun.
  assert (G : forall (l : list (RoutingEvent NH)) (rt : RoutingTable NHL) (k : Z),
             match m_mlAdaptiveCalculator rt with
             | Some ml => predictionCount (m_statistics ml) = wrap64 k /\ (0 < k)%Z
             | None => k = 0%Z
             end ->
             match m_mlAdaptiveCalculator (fold_left routingStep l rt) with
             | Some ml => predictionCount (m_statistics ml) = wrap64 (k + mlPasses rt l)
                          /\ (0 < k + mlPasses rt l)%Z
             | None => (k + mlPasses rt l)%Z = 0%Z
             end).
  { induction l as [|ev l IH]; intros rt k Hinv; simpl.
    - rewrite Z.add_0_r. exact Hinv.
    - rewrite Z.add_assoc. apply IH. by apply routingStep_predictions. }
  apply (G evs (newRoutingTable hyperbolicState) 0%Z). reflexivity.
Qed.
